(** * Loop vectorization legality (LoopVectorizationLegality.cpp, LLVM 9.0.0)

    A shallow embedding of the legality analysis of the loop vectorizer:
    the loop hints read from and written to loop metadata, the requirements
    tracker, the control-flow shape checks, the classification of header
    phis, if-conversion and tail folding.

    Conventions.
    - A pointer to an IR object ([Value *], [Instruction *], [BasicBlock *])
      is a [positive]; pointer sets and maps are [gset] and [gmap].
    - [unsigned] and [int] values are integers of [Z]; the one place where
      the source narrows a 64-bit value to [unsigned] takes the remainder
      by [2^32] explicitly.
    - [assert] is compiled out, as in a release build.
    - A remark sent to the optimization remark emitter is appended to a
      log, newest last.
    - What the file calls but does not define (queries on loops, blocks,
      instructions and types, the recurrence analyses, scalar evolution,
      the memory dependence analysis, command line options) is a field of
      the object queried or of the environment record [Env]. *)

From Stdlib Require Import ZArith String List Bool Lia.
From stdpp Require Import base option list gmap sets strings.

Set Warnings "-register-all,-clear-no-such-hyp".
Local Open Scope string_scope.
Local Open Scope Z_scope.

(** ** Metadata *)

(** A metadata operand.  [MDSelf] stands for the first operand of a loop
    identifier, which refers to the identifier itself. *)
Inductive Metadata : Type :=
| MDSelf
| MDString (s : string)
| ConstantInt (bits : N) (v : Z)
| MDOther
| MDNode (ops : list Metadata).

(** A loop identifier is given by its operands. *)
Definition LoopID : Type := list Metadata.

Fixpoint Metadata_eqb (a b : Metadata) {struct a} : bool :=
  match a, b with
  | MDSelf, MDSelf => true
  | MDString s, MDString t => String.eqb s t
  | ConstantInt n v, ConstantInt m w => N.eqb n m && Z.eqb v w
  | MDOther, MDOther => true
  | MDNode xs, MDNode ys =>
      (fix go (xs ys : list Metadata) {struct xs} : bool :=
         match xs, ys with
         | [], [] => true
         | x :: xs', y :: ys' => Metadata_eqb x y && go xs' ys'
         | _, _ => false
         end) xs ys
  | _, _ => false
  end.

Definition dyn_cast_MDString (m : Metadata) : option string :=
  match m with MDString s => Some s | _ => None end.

(** [mdconst::dyn_extract<ConstantInt>] followed by [getZExtValue]. *)
Definition dyn_extract_ConstantInt (m : Metadata) : option Z :=
  match m with ConstantInt _ v => Some v | _ => None end.

(** ** Global configuration: command line options and constants *)

Record Config : Type := mkConfig {
  VectorizationFactor : Z;           (* VectorizerParams::VectorizationFactor *)
  VectorizationInterleave : Z;       (* VectorizerParams::VectorizationInterleave *)
  isInterleaveForced : bool;         (* VectorizerParams::isInterleaveForced() *)
  MaxVectorWidth : Z;                (* VectorizerParams::MaxVectorWidth *)
  RuntimeMemoryCheckThreshold : Z;   (* VectorizerParams::RuntimeMemoryCheckThreshold *)
  PragmaVectorizeMemoryCheckThreshold : Z;
  VectorizeSCEVCheckThreshold : Z;
  PragmaVectorizeSCEVCheckThreshold : Z;
  EnableIfConversion : bool;
  EnableVPlanPredication : bool
}.

(** The values the options are initialised with ([cl::init]) where the file
    shows them, and LLVM's defaults for those of [VectorizerParams]. *)
Definition defaultConfig : Config :=
  {| VectorizationFactor := 0;
     VectorizationInterleave := 0;
     isInterleaveForced := false;
     MaxVectorWidth := 64;
     RuntimeMemoryCheckThreshold := 8;
     PragmaVectorizeMemoryCheckThreshold := 128;
     VectorizeSCEVCheckThreshold := 16;
     PragmaVectorizeSCEVCheckThreshold := 128;
     EnableIfConversion := true;
     EnableVPlanPredication := false |}.

Definition MaxInterleaveFactor : Z := 16.

(** ** Remarks *)

Inductive RemarkKind : Type :=
| RemarkAnalysis | RemarkMissed | RemarkAnalysisFPCommute | RemarkAnalysisAliasing.

Record Remark : Type := mkRemark {
  remarkKind : RemarkKind;
  remarkPass : string;
  remarkName : string;
  remarkMsg : string
}.

Definition LV_NAME : string := "loop-vectorize".
(** [OptimizationRemarkAnalysis::AlwaysPrint]. *)
Definition AlwaysPrint : string := EmptyString.

(** ** Loop hints *)

Inductive HintKind : Type := HK_WIDTH | HK_UNROLL | HK_FORCE | HK_ISVECTORIZED.

Record Hint : Type := mkHint {
  Name : string;
  Value : Z;
  Kind : HintKind
}.

Definition FK_Undefined : Z := -1.
Definition FK_Disabled : Z := 0.
Definition FK_Enabled : Z := 1.

(** Modelled from the spec: [isPowerOf2_32] of MathExtras.h, which is not
    among the sources ("width (power of two, bounded)"): a positive value
    with a single bit set. *)
Definition isPowerOf2_32 (v : Z) : bool :=
  (0 <? v) && (Z.land v (v - 1) =? 0).

Section WithConfig.
Variable cfg : Config.

Definition validate (H : Hint) (Val : Z) : bool :=
  match Kind H with
  | HK_WIDTH => isPowerOf2_32 Val && (Val <=? MaxVectorWidth cfg)
  | HK_UNROLL => isPowerOf2_32 Val && (Val <=? MaxInterleaveFactor)
  | HK_FORCE => Val <=? 1
  | HK_ISVECTORIZED => (Val =? 0) || (Val =? 1)
  end.

Record LoopVectorizeHints : Type := mkHints {
  Width : Hint;
  Interleave : Hint;
  Force : Hint;
  IsVectorized : Hint;
  PotentiallyUnsafe : bool
}.

Definition setValue (H : Hint) (v : Z) : Hint :=
  {| Name := Name H; Value := v; Kind := Kind H |}.

Definition getWidth (h : LoopVectorizeHints) : Z := Value (Width h).
Definition getInterleave (h : LoopVectorizeHints) : Z := Value (Interleave h).
Definition getIsVectorized (h : LoopVectorizeHints) : Z := Value (IsVectorized h).
Definition getForce (h : LoopVectorizeHints) : Z := Value (Force h).

(** The prefix of loop metadata names; [setAlreadyVectorized] writes the
    hint named "isvectorized" as "llvm.loop.isvectorized". *)
Definition Prefix : string := "llvm.loop.".

(** [Name.substr(n, npos)]. *)
Definition substr_from (n : nat) (s : string) : string :=
  String.substring n (String.length s - n) s.

Definition setHint (h : LoopVectorizeHints) (Nm : string) (Arg : Metadata)
  : LoopVectorizeHints :=
  if negb (String.prefix Prefix Nm) then h
  else
    let Nm := substr_from (String.length Prefix) Nm in
    match dyn_extract_ConstantInt Arg with
    | None => h
    | Some c =>
        let Val := c mod 2 ^ 32 in
        if String.eqb Nm (Name (Width h)) then
          if validate (Width h) Val
          then {| Width := setValue (Width h) Val; Interleave := Interleave h;
                  Force := Force h; IsVectorized := IsVectorized h;
                  PotentiallyUnsafe := PotentiallyUnsafe h |}
          else h
        else if String.eqb Nm (Name (Interleave h)) then
          if validate (Interleave h) Val
          then {| Width := Width h; Interleave := setValue (Interleave h) Val;
                  Force := Force h; IsVectorized := IsVectorized h;
                  PotentiallyUnsafe := PotentiallyUnsafe h |}
          else h
        else if String.eqb Nm (Name (Force h)) then
          if validate (Force h) Val
          then {| Width := Width h; Interleave := Interleave h;
                  Force := setValue (Force h) Val; IsVectorized := IsVectorized h;
                  PotentiallyUnsafe := PotentiallyUnsafe h |}
          else h
        else if String.eqb Nm (Name (IsVectorized h)) then
          if validate (IsVectorized h) Val
          then {| Width := Width h; Interleave := Interleave h;
                  Force := Force h; IsVectorized := setValue (IsVectorized h) Val;
                  PotentiallyUnsafe := PotentiallyUnsafe h |}
          else h
        else h
    end.

(** One iteration of the loop over the operands of the loop identifier. *)
Definition hintFromOperand (h : LoopVectorizeHints) (op : Metadata)
  : LoopVectorizeHints :=
  match op with
  | MDNode [] => h
  | MDNode (op0 :: Args) =>
      match dyn_cast_MDString op0 with
      | None => h
      | Some Nm =>
          match Args with
          | [Arg] => setHint h Nm Arg
          | _ => h
          end
      end
  | _ =>
      (* a plain string has no argument, anything else is skipped *)
      h
  end.

Definition getHintsFromMetadata (h : LoopVectorizeHints) (L : option LoopID)
  : LoopVectorizeHints :=
  match L with
  | None => h
  | Some ops => fold_left hintFromOperand (skipn 1 ops) h
  end.

Definition initialHints (InterleaveOnlyWhenForced : bool) : LoopVectorizeHints :=
  {| Width := mkHint "vectorize.width" (VectorizationFactor cfg) HK_WIDTH;
     Interleave := mkHint "interleave.count"
                     (if InterleaveOnlyWhenForced then 1 else 0) HK_UNROLL;
     Force := mkHint "vectorize.enable" FK_Undefined HK_FORCE;
     IsVectorized := mkHint "isvectorized" 0 HK_ISVECTORIZED;
     PotentiallyUnsafe := false |}.

Definition overrideInterleave (h : LoopVectorizeHints) : LoopVectorizeHints :=
  if isInterleaveForced cfg
  then {| Width := Width h;
          Interleave := setValue (Interleave h) (VectorizationInterleave cfg);
          Force := Force h; IsVectorized := IsVectorized h;
          PotentiallyUnsafe := PotentiallyUnsafe h |}
  else h.

Definition deriveIsVectorized (h : LoopVectorizeHints) : LoopVectorizeHints :=
  if negb (Value (IsVectorized h) =? 1)
  then {| Width := Width h; Interleave := Interleave h; Force := Force h;
          IsVectorized :=
            setValue (IsVectorized h)
              (if (Value (Width h) =? 1) && (Value (Interleave h) =? 1)
               then 1 else 0);
          PotentiallyUnsafe := PotentiallyUnsafe h |}
  else h.

(** The constructor [LoopVectorizeHints::LoopVectorizeHints]. *)
Definition newLoopVectorizeHints (L : option LoopID)
    (InterleaveOnlyWhenForced : bool) : LoopVectorizeHints :=
  deriveIsVectorized
    (overrideInterleave
       (getHintsFromMetadata (initialHints InterleaveOnlyWhenForced) L)).

End WithConfig.

(** ** Marking a loop as vectorized *)

(** The name of a hint entry: the string that is the first operand of a
    metadata node. *)
Definition entryName (m : Metadata) : option string :=
  match m with
  | MDNode (MDString s :: _) => Some s
  | _ => None
  end.

Definition hasRemovePrefix (RemovePrefixes : list string) (op : Metadata) : bool :=
  match entryName op with
  | Some s => existsb (fun p => String.prefix p s) RemovePrefixes
  | None => false
  end.

Definition replacedBy (AddAttrs : list Metadata) (op : Metadata) : bool :=
  match entryName op with
  | Some s =>
      existsb (fun a => match entryName a with
                        | Some t => String.eqb s t
                        | None => false
                        end) AddAttrs
  | None => false
  end.

(** Modelled from the spec: [makePostTransformationMetadata], declared in
    LoopUtils.h and not among the sources.  The spec has
    [setAlreadyVectorized] add or replace the isvectorized entry, keep the
    other entries and drop the width and interleave entries: the new loop
    identifier starts with the reference to itself, keeps in their order the
    operands of the old one that neither carry a name with one of the
    prefixes to remove nor are replaced by an added attribute of the same
    name, and ends with the added attributes. *)
Definition makePostTransformationMetadata (OrigLoopID : option LoopID)
    (RemovePrefixes : list string) (AddAttrs : list Metadata) : LoopID :=
  (MDSelf ::
  List.filter (fun op => negb (hasRemovePrefix RemovePrefixes op)
                         && negb (replacedBy AddAttrs op))
    (match OrigLoopID with Some ops => skipn 1 ops | None => [] end)
  ++ AddAttrs)%list.

Definition IsVectorizedMD : Metadata :=
  MDNode [MDString "llvm.loop.isvectorized"; ConstantInt 32 1].

(** [setAlreadyVectorized] acts on the hints and on the identifier of the
    loop they belong to. *)
Definition setAlreadyVectorized (hl : LoopVectorizeHints * option LoopID)
  : LoopVectorizeHints * option LoopID :=
  let '(h, LoopID) := hl in
  let NewLoopID :=
    makePostTransformationMetadata LoopID
      [Prefix ++ "vectorize."; Prefix ++ "interleave."]%string
      [IsVectorizedMD] in
  ({| Width := Width h; Interleave := Interleave h; Force := Force h;
      IsVectorized := setValue (IsVectorized h) 1;
      PotentiallyUnsafe := PotentiallyUnsafe h |},
   Some NewLoopID).

Definition vectorizeAnalysisPassName (h : LoopVectorizeHints) : string :=
  if getWidth h =? 1 then LV_NAME
  else if getForce h =? FK_Disabled then LV_NAME
  else if (getForce h =? FK_Undefined) && (getWidth h =? 0) then LV_NAME
  else AlwaysPrint.

(** ** Requirements *)

Definition ValuePtr : Type := positive.
Definition BlockPtr : Type := positive.

Record LoopVectorizationRequirements : Type := mkRequirements {
  NumRuntimePointerChecks : Z;
  UnsafeAlgebraInst : option ValuePtr
}.

(** Modelled from the spec: [addUnsafeAlgebraInst] of the header, not among
    the sources: "record the first instruction that demanded unsafe
    floating-point reassociation". *)
Definition addUnsafeAlgebraInst (I : option ValuePtr)
    (r : LoopVectorizationRequirements) : LoopVectorizationRequirements :=
  match UnsafeAlgebraInst r with
  | Some _ => r
  | None => {| NumRuntimePointerChecks := NumRuntimePointerChecks r;
               UnsafeAlgebraInst := I |}
  end.

(** Modelled from the spec: [addRuntimePointerChecks] of the header, not
    among the sources: it records "the number of runtime pointer checks
    requested by memory analysis". *)
Definition addRuntimePointerChecks (Num : Z)
    (r : LoopVectorizationRequirements) : LoopVectorizationRequirements :=
  {| NumRuntimePointerChecks := Num;
     UnsafeAlgebraInst := UnsafeAlgebraInst r |}.

Definition CantReorderFPOps (PassName : string) : Remark :=
  mkRemark RemarkAnalysisFPCommute PassName "CantReorderFPOps"
    "loop not vectorized: cannot prove it is safe to reorder floating-point operations".

Definition CantReorderMemOps (PassName : string) : Remark :=
  mkRemark RemarkAnalysisAliasing PassName "CantReorderMemOps"
    "loop not vectorized: cannot prove it is safe to reorder memory operations".

Section Requirements.
Variable cfg : Config.
(** [Hints.allowReordering()], defined in the header. *)
Variable allowReordering : LoopVectorizeHints -> bool.

(** [doesNotMeet] returns [Failed] and the remarks it emitted. *)
Definition doesNotMeet (r : LoopVectorizationRequirements)
    (Hints : LoopVectorizeHints) : bool * list Remark :=
  let PassName := vectorizeAnalysisPassName Hints in
  let '(Failed, ORE) :=
    if bool_decide (is_Some (UnsafeAlgebraInst r)) && negb (allowReordering Hints)
    then (true, [CantReorderFPOps PassName])
    else (false, []) in
  let PragmaThresholdReached :=
    PragmaVectorizeMemoryCheckThreshold cfg <? NumRuntimePointerChecks r in
  let ThresholdReached :=
    RuntimeMemoryCheckThreshold cfg <? NumRuntimePointerChecks r in
  if (ThresholdReached && negb (allowReordering Hints)) || PragmaThresholdReached
  then (true, (ORE ++ [CantReorderMemOps PassName])%list)
  else (Failed, ORE).

End Requirements.

(** ** The intermediate representation, as far as the analysis looks at it *)

Inductive Ty : Type :=
| IntegerTy (bits : Z)
| FloatingPointTy (bits : Z)
| PointerTy
| VoidTy
| OtherTy (scalarBits : Z).

#[global] Instance Ty_eq_dec : EqDecision Ty.
Proof. solve_decision. Defined.

Definition isIntegerTy (t : Ty) : bool :=
  match t with IntegerTy _ => true | _ => false end.
Definition isFloatingPointTy (t : Ty) : bool :=
  match t with FloatingPointTy _ => true | _ => false end.
Definition isPointerTy (t : Ty) : bool :=
  match t with PointerTy => true | _ => false end.
Definition isVoidTy (t : Ty) : bool :=
  match t with VoidTy => true | _ => false end.
Definition getScalarSizeInBits (t : Ty) : Z :=
  match t with
  | IntegerTy b | FloatingPointTy b | OtherTy b => b
  | PointerTy | VoidTy => 0
  end.

(** What [dyn_cast<Constant>] finds. *)
Record Constant : Type := mkConstant {
  canTrap : bool;
  isNullValue : bool
}.

(** A user of a value: an instruction and the block it lives in. *)
Record User : Type := mkUser {
  userInst : ValuePtr;
  userParent : BlockPtr
}.

Record CallInfo : Type := mkCallInfo {
  getVectorIntrinsicIDForCall : Z;        (* 0 is [Intrinsic::not_intrinsic] *)
  isDbgInfoIntrinsic : bool;
  getCalledFunction : option string;      (* the name of the callee, if direct *)
  argOperands : list ValuePtr
}.

Inductive InstClass : Type :=
| PHINode (incomingBlocks : list BlockPtr)
| LoadInst (ptr : ValuePtr)
| StoreInst (ptr : ValuePtr) (valueTy : Ty)
| CallInst (CI : CallInfo)
| ExtractElementInst
| OtherInst.

Record Instruction : Type := mkInstruction {
  ival : ValuePtr;                 (* the address of the instruction *)
  iclass : InstClass;
  getType : Ty;
  operands : list ValuePtr;        (* for a phi, its incoming values *)
  mayReadFromMemory : bool;
  mayWriteToMemory : bool;
  mayThrow : bool;
  isBinaryOp : bool;
  isFast : bool
}.

Definition isPHI (I : Instruction) : bool :=
  match iclass I with PHINode _ => true | _ => false end.
Definition isLoad (I : Instruction) : bool :=
  match iclass I with LoadInst _ => true | _ => false end.
Definition isStore (I : Instruction) : bool :=
  match iclass I with StoreInst _ _ => true | _ => false end.

Definition getNumIncomingValues (Phi : Instruction) : Z :=
  Z.of_nat (length (operands Phi)).

(** [Phi->getIncomingValueForBlock(BB)]: the value coming in from the first
    incoming block equal to [BB].  The source asserts that there is one. *)
Fixpoint incomingValueFor (vs : list ValuePtr) (bs : list BlockPtr)
    (BB : BlockPtr) : option ValuePtr :=
  match vs, bs with
  | v :: vs', b :: bs' =>
      if Pos.eqb b BB then Some v else incomingValueFor vs' bs' BB
  | _, _ => None
  end.

Definition getIncomingValueForBlock (Phi : Instruction) (BB : option BlockPtr)
  : option ValuePtr :=
  match iclass Phi, BB with
  | PHINode bs, Some b => incomingValueFor (operands Phi) bs b
  | _, _ => None
  end.

Definition getLoadStorePointerOperand (I : Instruction) : option ValuePtr :=
  match iclass I with
  | LoadInst p => Some p
  | StoreInst p _ => Some p
  | _ => None
  end.

Inductive Terminator : Type :=
| BrUncond (succ : BlockPtr)
| BrCond (cond : ValuePtr) (succ0 succ1 : BlockPtr)
| NotBranch.

Record BasicBlock : Type := mkBlock {
  bptr : BlockPtr;                 (* the address of the block *)
  insts : list Instruction;        (* all instructions, terminator included *)
  getTerminator : Terminator
}.

(** [BB->phis()]: the phi nodes at the head of the block. *)
Fixpoint leadingPhis (l : list Instruction) : list Instruction :=
  match l with
  | i :: l' => if isPHI i then i :: leadingPhis l' else []
  | [] => []
  end.

Definition phis (BB : BasicBlock) : list Instruction := leadingPhis (insts BB).

Inductive Loop : Type := mkLoop {
  loopPtr : positive;              (* the address of the loop *)
  getHeader : BlockPtr;
  getLoopPreheader : option BlockPtr;
  getNumBackEdges : Z;
  getExitingBlock : option BlockPtr;
  getLoopLatch : option BlockPtr;
  blocks : list BasicBlock;
  getSubLoops : list Loop;
  isAnnotatedParallel : bool;
  getCanonicalInductionVariable : option Instruction
}.

Definition Loop_empty (L : Loop) : bool :=
  match getSubLoops L with [] => true | _ => false end.

Definition getNumBlocks (L : Loop) : Z := Z.of_nat (length (blocks L)).

(** [TheLoop->contains(UI)]: the parent of the instruction is a block of
    the loop. *)
Definition Loop_contains (L : Loop) (U : User) : bool :=
  existsb (fun BB => Pos.eqb (bptr BB) (userParent U)) (blocks L).

Definition findBlock (L : Loop) (b : BlockPtr) : option BasicBlock :=
  List.find (fun BB => Pos.eqb (bptr BB) b) (blocks L).

(** ** Descriptors of the recurrence analyses *)

Inductive InductionKind : Type :=
| IK_NoInduction | IK_IntInduction | IK_PtrInduction | IK_FpInduction.

#[global] Instance InductionKind_eq_dec : EqDecision InductionKind.
Proof. solve_decision. Defined.

Record InductionDescriptor : Type := mkInductionDescriptor {
  getKind : InductionKind;
  getStartValue : ValuePtr;
  getConstIntStepValue : option Z;
  getCastInsts : list ValuePtr;
  ID_hasUnsafeAlgebra : bool;
  ID_getUnsafeAlgebraInst : option ValuePtr
}.

Record RecurrenceDescriptor : Type := mkRecurrenceDescriptor {
  getLoopExitInstr : ValuePtr;
  RD_hasUnsafeAlgebra : bool;
  RD_getUnsafeAlgebraInst : option ValuePtr
}.

Record TargetLibraryInfo : Type := mkTLI {
  isFunctionVectorizable : string -> bool;
  getLibFunc : string -> option positive;
  hasOptimizedCodeGen : positive -> bool
}.

(** The result of the memory dependence analysis of a loop; [PSE] is the
    type of the states of predicated scalar evolution. *)
Record LoopAccessInfo (PSE : Type) : Type := mkLAI {
  LAI_getReport : option Remark;
  LAI_canVectorizeMemory : bool;
  hasDependenceInvolvingLoopInvariantAddress : bool;
  getNumRuntimePointerChecks : Z;
  LAI_getPSE : PSE
}.
Arguments LAI_getReport {PSE} _.
Arguments LAI_canVectorizeMemory {PSE} _.
Arguments hasDependenceInvolvingLoopInvariantAddress {PSE} _.
Arguments getNumRuntimePointerChecks {PSE} _.
Arguments LAI_getPSE {PSE} _.

(** ** The environment: the collaborators of the analysis *)

Record Env (PSE : Type) : Type := mkEnv {
  config : Config;
  allowExtraAnalysis : bool;       (* ORE->allowExtraAnalysis(DEBUG_TYPE) *)
  asConstant : ValuePtr -> option Constant;
  users : ValuePtr -> list User;
  isValidElementType : Ty -> bool; (* VectorType::isValidElementType *)
  getIntPtrType : Ty -> Ty;        (* DL.getIntPtrType *)
  no_nans_fp_math : string;        (* value of the function attribute *)
  TLI : option TargetLibraryInfo;
  hasVectorInstrinsicScalarOpd : Z -> nat -> bool;
  Loop_isLoopInvariant : Loop -> ValuePtr -> bool;
  LI_isLoopHeader : BlockPtr -> bool;
  asCmpInst : ValuePtr -> option (ValuePtr * ValuePtr);
  blockNeedsPredication : BasicBlock -> Loop -> bool;
  (* predicated scalar evolution *)
  isAlwaysTrue : PSE -> bool;      (* PSE.getUnionPredicate().isAlwaysTrue() *)
  getComplexity : PSE -> Z;        (* PSE.getUnionPredicate().getComplexity() *)
  addPredicate : PSE -> PSE -> PSE;
  SE_isLoopInvariant : PSE -> ValuePtr -> Loop -> bool;
  (* recurrence analyses *)
  isReductionPHI : Instruction -> Loop -> option RecurrenceDescriptor;
  isInductionPHI :
    Instruction -> Loop -> PSE -> bool -> option InductionDescriptor * PSE;
  isFirstOrderRecurrence :
    Instruction -> Loop -> gmap ValuePtr ValuePtr ->
    bool * gmap ValuePtr ValuePtr;
  (* memory dependence analysis *)
  GetLAA : Loop -> LoopAccessInfo PSE
}.
Arguments config {PSE} _.
Arguments allowExtraAnalysis {PSE} _.
Arguments asConstant {PSE} _ _.
Arguments users {PSE} _ _.
Arguments isValidElementType {PSE} _ _.
Arguments getIntPtrType {PSE} _ _.
Arguments no_nans_fp_math {PSE} _.
Arguments TLI {PSE} _.
Arguments hasVectorInstrinsicScalarOpd {PSE} _ _ _.
Arguments Loop_isLoopInvariant {PSE} _ _ _.
Arguments LI_isLoopHeader {PSE} _ _.
Arguments asCmpInst {PSE} _ _.
Arguments blockNeedsPredication {PSE} _ _ _.
Arguments isAlwaysTrue {PSE} _ _.
Arguments getComplexity {PSE} _ _.
Arguments addPredicate {PSE} _ _ _.
Arguments SE_isLoopInvariant {PSE} _ _ _ _.
Arguments isReductionPHI {PSE} _ _ _.
Arguments isInductionPHI {PSE} _ _ _ _ _.
Arguments isFirstOrderRecurrence {PSE} _ _ _ _.
Arguments GetLAA {PSE} _ _.

(** ** The state of the analysis *)

(** The members of [LoopVectorizationLegality] that the analysis writes,
    with the hints, the requirements and the remark log it reaches through
    pointers. *)
Record Legality (PSE : Type) : Type := mkLegality {
  PSEst : PSE;
  Hints : LoopVectorizeHints;
  Requirements : LoopVectorizationRequirements;
  Inductions : gmap ValuePtr InductionDescriptor;
  Reductions : gmap ValuePtr RecurrenceDescriptor;
  FirstOrderRecurrences : gset ValuePtr;
  SinkAfter : gmap ValuePtr ValuePtr;
  InductionCastsToIgnore : gset ValuePtr;
  WidestIndTy : option Ty;
  PrimaryInduction : option Instruction;
  AllowedExit : gset ValuePtr;
  MaskedOp : gset ValuePtr;
  HasFunNoNaNAttr : bool;
  LAI : option (LoopAccessInfo PSE);
  ORE : list Remark
}.
Arguments PSEst {PSE} _.
Arguments Hints {PSE} _.
Arguments Requirements {PSE} _.
Arguments Inductions {PSE} _.
Arguments Reductions {PSE} _.
Arguments FirstOrderRecurrences {PSE} _.
Arguments SinkAfter {PSE} _.
Arguments InductionCastsToIgnore {PSE} _.
Arguments WidestIndTy {PSE} _.
Arguments PrimaryInduction {PSE} _.
Arguments AllowedExit {PSE} _.
Arguments MaskedOp {PSE} _.
Arguments HasFunNoNaNAttr {PSE} _.
Arguments LAI {PSE} _.
Arguments ORE {PSE} _.
Arguments mkLegality {PSE}.

Section Setters.
Context {PSE : Type}.

Definition set_PSEst (x : PSE) (s : Legality PSE) : Legality PSE :=
  {| PSEst := x; Hints := Hints s; Requirements := Requirements s;
     Inductions := Inductions s; Reductions := Reductions s;
     FirstOrderRecurrences := FirstOrderRecurrences s; SinkAfter := SinkAfter
     s; InductionCastsToIgnore := InductionCastsToIgnore s; WidestIndTy :=
     WidestIndTy s; PrimaryInduction := PrimaryInduction s; AllowedExit :=
     AllowedExit s; MaskedOp := MaskedOp s; HasFunNoNaNAttr := HasFunNoNaNAttr
     s; LAI := LAI s; ORE := ORE s |}.
Definition set_Hints (x : LoopVectorizeHints) (s : Legality PSE) : Legality PSE :=
  {| PSEst := PSEst s; Hints := x; Requirements := Requirements s;
     Inductions := Inductions s; Reductions := Reductions s;
     FirstOrderRecurrences := FirstOrderRecurrences s; SinkAfter := SinkAfter
     s; InductionCastsToIgnore := InductionCastsToIgnore s; WidestIndTy :=
     WidestIndTy s; PrimaryInduction := PrimaryInduction s; AllowedExit :=
     AllowedExit s; MaskedOp := MaskedOp s; HasFunNoNaNAttr := HasFunNoNaNAttr
     s; LAI := LAI s; ORE := ORE s |}.
Definition set_Requirements (x : LoopVectorizationRequirements) (s : Legality PSE) : Legality PSE :=
  {| PSEst := PSEst s; Hints := Hints s; Requirements := x; Inductions :=
     Inductions s; Reductions := Reductions s; FirstOrderRecurrences :=
     FirstOrderRecurrences s; SinkAfter := SinkAfter s; InductionCastsToIgnore
     := InductionCastsToIgnore s; WidestIndTy := WidestIndTy s;
     PrimaryInduction := PrimaryInduction s; AllowedExit := AllowedExit s;
     MaskedOp := MaskedOp s; HasFunNoNaNAttr := HasFunNoNaNAttr s; LAI := LAI
     s; ORE := ORE s |}.
Definition set_Inductions (x : gmap ValuePtr InductionDescriptor) (s : Legality PSE) : Legality PSE :=
  {| PSEst := PSEst s; Hints := Hints s; Requirements := Requirements s;
     Inductions := x; Reductions := Reductions s; FirstOrderRecurrences :=
     FirstOrderRecurrences s; SinkAfter := SinkAfter s; InductionCastsToIgnore
     := InductionCastsToIgnore s; WidestIndTy := WidestIndTy s;
     PrimaryInduction := PrimaryInduction s; AllowedExit := AllowedExit s;
     MaskedOp := MaskedOp s; HasFunNoNaNAttr := HasFunNoNaNAttr s; LAI := LAI
     s; ORE := ORE s |}.
Definition set_Reductions (x : gmap ValuePtr RecurrenceDescriptor) (s : Legality PSE) : Legality PSE :=
  {| PSEst := PSEst s; Hints := Hints s; Requirements := Requirements s;
     Inductions := Inductions s; Reductions := x; FirstOrderRecurrences :=
     FirstOrderRecurrences s; SinkAfter := SinkAfter s; InductionCastsToIgnore
     := InductionCastsToIgnore s; WidestIndTy := WidestIndTy s;
     PrimaryInduction := PrimaryInduction s; AllowedExit := AllowedExit s;
     MaskedOp := MaskedOp s; HasFunNoNaNAttr := HasFunNoNaNAttr s; LAI := LAI
     s; ORE := ORE s |}.
Definition set_FirstOrderRecurrences (x : gset ValuePtr) (s : Legality PSE) : Legality PSE :=
  {| PSEst := PSEst s; Hints := Hints s; Requirements := Requirements s;
     Inductions := Inductions s; Reductions := Reductions s;
     FirstOrderRecurrences := x; SinkAfter := SinkAfter s;
     InductionCastsToIgnore := InductionCastsToIgnore s; WidestIndTy :=
     WidestIndTy s; PrimaryInduction := PrimaryInduction s; AllowedExit :=
     AllowedExit s; MaskedOp := MaskedOp s; HasFunNoNaNAttr := HasFunNoNaNAttr
     s; LAI := LAI s; ORE := ORE s |}.
Definition set_SinkAfter (x : gmap ValuePtr ValuePtr) (s : Legality PSE) : Legality PSE :=
  {| PSEst := PSEst s; Hints := Hints s; Requirements := Requirements s;
     Inductions := Inductions s; Reductions := Reductions s;
     FirstOrderRecurrences := FirstOrderRecurrences s; SinkAfter := x;
     InductionCastsToIgnore := InductionCastsToIgnore s; WidestIndTy :=
     WidestIndTy s; PrimaryInduction := PrimaryInduction s; AllowedExit :=
     AllowedExit s; MaskedOp := MaskedOp s; HasFunNoNaNAttr := HasFunNoNaNAttr
     s; LAI := LAI s; ORE := ORE s |}.
Definition set_InductionCastsToIgnore (x : gset ValuePtr) (s : Legality PSE) : Legality PSE :=
  {| PSEst := PSEst s; Hints := Hints s; Requirements := Requirements s;
     Inductions := Inductions s; Reductions := Reductions s;
     FirstOrderRecurrences := FirstOrderRecurrences s; SinkAfter := SinkAfter
     s; InductionCastsToIgnore := x; WidestIndTy := WidestIndTy s;
     PrimaryInduction := PrimaryInduction s; AllowedExit := AllowedExit s;
     MaskedOp := MaskedOp s; HasFunNoNaNAttr := HasFunNoNaNAttr s; LAI := LAI
     s; ORE := ORE s |}.
Definition set_WidestIndTy (x : option Ty) (s : Legality PSE) : Legality PSE :=
  {| PSEst := PSEst s; Hints := Hints s; Requirements := Requirements s;
     Inductions := Inductions s; Reductions := Reductions s;
     FirstOrderRecurrences := FirstOrderRecurrences s; SinkAfter := SinkAfter
     s; InductionCastsToIgnore := InductionCastsToIgnore s; WidestIndTy := x;
     PrimaryInduction := PrimaryInduction s; AllowedExit := AllowedExit s;
     MaskedOp := MaskedOp s; HasFunNoNaNAttr := HasFunNoNaNAttr s; LAI := LAI
     s; ORE := ORE s |}.
Definition set_PrimaryInduction (x : option Instruction) (s : Legality PSE) : Legality PSE :=
  {| PSEst := PSEst s; Hints := Hints s; Requirements := Requirements s;
     Inductions := Inductions s; Reductions := Reductions s;
     FirstOrderRecurrences := FirstOrderRecurrences s; SinkAfter := SinkAfter
     s; InductionCastsToIgnore := InductionCastsToIgnore s; WidestIndTy :=
     WidestIndTy s; PrimaryInduction := x; AllowedExit := AllowedExit s;
     MaskedOp := MaskedOp s; HasFunNoNaNAttr := HasFunNoNaNAttr s; LAI := LAI
     s; ORE := ORE s |}.
Definition set_AllowedExit (x : gset ValuePtr) (s : Legality PSE) : Legality PSE :=
  {| PSEst := PSEst s; Hints := Hints s; Requirements := Requirements s;
     Inductions := Inductions s; Reductions := Reductions s;
     FirstOrderRecurrences := FirstOrderRecurrences s; SinkAfter := SinkAfter
     s; InductionCastsToIgnore := InductionCastsToIgnore s; WidestIndTy :=
     WidestIndTy s; PrimaryInduction := PrimaryInduction s; AllowedExit := x;
     MaskedOp := MaskedOp s; HasFunNoNaNAttr := HasFunNoNaNAttr s; LAI := LAI
     s; ORE := ORE s |}.
Definition set_MaskedOp (x : gset ValuePtr) (s : Legality PSE) : Legality PSE :=
  {| PSEst := PSEst s; Hints := Hints s; Requirements := Requirements s;
     Inductions := Inductions s; Reductions := Reductions s;
     FirstOrderRecurrences := FirstOrderRecurrences s; SinkAfter := SinkAfter
     s; InductionCastsToIgnore := InductionCastsToIgnore s; WidestIndTy :=
     WidestIndTy s; PrimaryInduction := PrimaryInduction s; AllowedExit :=
     AllowedExit s; MaskedOp := x; HasFunNoNaNAttr := HasFunNoNaNAttr s; LAI :=
     LAI s; ORE := ORE s |}.
Definition set_HasFunNoNaNAttr (x : bool) (s : Legality PSE) : Legality PSE :=
  {| PSEst := PSEst s; Hints := Hints s; Requirements := Requirements s;
     Inductions := Inductions s; Reductions := Reductions s;
     FirstOrderRecurrences := FirstOrderRecurrences s; SinkAfter := SinkAfter
     s; InductionCastsToIgnore := InductionCastsToIgnore s; WidestIndTy :=
     WidestIndTy s; PrimaryInduction := PrimaryInduction s; AllowedExit :=
     AllowedExit s; MaskedOp := MaskedOp s; HasFunNoNaNAttr := x; LAI := LAI s;
     ORE := ORE s |}.
Definition set_LAI (x : option (LoopAccessInfo PSE)) (s : Legality PSE) : Legality PSE :=
  {| PSEst := PSEst s; Hints := Hints s; Requirements := Requirements s;
     Inductions := Inductions s; Reductions := Reductions s;
     FirstOrderRecurrences := FirstOrderRecurrences s; SinkAfter := SinkAfter
     s; InductionCastsToIgnore := InductionCastsToIgnore s; WidestIndTy :=
     WidestIndTy s; PrimaryInduction := PrimaryInduction s; AllowedExit :=
     AllowedExit s; MaskedOp := MaskedOp s; HasFunNoNaNAttr := HasFunNoNaNAttr
     s; LAI := x; ORE := ORE s |}.
Definition set_ORE (x : list Remark) (s : Legality PSE) : Legality PSE :=
  {| PSEst := PSEst s; Hints := Hints s; Requirements := Requirements s;
     Inductions := Inductions s; Reductions := Reductions s;
     FirstOrderRecurrences := FirstOrderRecurrences s; SinkAfter := SinkAfter
     s; InductionCastsToIgnore := InductionCastsToIgnore s; WidestIndTy :=
     WidestIndTy s; PrimaryInduction := PrimaryInduction s; AllowedExit :=
     AllowedExit s; MaskedOp := MaskedOp s; HasFunNoNaNAttr := HasFunNoNaNAttr
     s; LAI := LAI s; ORE := x |}.

End Setters.

(** ** A state monad over the analysis state *)

Definition M (St A : Type) : Type := St -> A * St.

Definition ret {St A : Type} (a : A) : M St A := fun s => (a, s).

Definition bind {St A B : Type} (m : M St A) (k : A -> M St B) : M St B :=
  fun s => let '(a, s') := m s in k a s'.

Definition modify {St : Type} (f : St -> St) : M St unit := fun s => (tt, f s).

Definition gets {St A : Type} (f : St -> A) : M St A := fun s => (f s, s).

Definition when {St : Type} (b : bool) (m : M St unit) : M St unit :=
  if b then m else ret tt.

Notation "x <- c1 ;; c2" := (bind c1 (fun x => c2))
  (at level 100, c1 at next level, right associativity).
Notation "c1 ;; c2" := (bind c1 (fun _ => c2))
  (at level 100, right associativity).

(** ** The legality analysis *)

Section Legality.
Context {PSE : Type}.
Variable E : Env PSE.
Variable TheLoop : Loop.

Local Abbreviation St := (Legality PSE).

Definition emit (r : Remark) : M St unit :=
  modify (fun s => set_ORE (ORE s ++ [r])%list s).

(** [createLVMissedAnalysis] and [reportVectorizationFailure]; the anchor
    of the remark is not kept. *)
Definition reportVectorizationFailure (OREMsg ORETag : string) : M St unit :=
  PassName <- gets (fun s => vectorizeAnalysisPassName (Hints s)) ;;
  emit (mkRemark RemarkAnalysis PassName ORETag
          ("loop not vectorized: " ++ OREMsg)%string).

Definition CFGNotUnderstood : M St unit :=
  reportVectorizationFailure
    "loop control flow is not understood by vectorizer" "CFGNotUnderstood".

(** The recurring shape
    [if (bad) { report; if (DoExtraAnalysis) Result = false; else return false; }]
    followed by the rest [k] of the function. *)
Definition check (bad : bool) (report : M St unit) (Result : bool)
    (k : bool -> M St bool) : M St bool :=
  if bad
  then report ;; (if allowExtraAnalysis E then k false else ret false)
  else k Result.

(** *** Uniformity of nested loops *)

Definition isUniformLoop (Lp OuterLp : Loop) : bool :=
  if Pos.eqb (loopPtr Lp) (loopPtr OuterLp) then true
  else
    match getCanonicalInductionVariable Lp with
    | None => false
    | Some IV =>
        let Latch := getLoopLatch Lp in
        (* the source asserts that the latch exists; without one the model
           finds no branch *)
        match Latch ≫= findBlock Lp with
        | Some LatchBB =>
            match getTerminator LatchBB with
            | BrCond cond _ _ =>
                match asCmpInst E cond with
                | None => false
                | Some (CondOp0, CondOp1) =>
                    let IVUpdate := getIncomingValueForBlock IV Latch in
                    if negb (bool_decide (Some CondOp0 = IVUpdate)
                             && Loop_isLoopInvariant E OuterLp CondOp1)
                       && negb (bool_decide (Some CondOp1 = IVUpdate)
                                && Loop_isLoopInvariant E OuterLp CondOp0)
                    then false
                    else true
                end
            | _ => false
            end
        | None => false
        end
    end.

Fixpoint isUniformLoopNest (Lp OuterLp : Loop) {struct Lp} : bool :=
  if negb (isUniformLoop Lp OuterLp) then false
  else
    (fix subs (ls : list Loop) : bool :=
       match ls with
       | [] => true
       | SubLp :: ls' =>
           if negb (isUniformLoopNest SubLp OuterLp) then false else subs ls'
       end) (getSubLoops Lp).

Definition canIfConvertPHINodes (BB : BasicBlock) : bool :=
  forallb (fun Phi =>
             forallb (fun V => match asConstant E V with
                               | Some C => negb (canTrap C)
                               | None => true
                               end) (operands Phi))
          (phis BB).

Definition convertPointerToIntegerType (T : Ty) : Ty :=
  if isPointerTy T then getIntPtrType E T
  else if getScalarSizeInBits T <? 32 then IntegerTy 32
  else T.

Definition getWiderType (Ty0 Ty1 : Ty) : Ty :=
  let Ty0 := convertPointerToIntegerType Ty0 in
  let Ty1 := convertPointerToIntegerType Ty1 in
  if getScalarSizeInBits Ty1 <? getScalarSizeInBits Ty0 then Ty0 else Ty1.

Definition hasOutsideLoopUser (Inst : Instruction) (AllowedExit : gset ValuePtr)
  : bool :=
  if negb (bool_decide (ival Inst ∈ AllowedExit))
  then existsb (fun UI => negb (Loop_contains TheLoop UI)) (users E (ival Inst))
  else false.

(** *** Inductions *)

Definition addInductionPhi (Phi : Instruction) (ID : InductionDescriptor)
  : M St unit :=
  modify (fun s => set_Inductions (<[ival Phi := ID]> (Inductions s)) s) ;;
  match getCastInsts ID with
  | c :: _ =>
      modify (fun s =>
        set_InductionCastsToIgnore ({[c]} ∪ InductionCastsToIgnore s) s)
  | [] => ret tt
  end ;;
  let PhiTy := getType Phi in
  when (negb (isFloatingPointTy PhiTy))
    (modify (fun s =>
       match WidestIndTy s with
       | None => set_WidestIndTy (Some (convertPointerToIntegerType PhiTy)) s
       | Some W => set_WidestIndTy (Some (getWiderType PhiTy W)) s
       end)) ;;
  when (bool_decide (getKind ID = IK_IntInduction)
        && bool_decide (getConstIntStepValue ID = Some 1)
        && match asConstant E (getStartValue ID) with
           | Some C => isNullValue C
           | None => false
           end)
    (modify (fun s =>
       if match PrimaryInduction s with None => true | Some _ => false end
          || bool_decide (Some PhiTy = WidestIndTy s)
       then set_PrimaryInduction (Some Phi) s
       else s)) ;;
  alwaysTrue <- gets (fun s => isAlwaysTrue E (PSEst s)) ;;
  when alwaysTrue
    (modify (fun s => set_AllowedExit ({[ival Phi]} ∪ AllowedExit s) s) ;;
     match getIncomingValueForBlock Phi (getLoopLatch TheLoop) with
     | Some V => modify (fun s => set_AllowedExit ({[V]} ∪ AllowedExit s) s)
     | None => ret tt   (* the source asserts that the latch is an incoming block *)
     end).

Definition setupOuterLoopInductions : M St bool :=
  let Header := findBlock TheLoop (getHeader TheLoop) in
  let isSupportedPhi (Phi : Instruction) : M St bool :=
    pse <- gets PSEst ;;
    let '(r, pse') := isInductionPHI E Phi TheLoop pse false in
    modify (set_PSEst pse') ;;
    match r with
    | Some ID =>
        if bool_decide (getKind ID = IK_IntInduction)
        then addInductionPhi Phi ID ;; ret true
        else ret false
    | None => ret false
    end in
  (fix all_of (l : list Instruction) : M St bool :=
     match l with
     | [] => ret true
     | Phi :: l' =>
         ok <- isSupportedPhi Phi ;;
         if ok then all_of l' else ret false
     end) (match Header with Some BB => phis BB | None => [] end).

(** *** Outer loops *)

Fixpoint outerLoopBlocks (bs : list BasicBlock) (Result : bool)
    (k : bool -> M St bool) : M St bool :=
  match bs with
  | [] => k Result
  | BB :: bs' =>
      let Br := getTerminator BB in
      check (match Br with NotBranch => true | _ => false end)
        CFGNotUnderstood Result (fun Result =>
      check (negb (EnableVPlanPredication (config E))
             && match Br with
                | BrCond cond succ0 succ1 =>
                    negb (Loop_isLoopInvariant E TheLoop cond)
                    && negb (LI_isLoopHeader E succ0)
                    && negb (LI_isLoopHeader E succ1)
                | _ => false
                end)
        CFGNotUnderstood Result (fun Result =>
      outerLoopBlocks bs' Result k))
  end.

Definition canVectorizeOuterLoop : M St bool :=
  outerLoopBlocks (blocks TheLoop) true (fun Result =>
  check (negb (isUniformLoopNest TheLoop TheLoop))
    CFGNotUnderstood Result (fun Result =>
  ok <- setupOuterLoopInductions ;;
  check (negb ok)
    (reportVectorizationFailure "Unsupported outer loop Phi(s)" "UnsupportedPhi")
    Result (fun Result =>
  ret Result))).

(** *** Instructions *)

(** Lines 637-694: a phi of the header block.  The result [true] stands
    for [continue], [false] for [return false]. *)
Definition headerPhi (Phi : Instruction) : M St bool :=
  if negb (getNumIncomingValues Phi =? 2)
  then CFGNotUnderstood ;; ret false
  else
    match isReductionPHI E Phi TheLoop with
    | Some RedDes =>
        when (RD_hasUnsafeAlgebra RedDes)
          (modify (fun s =>
             set_Requirements
               (addUnsafeAlgebraInst (RD_getUnsafeAlgebraInst RedDes)
                  (Requirements s)) s)) ;;
        modify (fun s =>
          set_AllowedExit ({[getLoopExitInstr RedDes]} ∪ AllowedExit s) s) ;;
        modify (fun s => set_Reductions (<[ival Phi := RedDes]> (Reductions s)) s) ;;
        ret true
    | None =>
        pse <- gets PSEst ;;
        let '(r, pse') := isInductionPHI E Phi TheLoop pse false in
        modify (set_PSEst pse') ;;
        match r with
        | Some ID =>
            addInductionPhi Phi ID ;;
            noNaN <- gets HasFunNoNaNAttr ;;
            when (ID_hasUnsafeAlgebra ID && negb noNaN)
              (modify (fun s =>
                 set_Requirements
                   (addUnsafeAlgebraInst (ID_getUnsafeAlgebraInst ID)
                      (Requirements s)) s)) ;;
            ret true
        | None =>
            sink <- gets SinkAfter ;;
            let '(isFOR, sink') := isFirstOrderRecurrence E Phi TheLoop sink in
            modify (set_SinkAfter sink') ;;
            if isFOR
            then
              modify (fun s =>
                set_FirstOrderRecurrences
                  ({[ival Phi]} ∪ FirstOrderRecurrences s) s) ;;
              ret true
            else
              pse <- gets PSEst ;;
              let '(r, pse') := isInductionPHI E Phi TheLoop pse true in
              modify (set_PSEst pse') ;;
              match r with
              | Some ID => addInductionPhi Phi ID ;; ret true
              | None =>
                  reportVectorizationFailure
                    "value that could not be identified as reduction is used outside the loop"
                    "NonReductionValueUsedOutsideLoop" ;;
                  ret false
              end
        end
    end.

Definition isVectorizableCallee (CI : CallInfo) : bool :=
  match getCalledFunction CI, TLI E with
  | Some name, Some tli => isFunctionVectorizable tli name
  | _, _ => false
  end.

Definition IsMathLibCall (I : Instruction) (CI : CallInfo) : bool :=
  match TLI E, getCalledFunction CI with
  | Some tli, Some name =>
      isFloatingPointTy (getType I)
      && match getLibFunc tli name with
         | Some Func => hasOptimizedCodeGen tli Func
         | None => false
         end
  | _, _ => false
  end.

(** The scalar operands of an intrinsic call must be loop invariant. *)
Fixpoint scalarOpdsInvariant (IntrinID : Z) (pse : PSE) (i : nat)
    (args : list ValuePtr) : bool :=
  match args with
  | [] => true
  | a :: args' =>
      if hasVectorInstrinsicScalarOpd E IntrinID i
         && negb (SE_isLoopInvariant E pse a TheLoop)
      then false
      else scalarOpdsInvariant IntrinID pse (S i) args'
  end.

(** Lines 697-796: an instruction that is not a phi. *)
Definition nonPhiInstr (I : Instruction) : M St bool :=
  let CI := match iclass I with CallInst ci => Some ci | _ => None end in
  let unvectorizableCall :=
    match CI with
    | Some ci =>
        if (getVectorIntrinsicIDForCall ci =? 0)
           && negb (isDbgInfoIntrinsic ci)
           && negb (isVectorizableCallee ci)
        then Some (IsMathLibCall I ci)
        else None
    | None => None
    end in
  match unvectorizableCall with
  | Some true =>
      reportVectorizationFailure
        "library call cannot be vectorized. Try compiling with -fno-math-errno, -ffast-math, or similar flags"
        "CantVectorizeLibcall" ;;
      ret false
  | Some false =>
      reportVectorizationFailure "call instruction cannot be vectorized"
        "CantVectorizeLibcall" ;;
      ret false
  | None =>
      pse <- gets PSEst ;;
      if match CI with
         | Some ci =>
             negb (scalarOpdsInvariant (getVectorIntrinsicIDForCall ci) pse 0
                     (argOperands ci))
         | None => false
         end
      then
        reportVectorizationFailure "intrinsic instruction cannot be vectorized"
          "CantVectorizeIntrinsic" ;;
        ret false
      else if (negb (isValidElementType E (getType I))
               && negb (isVoidTy (getType I)))
              || match iclass I with ExtractElementInst => true | _ => false end
      then
        reportVectorizationFailure "instruction return type cannot be vectorized"
          "CantVectorizeInstructionReturnType" ;;
        ret false
      else
        let afterStore : M St bool :=
          allowed <- gets AllowedExit ;;
          if hasOutsideLoopUser I allowed
          then
            alwaysTrue <- gets (fun s => isAlwaysTrue E (PSEst s)) ;;
            if alwaysTrue
            then
              modify (fun s => set_AllowedExit ({[ival I]} ∪ AllowedExit s) s) ;;
              ret true
            else
              reportVectorizationFailure "value cannot be used outside the loop"
                "ValueUsedOutsideLoop" ;;
              ret false
          else ret true in
        match iclass I with
        | StoreInst _ T =>
            if negb (isValidElementType E T)
            then
              reportVectorizationFailure "store instruction cannot be vectorized"
                "CantVectorizeStore" ;;
              ret false
            else afterStore
        | _ =>
            when (isFloatingPointTy (getType I)
                  && (bool_decide (is_Some CI) || isBinaryOp I)
                  && negb (isFast I))
              (modify (fun s =>
                 let h := Hints s in
                 set_Hints {| Width := Width h; Interleave := Interleave h;
                              Force := Force h; IsVectorized := IsVectorized h;
                              PotentiallyUnsafe := true |} s)) ;;
            afterStore
        end
  end.

(** One iteration of the loop over the instructions of a block. *)
Definition instrStep (BB : BasicBlock) (I : Instruction) : M St bool :=
  if isPHI I
  then
    let PhiTy := getType I in
    if negb (isIntegerTy PhiTy) && negb (isFloatingPointTy PhiTy)
       && negb (isPointerTy PhiTy)
    then CFGNotUnderstood ;; ret false
    else if negb (Pos.eqb (bptr BB) (getHeader TheLoop))
    then ret true
    else headerPhi I
  else nonPhiInstr I.

Fixpoint scanInstrs (BB : BasicBlock) (l : list Instruction) : M St bool :=
  match l with
  | [] => ret true
  | i :: l' =>
      ok <- instrStep BB i ;;
      if ok then scanInstrs BB l' else ret false
  end.

Fixpoint scanBlocks (bs : list BasicBlock) : M St bool :=
  match bs with
  | [] => ret true
  | BB :: bs' =>
      ok <- scanInstrs BB (insts BB) ;;
      if ok then scanBlocks bs' else ret false
  end.

Definition canVectorizeInstrs : M St bool :=
  modify (set_HasFunNoNaNAttr (String.eqb (no_nans_fp_math E) "true")) ;;
  ok <- scanBlocks (blocks TheLoop) ;;
  if negb ok then ret false
  else
    s <- gets (fun s => s) ;;
    let failure :=
      match PrimaryInduction s with
      | None =>
          if bool_decide (Inductions s = ∅)
          then Some ("loop induction variable could not be identified",
                     "NoInductionVariable")
          else if bool_decide (WidestIndTy s = None)
          then Some ("integer loop induction variable could not be identified",
                     "NoIntegerInductionVariable")
          else None
      | Some _ => None
      end in
    match failure with
    | Some (msg, tag) => reportVectorizationFailure msg tag ;; ret false
    | None =>
        modify (fun s =>
          match PrimaryInduction s with
          | Some P =>
              if negb (bool_decide (WidestIndTy s = Some (getType P)))
              then set_PrimaryInduction None s
              else s
          | None => s
          end) ;;
        ret true
    end.

(** *** Memory *)

Definition canVectorizeMemory : M St bool :=
  let lai := GetLAA E TheLoop in
  modify (set_LAI (Some lai)) ;;
  match LAI_getReport lai with
  | Some LAR =>
      PassName <- gets (fun s => vectorizeAnalysisPassName (Hints s)) ;;
      emit (mkRemark RemarkAnalysis PassName (remarkName LAR)
              ("loop not vectorized: " ++ remarkMsg LAR)%string)
  | None => ret tt
  end ;;
  if negb (LAI_canVectorizeMemory lai) then ret false
  else if hasDependenceInvolvingLoopInvariantAddress lai
  then
    reportVectorizationFailure
      "write to a loop invariant address could not be vectorized"
      "CantVectorizeStoreToLoopInvariantAddress" ;;
    ret false
  else
    modify (fun s =>
      set_Requirements
        (addRuntimePointerChecks (getNumRuntimePointerChecks lai)
           (Requirements s)) s) ;;
    modify (fun s => set_PSEst (addPredicate E (PSEst s) (LAI_getPSE lai)) s) ;;
    ret true.

(** *** If-conversion *)

Definition hasTrappingOperand (I : Instruction) : bool :=
  existsb (fun Operand => match asConstant E Operand with
                          | Some C => canTrap C
                          | None => false
                          end) (operands I).

(** One iteration of the loop of [blockCanBePredicated]: [true] stands for
    going on with the next instruction, [false] for [return false]. *)
Definition predicateInstr (SafePtrs : gset ValuePtr) (I : Instruction)
  : M St bool :=
  if hasTrappingOperand I then ret false
  else
    let writeAndThrow : M St bool :=
      if mayWriteToMemory I
      then
        match iclass I with
        | StoreInst _ _ =>
            modify (fun s => set_MaskedOp ({[ival I]} ∪ MaskedOp s) s) ;;
            ret true
        | _ => ret false
        end
      else if mayThrow I then ret false
      else ret true in
    if mayReadFromMemory I
    then
      match iclass I with
      | LoadInst p =>
          if negb (bool_decide (p ∈ SafePtrs))
          then
            when (negb (isAnnotatedParallel TheLoop))
              (modify (fun s => set_MaskedOp ({[ival I]} ∪ MaskedOp s) s)) ;;
            ret true
          else writeAndThrow
      | _ => ret false
      end
    else writeAndThrow.

Fixpoint predicateInstrs (SafePtrs : gset ValuePtr) (l : list Instruction)
  : M St bool :=
  match l with
  | [] => ret true
  | i :: l' =>
      ok <- predicateInstr SafePtrs i ;;
      if ok then predicateInstrs SafePtrs l' else ret false
  end.

Definition blockCanBePredicated (BB : BasicBlock) (SafePtrs : gset ValuePtr)
  : M St bool :=
  predicateInstrs SafePtrs (insts BB).

(** The first loop of [canVectorizeWithIfConvert]: the addresses accessed
    in blocks that need no predication. *)
Definition collectSafePointers : gset ValuePtr :=
  fold_left
    (fun Safe BB =>
       if blockNeedsPredication E BB TheLoop then Safe
       else
         fold_left
           (fun Safe I => match getLoadStorePointerOperand I with
                          | Some Ptr => {[Ptr]} ∪ Safe
                          | None => Safe
                          end) (insts BB) Safe)
    (blocks TheLoop) ∅.

Definition NoCFGForSelect : M St unit :=
  reportVectorizationFailure
    "control flow cannot be substituted for a select" "NoCFGForSelect".

(** The second loop of [canVectorizeWithIfConvert]. *)
Fixpoint ifConvertBlocks (SafePointes : gset ValuePtr) (bs : list BasicBlock)
  : M St bool :=
  match bs with
  | [] => ret true
  | BB :: bs' =>
      match getTerminator BB with
      | NotBranch =>
          reportVectorizationFailure "loop contains a switch statement"
            "LoopContainsSwitch" ;;
          ret false
      | _ =>
          if blockNeedsPredication E BB TheLoop
          then
            ok <- blockCanBePredicated BB SafePointes ;;
            if negb ok then NoCFGForSelect ;; ret false
            else ifConvertBlocks SafePointes bs'
          else if negb (Pos.eqb (bptr BB) (getHeader TheLoop))
                  && negb (canIfConvertPHINodes BB)
          then NoCFGForSelect ;; ret false
          else ifConvertBlocks SafePointes bs'
      end
  end.

Definition canVectorizeWithIfConvert : M St bool :=
  if negb (EnableIfConversion (config E))
  then
    reportVectorizationFailure "if-conversion is disabled" "IfConversionDisabled" ;;
    ret false
  else ifConvertBlocks collectSafePointers (blocks TheLoop).

(** *** Control flow *)

Definition canVectorizeLoopCFG (Lp : Loop) : M St bool :=
  check (negb (bool_decide (is_Some (getLoopPreheader Lp))))
    CFGNotUnderstood true (fun Result =>
  check (negb (getNumBackEdges Lp =? 1))
    CFGNotUnderstood Result (fun Result =>
  check (negb (bool_decide (is_Some (getExitingBlock Lp))))
    CFGNotUnderstood Result (fun Result =>
  check (negb (bool_decide (getExitingBlock Lp = getLoopLatch Lp)))
    CFGNotUnderstood Result (fun Result =>
  ret Result)))).

Fixpoint canVectorizeLoopNestCFG (Lp : Loop) {struct Lp} : M St bool :=
  ok <- canVectorizeLoopCFG Lp ;;
  check (negb ok) (ret tt) true (fun Result =>
  (fix subLoops (ls : list Loop) (Result : bool) {struct ls} : M St bool :=
     match ls with
     | [] => ret Result
     | SubLp :: ls' =>
         ok <- canVectorizeLoopNestCFG SubLp ;;
         check (negb ok) (ret tt) Result (fun Result => subLoops ls' Result)
     end) (getSubLoops Lp) Result).

(** *** The verdict *)

Definition canVectorize : M St bool :=
  ok <- canVectorizeLoopNestCFG TheLoop ;;
  check (negb ok) (ret tt) true (fun Result =>
  if negb (Loop_empty TheLoop)
  then
    ok <- canVectorizeOuterLoop ;;
    if negb ok
    then
      reportVectorizationFailure "unsupported outer loop" "UnsupportedOuterLoop" ;;
      ret false
    else ret Result
  else
    let NumBlocks := getNumBlocks TheLoop in
    ok <- (if negb (NumBlocks =? 1) then canVectorizeWithIfConvert else ret true) ;;
    check (negb ok) (ret tt) Result (fun Result =>
    ok <- canVectorizeInstrs ;;
    check (negb ok) (ret tt) Result (fun Result =>
    ok <- canVectorizeMemory ;;
    check (negb ok) (ret tt) Result (fun Result =>
    s <- gets (fun s => s) ;;
    let SCEVThreshold :=
      if getForce (Hints s) =? FK_Enabled
      then PragmaVectorizeSCEVCheckThreshold (config E)
      else VectorizeSCEVCheckThreshold (config E) in
    check (SCEVThreshold <? getComplexity E (PSEst s))
      (reportVectorizationFailure
         "Too many SCEV assumptions need to be made and checked at runtime"
         "TooManySCEVRunTimeChecks")
      Result (fun Result =>
    ret Result))))).

(** *** Folding the tail *)

Definition hasUserOutside (AE : ValuePtr) : bool :=
  existsb (fun UI => negb (Loop_contains TheLoop UI)) (users E AE).

Fixpoint foldTailBlocks (bs : list BasicBlock) : M St bool :=
  match bs with
  | [] => ret true
  | BB :: bs' =>
      ok <- blockCanBePredicated BB ∅ ;;
      if negb ok
      then
        reportVectorizationFailure
          "control flow cannot be substituted for a select" "NoCFGForSelect" ;;
        ret false
      else foldTailBlocks bs'
  end.

Definition canFoldTailByMasking : M St bool :=
  s <- gets (fun s => s) ;;
  match PrimaryInduction s with
  | None =>
      reportVectorizationFailure
        "Missing a primary induction variable in the loop, which is needed in order to fold tail by masking as required."
        "NoPrimaryInduction" ;;
      ret false
  | Some _ =>
      if negb (bool_decide (Reductions s = ∅))
      then
        reportVectorizationFailure
          "Cannot fold tail by masking in the presence of reductions."
          "ReductionFoldingTailByMasking" ;;
        ret false
      else if existsb hasUserOutside (elements (AllowedExit s))
      then
        reportVectorizationFailure
          "Cannot fold tail by masking in the presence of live outs."
          "LiveOutFoldingTailByMasking" ;;
        ret false
      else foldTailBlocks (blocks TheLoop)
  end.

End Legality.


(** ** Whether the hints allow vectorization *)

From stdpp Require Import pretty.
Local Open Scope Z_scope.

(** [emitRemarkWithHints]: the remark it sends.  A number is printed in
    decimal, the flag as [true]. *)
Definition emitRemarkWithHints (h : LoopVectorizeHints) : Remark :=
  if Value (Force h) =? FK_Disabled
  then mkRemark RemarkMissed LV_NAME "MissedExplicitlyDisabled"
         "loop not vectorized: vectorization is explicitly disabled"
  else
    let width :=
      if negb (Value (Width h) =? 0)
      then String.append ", Vector Width=" (pretty (Value (Width h)))
      else EmptyString in
    let interleave :=
      if negb (Value (Interleave h) =? 0)
      then String.append ", Interleave Count=" (pretty (Value (Interleave h)))
      else EmptyString in
    let details :=
      if Value (Force h) =? FK_Enabled
      then String.append " (Force=true"
             (String.append width (String.append interleave ")"))
      else EmptyString in
    mkRemark RemarkMissed LV_NAME "MissedDetails"
      (String.append "loop not vectorized" details).

(** [allowVectorization] returns its verdict and the remarks it emitted. *)
Definition allowVectorization (h : LoopVectorizeHints)
    (VectorizeOnlyWhenForced : bool) : bool * list Remark :=
  if getForce h =? FK_Disabled
  then (false, [emitRemarkWithHints h])
  else if VectorizeOnlyWhenForced && negb (getForce h =? FK_Enabled)
  then (false, [emitRemarkWithHints h])
  else if getIsVectorized h =? 1
  then (false,
        [mkRemark RemarkAnalysis (vectorizeAnalysisPassName h) "AllDisabled"
           "loop not vectorized: vectorization and interleaving are explicitly disabled, or the loop has already been vectorized"])
  else (true, []).

(** ** Queries on the collected facts *)

Section Queries.
Context {PSE : Type}.

(** A value handed to a query is [Some] instruction, or [None] when it is
    not an instruction at all. *)
Definition isInductionPhi (s : Legality PSE) (V : option Instruction) : bool :=
  match V with
  | Some PN =>
      if isPHI PN then bool_decide (ival PN ∈ dom (Inductions s)) else false
  | None => false
  end.

Definition isCastedInductionVariable (s : Legality PSE)
    (V : option Instruction) : bool :=
  match V with
  | Some Inst => bool_decide (ival Inst ∈ InductionCastsToIgnore s)
  | None => false
  end.

Definition isInductionVariable (s : Legality PSE) (V : option Instruction)
  : bool :=
  isInductionPhi s V || isCastedInductionVariable s V.

(** [isFirstOrderRecurrence(Phi)]: membership in the set of recurrences. *)
Definition isFirstOrderRecurrencePhi (s : Legality PSE) (Phi : Instruction)
  : bool :=
  bool_decide (ival Phi ∈ FirstOrderRecurrences s).

End Queries.

(** ** The two modes of reporting *)

(** The environment with [ORE->allowExtraAnalysis] answering [b]. *)
Definition withExtraAnalysis {PSE : Type} (b : bool) (E : Env PSE) : Env PSE :=
  {| config := config E;
     allowExtraAnalysis := b;
     asConstant := asConstant E;
     users := users E;
     isValidElementType := isValidElementType E;
     getIntPtrType := getIntPtrType E;
     no_nans_fp_math := no_nans_fp_math E;
     TLI := TLI E;
     hasVectorInstrinsicScalarOpd := hasVectorInstrinsicScalarOpd E;
     Loop_isLoopInvariant := Loop_isLoopInvariant E;
     LI_isLoopHeader := LI_isLoopHeader E;
     asCmpInst := asCmpInst E;
     blockNeedsPredication := blockNeedsPredication E;
     isAlwaysTrue := isAlwaysTrue E;
     getComplexity := getComplexity E;
     addPredicate := addPredicate E;
     SE_isLoopInvariant := SE_isLoopInvariant E;
     isReductionPHI := isReductionPHI E;
     isInductionPHI := isInductionPHI E;
     isFirstOrderRecurrence := isFirstOrderRecurrence E;
     GetLAA := GetLAA E |}.
(** * Notions used to state the properties *)

(** A hint entry of loop metadata: the prefixed name and one integer. *)
Definition hintEntry (name : string) (v : Z) : Metadata :=
  MDNode [MDString (Prefix ++ name)%string; ConstantInt 32 v].

(** The operands of a loop identifier; none when the loop has none. *)
Definition loopOperands (L : option LoopID) : list Metadata :=
  match L with Some ops => ops | None => [] end.

(** The entries of a loop identifier carrying a given name. *)
Definition entriesNamed (name : string) (ops : list Metadata) : list Metadata :=
  List.filter (fun e => bool_decide (entryName e = Some name)) ops.

(** An entry that [setAlreadyVectorized] leaves in place: its name starts
    with neither of the two prefixes the source has removed,
    llvm.loop.vectorize. and llvm.loop.interleave., and is not the name of
    the marker.  An entry named llvm.loop.vectorize.enable is not one of
    them. *)
Definition survivingEntry (e : Metadata) : bool :=
  negb (hasRemovePrefix ["llvm.loop.vectorize."; "llvm.loop.interleave."] e)
  && negb (bool_decide (entryName e = Some "llvm.loop.isvectorized")).

(** An unrelated entry in the words of the spec: neither the width hint,
    nor the interleave hint, nor the isvectorized marker. *)
Definition specUnrelatedEntry (e : Metadata) : bool :=
  negb (bool_decide (entryName e = Some "llvm.loop.vectorize.width"))
  && negb (bool_decide (entryName e = Some "llvm.loop.interleave.count"))
  && negb (bool_decide (entryName e = Some "llvm.loop.isvectorized")).

(** A computation moves the state along a relation [R]: whatever state it
    starts in, the state it ends in is related to it. *)
Definition keeps {St A : Type} (R : St -> St -> Prop) (m : M St A) : Prop :=
  forall s, R s (m s).2.

(** The set of allowed exits only grows. *)
Definition AllowedExit_grows {PSE : Type} (s s' : Legality PSE) : Prop :=
  AllowedExit s ⊆ AllowedExit s'.

(** The facts the analysis collects only grow: nothing leaves the allowed
    exits, the classified phis or the masked operations. *)
Definition facts_grow {PSE : Type} (s s' : Legality PSE) : Prop :=
  AllowedExit s ⊆ AllowedExit s'
  /\ dom (Inductions s) ⊆ dom (Inductions s')
  /\ dom (Reductions s) ⊆ dom (Reductions s')
  /\ FirstOrderRecurrences s ⊆ FirstOrderRecurrences s'
  /\ MaskedOp s ⊆ MaskedOp s'.

(** All loops of a nest, the outermost first. *)
Fixpoint loopNest (L : Loop) : list Loop :=
  L :: (fix nests (ls : list Loop) : list Loop :=
          match ls with
          | [] => []
          | SubLp :: ls' => (loopNest SubLp ++ nests ls')%list
          end) (getSubLoops L).

(** A loop whose control flow [canVectorizeLoopCFG] does not understand. *)
Definition cfgNotUnderstood (Lp : Loop) : Prop :=
  getLoopPreheader Lp = None
  \/ getNumBackEdges Lp <> 1
  \/ getExitingBlock Lp = None
  \/ getExitingBlock Lp <> getLoopLatch Lp.

(** A phi has been classified: it is a reduction, an induction or a
    first-order recurrence. *)
Definition classified {PSE : Type} (s : Legality PSE) (Phi : Instruction) : Prop :=
  ival Phi ∈ dom (Reductions s)
  \/ ival Phi ∈ dom (Inductions s)
  \/ ival Phi ∈ FirstOrderRecurrences s.

(** The instructions of a loop, block after block, in the order in which
    [canVectorizeInstrs] scans them. *)
Definition loopInstructions (L : Loop) : list Instruction :=
  concat (map insts (blocks L)).

(** The state in which [canVectorizeInstrs], started in [s], comes to the
    instruction that follows the instructions [l1] in the block [BB], the
    blocks before [BB] being [bs1]: the attribute on NaNs has been read and
    the blocks and the instructions before have been scanned. *)
Definition stateBefore {PSE : Type} (E : Env PSE) (TheLoop : Loop)
    (bs1 : list BasicBlock) (BB : BasicBlock) (l1 : list Instruction)
    (s : Legality PSE) : Legality PSE :=
  (scanInstrs E TheLoop BB l1
     (scanBlocks E TheLoop bs1
        (set_HasFunNoNaNAttr (no_nans_fp_math E =? "true")%string s)).2).2.

(** The three classes of a header phi. *)
Inductive PhiClass : Type :=
| AsReduction (RedDes : RecurrenceDescriptor)
| AsInduction (ID : InductionDescriptor)
| AsFirstOrderRecurrence.

(** Between the states [s] and [s'] the phi at address [v] has been
    recorded in the class [c] and in no other: [s'] has it in the map or
    set of that class, with the descriptor given, and says of it in the
    other two what [s] said. *)
Definition recordedAs {PSE : Type} (s s' : Legality PSE) (v : ValuePtr)
    (c : PhiClass) : Prop :=
  match c with
  | AsReduction RedDes =>
      Reductions s' !! v = Some RedDes
      /\ Inductions s' !! v = Inductions s !! v
      /\ (v ∈ FirstOrderRecurrences s' <-> v ∈ FirstOrderRecurrences s)
  | AsInduction ID =>
      Inductions s' !! v = Some ID
      /\ Reductions s' !! v = Reductions s !! v
      /\ (v ∈ FirstOrderRecurrences s' <-> v ∈ FirstOrderRecurrences s)
  | AsFirstOrderRecurrence =>
      v ∈ FirstOrderRecurrences s'
      /\ Reductions s' !! v = Reductions s !! v
      /\ Inductions s' !! v = Inductions s !! v
  end.

(** The two states say the same of the value [v] in the reductions, the
    inductions and the first-order recurrences. *)
Definition sameAt {PSE : Type} (v : ValuePtr) (s s' : Legality PSE) : Prop :=
  Reductions s' !! v = Reductions s !! v
  /\ Inductions s' !! v = Inductions s !! v
  /\ (v ∈ FirstOrderRecurrences s' <-> v ∈ FirstOrderRecurrences s).

(** What LLVM guarantees of the memory and exception queries: a load reads
    memory, a store writes memory, and neither is reported as throwing
    (only calls and exception-handling instructions are).  A volatile or
    atomic load is also reported as writing memory. *)
Definition wellFormedInst (I : Instruction) : Prop :=
  (isLoad I = true -> mayReadFromMemory I = true /\ mayThrow I = false)
  /\ (isStore I = true -> mayWriteToMemory I = true /\ mayThrow I = false).

(** The instructions [blockCanBePredicated] records in [MaskedOp]: the
    loads from a pointer outside the safe set, unless the loop is annotated
    parallel, and the stores. *)
Definition needsMask (TheLoop : Loop) (SafePtrs : gset ValuePtr)
    (I : Instruction) : bool :=
  match iclass I with
  | LoadInst p =>
      negb (bool_decide (p ∈ SafePtrs)) && negb (isAnnotatedParallel TheLoop)
  | StoreInst _ _ => true
  | _ => false
  end.


(** The verdict of one iteration of [blockCanBePredicated], which does not
    depend on the state. *)
Definition predicable {PSE : Type} (E : Env PSE) (SafePtrs : gset ValuePtr)
    (I : Instruction) : bool :=
  let writeAndThrow :=
    if mayWriteToMemory I then isStore I else negb (mayThrow I) in
  negb (hasTrappingOperand E I)
  && (if mayReadFromMemory I
      then match iclass I with
           | LoadInst p =>
               if negb (bool_decide (p ∈ SafePtrs)) then true else writeAndThrow
           | _ => false
           end
      else writeAndThrow).

(** The hints keep the names and kinds the constructor gave them. *)
Definition hintNames (h : LoopVectorizeHints) : Prop :=
  Name (Width h) = "vectorize.width" /\ Kind (Width h) = HK_WIDTH
  /\ Name (Interleave h) = "interleave.count" /\ Kind (Interleave h) = HK_UNROLL
  /\ Name (Force h) = "vectorize.enable" /\ Kind (Force h) = HK_FORCE
  /\ Name (IsVectorized h) = "isvectorized"
  /\ Kind (IsVectorized h) = HK_ISVECTORIZED.

(** The operands [setAlreadyVectorized] keeps. *)
Definition keepEntry (e : Metadata) : bool :=
  negb (hasRemovePrefix ["llvm.loop.vectorize."; "llvm.loop.interleave."] e)
  && negb (replacedBy [IsVectorizedMD] e).



(** * Notions used to state further properties *)

(** The values a set of hints can hold: the flags within their ranges, the
    width and the interleave count either as initialised or a power of two
    within its bound. *)
Definition hintsInRange (cfg : Config) (InterleaveOnlyWhenForced : bool)
    (h : LoopVectorizeHints) : Prop :=
  (Value (IsVectorized h) = 0 \/ Value (IsVectorized h) = 1)
  /\ (Value (Force h) = FK_Undefined \/ Value (Force h) = FK_Disabled
      \/ Value (Force h) = FK_Enabled)
  /\ (Value (Width h) = VectorizationFactor cfg
      \/ (isPowerOf2_32 (Value (Width h)) = true
          /\ 0 < Value (Width h) <= MaxVectorWidth cfg))
  /\ (Value (Interleave h) = (if InterleaveOnlyWhenForced then 1 else 0)
      \/ (isPowerOf2_32 (Value (Interleave h)) = true
          /\ 0 < Value (Interleave h) <= MaxInterleaveFactor)).

(** What has been found stays found: an induction phi, a first-order
    recurrence, a reduction or a masked operation of the first state is
    one of the second. *)
Definition findings_stay {PSE : Type} (s s' : Legality PSE) : Prop :=
  (forall V, isInductionPhi s V = true -> isInductionPhi s' V = true)
  /\ (forall Phi, isFirstOrderRecurrencePhi s Phi = true ->
                  isFirstOrderRecurrencePhi s' Phi = true)
  /\ (forall v, is_Some (Reductions s !! v) -> is_Some (Reductions s' !! v))
  /\ (forall v, v ∈ MaskedOp s -> v ∈ MaskedOp s').

(** The number of the four checks of [canVectorizeLoopCFG] a loop fails. *)
Definition failedChecks (Lp : Loop) : nat :=
  ((if bool_decide (getLoopPreheader Lp = None) then 1 else 0)
   + (if bool_decide (getNumBackEdges Lp = 1%Z) then 0 else 1)
   + (if bool_decide (getExitingBlock Lp = None) then 1 else 0)
   + (if bool_decide (getExitingBlock Lp = getLoopLatch Lp) then 0 else 1))%nat.

(** The remark for control flow that is not understood, as sent with the
    given hints. *)
Definition CFGNotUnderstoodRemark (h : LoopVectorizeHints) : Remark :=
  mkRemark RemarkAnalysis (vectorizeAnalysisPassName h) "CFGNotUnderstood"
    "loop not vectorized: loop control flow is not understood by vectorizer".

(** The second state differs from the first in the remark log at most. *)
Definition sameButLog {PSE : Type} (s s' : Legality PSE) : Prop :=
  set_ORE (ORE s) s' = s.

(** A fail-fast computation [m0] and a collect-all computation [m1] come to
    the same verdict: when [m0] succeeds they do the same, and when it
    fails [m1] fails. *)
Definition sameVerdict {St : Type} (m0 m1 : M St bool) : Prop :=
  forall s, ((m0 s).1 = true -> m1 s = m0 s)
            /\ ((m0 s).1 = false -> (m1 s).1 = false).


(** A primary induction, if there is one, comes with an induction. *)
Definition primaryIsInduction {PSE : Type} (s : Legality PSE) : Prop :=
  is_Some (PrimaryInduction s) -> Inductions s <> ∅.

(** The invariant above is carried from one state to the other. *)
Definition carries_primary {PSE : Type} (s s' : Legality PSE) : Prop :=
  primaryIsInduction s -> primaryIsInduction s'.

(** What [canVectorizeWithIfConvert] asks of a block: a branch as its
    terminator; of a block that needs predication, that each of its
    instructions can be predicated; of another block, unless it is the
    header, phis that can be if-converted. *)
Definition ifConvertible {PSE : Type} (E : Env PSE) (TheLoop : Loop)
    (SafePtrs : gset ValuePtr) (BB : BasicBlock) : bool :=
  match getTerminator BB with
  | NotBranch => false
  | _ =>
      if blockNeedsPredication E BB TheLoop
      then forallb (predicable E SafePtrs) (insts BB)
      else Pos.eqb (bptr BB) (getHeader TheLoop) || canIfConvertPHINodes E BB
  end.

(** A run that succeeds leaves the remark log alone, and one that fails
    adds one analysis remark to it. *)
Definition oneRemark {PSE : Type} (ok : bool) (s s' : Legality PSE) : Prop :=
  if ok then ORE s' = ORE s
  else exists r, ORE s' = (ORE s ++ [r])%list /\ remarkKind r = RemarkAnalysis.

(** What [canVectorizeOuterLoop] asks of a block of an outer loop: its
    terminator is a branch, and a conditional branch either has a
    condition that is invariant in the outer loop or leads to the header
    of a loop, unless VPlan predication is enabled. *)
Definition outerBlockSupported {PSE : Type} (E : Env PSE) (TheLoop : Loop)
    (BB : BasicBlock) : bool :=
  match getTerminator BB with
  | NotBranch => false
  | BrUncond _ => true
  | BrCond cond succ0 succ1 =>
      EnableVPlanPredication (config E)
      || Loop_isLoopInvariant E TheLoop cond
      || LI_isLoopHeader E succ0
      || LI_isLoopHeader E succ1
  end.

(** The value is recorded as an integer induction. *)
Definition intInductionAt {PSE : Type} (s : Legality PSE) (v : ValuePtr) : Prop :=
  exists ID, Inductions s !! v = Some ID /\ getKind ID = IK_IntInduction.

(** What only the analysis of an inner loop writes is the same in both
    states: the reductions, the first-order recurrences and the
    instructions to sink after them, the masked operations, the memory
    analysis and the attribute on NaNs. *)
Definition innerFindingsSame {PSE : Type} (s s' : Legality PSE) : Prop :=
  Reductions s' = Reductions s
  /\ FirstOrderRecurrences s' = FirstOrderRecurrences s
  /\ SinkAfter s' = SinkAfter s
  /\ MaskedOp s' = MaskedOp s
  /\ LAI s' = LAI s
  /\ HasFunNoNaNAttr s' = HasFunNoNaNAttr s.
(** * Concrete inputs *)

(** Loop metadata asking for width 1 and interleave count 1. *)
Definition md_width1_interleave1 : option LoopID :=
  Some [MDSelf; hintEntry "vectorize.width" 1; hintEntry "interleave.count" 1].

(** The default options, except that [-force-vector-interleave=4] is given. *)
Definition cfg_interleave_forced : Config :=
  {| VectorizationFactor := 0;
     VectorizationInterleave := 4;
     isInterleaveForced := true;
     MaxVectorWidth := 64;
     RuntimeMemoryCheckThreshold := 8;
     PragmaVectorizeMemoryCheckThreshold := 128;
     VectorizeSCEVCheckThreshold := 16;
     PragmaVectorizeSCEVCheckThreshold := 128;
     EnableIfConversion := true;
     EnableVPlanPredication := false |}.

Local Open Scope positive_scope.

(** An environment in which [constants] tells the constants and
    [inductions] the phis recognised as inductions without any assumption,
    no value has users, no block needs predication, no phi is a reduction
    or a recurrence, and the memory analysis has no objection.  A state of
    predicated scalar evolution is the number of predicates assumed. *)
Definition env_with (constants : ValuePtr -> option Constant)
    (inductions : Instruction -> option InductionDescriptor) : Env nat :=
  {| config := defaultConfig;
     allowExtraAnalysis := false;
     asConstant := constants;
     users := fun _ => [];
     isValidElementType :=
       fun t => isIntegerTy t || isFloatingPointTy t || isPointerTy t;
     getIntPtrType := fun _ => IntegerTy 64%Z;
     no_nans_fp_math := "false";
     TLI := None;
     hasVectorInstrinsicScalarOpd := fun _ _ => false;
     Loop_isLoopInvariant := fun _ _ => false;
     LI_isLoopHeader := fun _ => false;
     asCmpInst := fun _ => None;
     blockNeedsPredication := fun _ _ => false;
     isAlwaysTrue := fun n => Nat.eqb n 0;
     getComplexity := Z.of_nat;
     addPredicate := Nat.add;
     SE_isLoopInvariant := fun _ _ _ => true;
     isReductionPHI := fun _ _ => None;
     isInductionPHI := fun Phi _ pse _ => (inductions Phi, pse);
     isFirstOrderRecurrence := fun _ _ m => (false, m);
     GetLAA := fun _ =>
       {| LAI_getReport := None;
          LAI_canVectorizeMemory := true;
          hasDependenceInvolvingLoopInvariantAddress := false;
          getNumRuntimePointerChecks := 0%Z;
          LAI_getPSE := 0%nat |} |}.

Definition env0 : Env nat := env_with (fun _ => None) (fun _ => None).

(** The state of a freshly constructed analysis. *)
Definition st0 : Legality nat :=
  {| PSEst := 0%nat;
     Hints := initialHints defaultConfig false;
     Requirements := mkRequirements 0%Z None;
     Inductions := ∅;
     Reductions := ∅;
     FirstOrderRecurrences := ∅;
     SinkAfter := ∅;
     InductionCastsToIgnore := ∅;
     WidestIndTy := None;
     PrimaryInduction := None;
     AllowedExit := ∅;
     MaskedOp := ∅;
     HasFunNoNaNAttr := false;
     LAI := None;
     ORE := [] |}.

(** An instruction that neither touches memory nor throws. *)
Definition plainInst (v : ValuePtr) (c : InstClass) (t : Ty)
    (ops : list ValuePtr) : Instruction :=
  {| ival := v; iclass := c; getType := t; operands := ops;
     mayReadFromMemory := false; mayWriteToMemory := false;
     mayThrow := false; isBinaryOp := false; isFast := false |}.

(** [%iv = phi i32 [ @c, %preheader ], [ %next, %latch ]] in the header,
    block 1; the preheader is block 7, the latch block 2 and the exit
    block 9.  Value 10 is the incoming constant, value 21 the increment. *)
Definition phi_iv : Instruction :=
  plainInst 20 (PHINode [7; 2]) (IntegerTy 32%Z) [10; 21].

Definition bb_header : BasicBlock :=
  {| bptr := 1;
     insts := [phi_iv; plainInst 23 OtherInst VoidTy []];
     getTerminator := BrUncond 2 |}.

Definition bb_latch : BasicBlock :=
  {| bptr := 2;
     insts := [plainInst 21 OtherInst (IntegerTy 32%Z) [20; 11];
               plainInst 22 OtherInst (IntegerTy 1%Z) [21; 12];
               plainInst 24 OtherInst VoidTy [22]];
     getTerminator := BrCond 22 1 9 |}.

(** A bottom-tested loop of two blocks. *)
Definition loop_two_blocks : Loop :=
  {| loopPtr := 1; getHeader := 1; getLoopPreheader := Some 7;
     getNumBackEdges := 1%Z; getExitingBlock := Some 2;
     getLoopLatch := Some 2; blocks := [bb_header; bb_latch];
     getSubLoops := []; isAnnotatedParallel := false;
     getCanonicalInductionVariable := None |}.

(** The same loop entered through an indirect branch: no preheader. *)
Definition loop_no_preheader : Loop :=
  {| loopPtr := 1; getHeader := 1; getLoopPreheader := None;
     getNumBackEdges := 1%Z; getExitingBlock := Some 2;
     getLoopLatch := Some 2; blocks := [bb_header; bb_latch];
     getSubLoops := []; isAnnotatedParallel := false;
     getCanonicalInductionVariable := None |}.

(** The incoming constant of [phi_iv] is a constant expression that can
    trap, such as a division by the address of a global. *)
Definition env_trapping_constant : Env nat :=
  env_with
    (fun v => if Pos.eqb v 10 then Some (mkConstant true false) else None)
    (fun _ => None).

(** A canonical induction: an integer starting at value 10 with step 1. *)
Definition ID_iv : InductionDescriptor :=
  {| getKind := IK_IntInduction; getStartValue := 10;
     getConstIntStepValue := Some 1%Z; getCastInsts := [];
     ID_hasUnsafeAlgebra := false; ID_getUnsafeAlgebraInst := None |}.

(** Value 10 is the constant zero and [phi_iv] is recognised as the
    induction [ID_iv]. *)
Definition env_induction : Env nat :=
  env_with
    (fun v => if Pos.eqb v 10 then Some (mkConstant false true) else None)
    (fun Phi => if Pos.eqb (ival Phi) 20 then Some ID_iv else None).

(** Loop metadata with the pragma that enables vectorization and an
    unrolling hint. *)
Definition md_enable_unroll2 : option LoopID :=
  Some [MDSelf; hintEntry "vectorize.enable" 1%Z;
        MDNode [MDString "llvm.loop.unroll.count"; ConstantInt 32 2%Z]].

(** Loop metadata with a width hint and an unrolling hint. *)
Definition md_width4_unroll2 : option LoopID :=
  Some [MDSelf; hintEntry "vectorize.width" 4%Z;
        MDNode [MDString "llvm.loop.unroll.count"; ConstantInt 32 2%Z]].



(** [%y = load i32, i32* %q] and [store i32 %y, i32* %r]. *)
Definition plain_load : Instruction :=
  {| ival := 40; iclass := LoadInst 41; getType := IntegerTy 32%Z;
     operands := [41];
     mayReadFromMemory := true; mayWriteToMemory := false;
     mayThrow := false; isBinaryOp := false; isFast := false |}.

Definition plain_store : Instruction :=
  {| ival := 42; iclass := StoreInst 43 (IntegerTy 32%Z); getType := VoidTy;
     operands := [40; 43];
     mayReadFromMemory := false; mayWriteToMemory := true;
     mayThrow := false; isBinaryOp := false; isFast := false |}.

Definition bb_load_store : BasicBlock :=
  {| bptr := 4;
     insts := [plain_load; plain_store; plainInst 44 OtherInst VoidTy []];
     getTerminator := BrUncond 2 |}.

Local Close Scope positive_scope.


(** * Further concrete inputs *)

(** Requirements with nine runtime pointer checks. *)
Definition req_9_checks : LoopVectorizationRequirements := mkRequirements 9 None.

(** A loop around [loop_two_blocks]: its header is block 5 and its latch
    block 6, entered from block 8. *)
Definition loop_outer : Loop :=
  {| loopPtr := 5%positive; getHeader := 5%positive;
     getLoopPreheader := Some 8%positive;
     getNumBackEdges := 1%Z; getExitingBlock := Some 6%positive;
     getLoopLatch := Some 6%positive;
     blocks := [{| bptr := 5%positive; insts := [];
                   getTerminator := BrUncond 1%positive |};
                bb_header; bb_latch;
                {| bptr := 6%positive; insts := [];
                   getTerminator := BrUncond 5%positive |}];
     getSubLoops := [loop_two_blocks]; isAnnotatedParallel := false;
     getCanonicalInductionVariable := None |}.

(** [env0] except that the block 4 needs predication. *)
Definition env_predicated : Env nat :=
  {| config := config env0;
     allowExtraAnalysis := allowExtraAnalysis env0;
     asConstant := asConstant env0;
     users := users env0;
     isValidElementType := isValidElementType env0;
     getIntPtrType := getIntPtrType env0;
     no_nans_fp_math := no_nans_fp_math env0;
     TLI := TLI env0;
     hasVectorInstrinsicScalarOpd := hasVectorInstrinsicScalarOpd env0;
     Loop_isLoopInvariant := Loop_isLoopInvariant env0;
     LI_isLoopHeader := LI_isLoopHeader env0;
     asCmpInst := asCmpInst env0;
     blockNeedsPredication := fun BB _ => Pos.eqb (bptr BB) 4;
     isAlwaysTrue := isAlwaysTrue env0;
     getComplexity := getComplexity env0;
     addPredicate := addPredicate env0;
     SE_isLoopInvariant := SE_isLoopInvariant env0;
     isReductionPHI := isReductionPHI env0;
     isInductionPHI := isInductionPHI env0;
     isFirstOrderRecurrence := isFirstOrderRecurrence env0;
     GetLAA := GetLAA env0 |}.

(** The two-block loop with the block of a load and a store between the
    header and the latch. *)
Definition loop_three_blocks : Loop :=
  {| loopPtr := 1%positive; getHeader := 1%positive;
     getLoopPreheader := Some 7%positive;
     getNumBackEdges := 1%Z; getExitingBlock := Some 2%positive;
     getLoopLatch := Some 2%positive;
     blocks := [bb_header; bb_load_store; bb_latch];
     getSubLoops := []; isAnnotatedParallel := false;
     getCanonicalInductionVariable := None |}.
(** * Properties *)

(** ** The requirements tracker *)

(** C4.  [doesNotMeet] answers true exactly when unsafe algebra was recorded
    and reordering is not allowed, or the number of runtime pointer checks
    exceeds the pragma threshold, or exceeds the normal threshold while
    reordering is not allowed.  The two conditions are tested one after the
    other, each emitting its own remark: the floating-point remark is in the
    log exactly when the first holds, the memory remark exactly when the
    second holds, and when both hold the log is the two remarks in order. *)
Theorem doesNotMeet_iff (cfg : Config)
    (allowReordering : LoopVectorizeHints -> bool)
    (r : LoopVectorizationRequirements) (h : LoopVectorizeHints) :
  ((doesNotMeet cfg allowReordering r h).1 = true <->
   (is_Some (UnsafeAlgebraInst r) /\ allowReordering h = false)
   \/ (PragmaVectorizeMemoryCheckThreshold cfg < NumRuntimePointerChecks r
       \/ (RuntimeMemoryCheckThreshold cfg < NumRuntimePointerChecks r
           /\ allowReordering h = false)))
  /\ (In (CantReorderFPOps (vectorizeAnalysisPassName h))
        (doesNotMeet cfg allowReordering r h).2 <->
      (is_Some (UnsafeAlgebraInst r) /\ allowReordering h = false))
  /\ (In (CantReorderMemOps (vectorizeAnalysisPassName h))
        (doesNotMeet cfg allowReordering r h).2 <->
      (PragmaVectorizeMemoryCheckThreshold cfg < NumRuntimePointerChecks r
       \/ (RuntimeMemoryCheckThreshold cfg < NumRuntimePointerChecks r
           /\ allowReordering h = false)))
  /\ ((is_Some (UnsafeAlgebraInst r) /\ allowReordering h = false) ->
      (PragmaVectorizeMemoryCheckThreshold cfg < NumRuntimePointerChecks r
       \/ (RuntimeMemoryCheckThreshold cfg < NumRuntimePointerChecks r
           /\ allowReordering h = false)) ->
      (doesNotMeet cfg allowReordering r h).2 =
        [CantReorderFPOps (vectorizeAnalysisPassName h);
         CantReorderMemOps (vectorizeAnalysisPassName h)]).
Proof.
  unfold doesNotMeet.
  destruct (bool_decide (is_Some (UnsafeAlgebraInst r))) eqn:Hu;
    [apply bool_decide_eq_true in Hu | apply bool_decide_eq_false in Hu];
    destruct (allowReordering h) eqn:Ha; simpl;
    destruct (Z.ltb_spec (RuntimeMemoryCheckThreshold cfg)
                (NumRuntimePointerChecks r));
    destruct (Z.ltb_spec (PragmaVectorizeMemoryCheckThreshold cfg)
                (NumRuntimePointerChecks r)); simpl;
    unfold CantReorderFPOps, CantReorderMemOps;
    repeat split; intros; try done; try tauto; try lia;
    repeat match goal with
           | H : _ \/ _ |- _ => destruct H
           | H : _ /\ _ |- _ => destruct H
           | H : In _ _ |- _ => simpl in H
           end; try done; try tauto; try lia; try congruence; auto.
Qed.

(** ** Loop hints *)

Lemma substring_all (s : string) : String.substring 0 (String.length s) s = s.
Proof. induction s as [|a s IH]; simpl; [done | by rewrite IH]. Qed.

(** A name with the prefix is the prefix followed by what [substr] keeps. *)
Lemma prefix_substr (p s : string) :
  String.prefix p s = true ->
  s = (p ++ substr_from (String.length p) s)%string.
Proof.
  revert s. induction p as [|a p IH]; intros s Hp.
  - unfold substr_from. simpl. rewrite Nat.sub_0_r. by rewrite substring_all.
  - destruct s as [|b s]; simpl in Hp; [done |].
    destruct (Ascii.ascii_dec a b) as [-> | ]; [| done].
    unfold substr_from in *. simpl String.length. simpl substring.
    change (String b s = String b (p ++ substring (String.length p)
              (String.length s - String.length p) s)%string).
    f_equal. by apply IH.
Qed.

Lemma setHint_names cfg h Nm Arg :
  hintNames h -> hintNames (setHint cfg h Nm Arg).
Proof.
  unfold setHint, hintNames. intros H.
  repeat match goal with
         | |- context [if ?b then _ else _] => destruct b
         | |- context [match ?o with Some _ => _ | None => _ end] => destruct o
         end; simpl; tauto.
Qed.

Lemma hintFromOperand_names cfg h op :
  hintNames h -> hintNames (hintFromOperand cfg h op).
Proof.
  intros H. destruct op as [| | | |ops]; simpl; try done.
  destruct ops as [|op0 Args]; [done |].
  destruct (dyn_cast_MDString op0); [| done].
  destruct Args as [|Arg [|]]; try done. by apply setHint_names.
Qed.

(** An operand only changes the hint it names. *)
Lemma hintFromOperand_other cfg h op :
  hintNames h ->
  (entryName op <> Some "llvm.loop.vectorize.width" ->
   Width (hintFromOperand cfg h op) = Width h)
  /\ (entryName op <> Some "llvm.loop.interleave.count" ->
      Interleave (hintFromOperand cfg h op) = Interleave h)
  /\ (entryName op <> Some "llvm.loop.isvectorized" ->
      IsVectorized (hintFromOperand cfg h op) = IsVectorized h).
Proof.
  intros (Hw & _ & Hi & _ & Hf & _ & Hv & _).
  destruct op as [| | | |ops]; simpl; try done.
  destruct ops as [|op0 Args]; [done |].
  destruct op0 as [|s| | |]; simpl; try done.
  destruct Args as [|Arg [|]]; try done.
  unfold setHint.
  destruct (String.prefix Prefix s) eqn:Hp; simpl; [| done].
  apply prefix_substr in Hp.
  destruct (dyn_extract_ConstantInt Arg) as [c|]; [| done].
  rewrite Hw, Hi, Hf, Hv.
  repeat split; intros Hne;
    repeat match goal with
           | |- context [String.eqb (substr_from ?k s) ?t] =>
               destruct (String.eqb_spec (substr_from k s) t)
           | |- context [if validate ?c ?x ?y then _ else _] =>
               destruct (validate c x y)
           end; simpl; try done;
    exfalso; apply Hne; simpl String.length in Hp;
    match goal with H : substr_from _ _ = _ |- _ => rewrite H in Hp end;
    rewrite Hp; reflexivity.
Qed.

Lemma hintFromOperand_width cfg h :
  hintNames h -> 1 <= MaxVectorWidth cfg ->
  Value (Width (hintFromOperand cfg h (hintEntry "vectorize.width" 1))) = 1.
Proof.
  intros (Hw & Hk & _) Hm. simpl. unfold setHint. simpl.
  rewrite Hw. simpl. unfold validate. rewrite Hk.
  change (1 `mod` 2 ^ 32) with 1.
  replace (1 <=? MaxVectorWidth cfg) with true by (symmetry; lia).
  reflexivity.
Qed.

Lemma hintFromOperand_interleave cfg h :
  hintNames h ->
  Value (Interleave (hintFromOperand cfg h (hintEntry "interleave.count" 1))) = 1.
Proof.
  intros (Hw & _ & Hi & Hk & _). simpl. unfold setHint. simpl.
  rewrite Hw, Hi. simpl. unfold validate. rewrite Hk.
  change (1 `mod` 2 ^ 32) with 1. reflexivity.
Qed.

(** Scanning operands among which every entry of a given name is one and
    the same entry [e0]: the hint ends as [e0] sets it if [e0] occurs, and
    is untouched otherwise.  Stated for the three hints at once. *)
Lemma scan_hints cfg (ops : list Metadata) : forall h,
  hintNames h -> 1 <= MaxVectorWidth cfg ->
  (forall e, In e ops -> entryName e = Some "llvm.loop.vectorize.width" ->
             e = hintEntry "vectorize.width" 1) ->
  (forall e, In e ops -> entryName e = Some "llvm.loop.interleave.count" ->
             e = hintEntry "interleave.count" 1) ->
  (forall e, In e ops -> entryName e <> Some "llvm.loop.isvectorized") ->
  let h' := fold_left (hintFromOperand cfg) ops h in
  hintNames h'
  /\ (Value (Width h') = 1 \/
      (Width h' = Width h /\ ~ In (hintEntry "vectorize.width" 1) ops))
  /\ (Value (Interleave h') = 1 \/
      (Interleave h' = Interleave h
       /\ ~ In (hintEntry "interleave.count" 1) ops))
  /\ IsVectorized h' = IsVectorized h.
Proof.
  induction ops as [|e ops IH]; intros h Hn Hm Hw Hi Hv; simpl.
  - split; [done |]. repeat split; right; split; auto.
  - pose proof (hintFromOperand_names cfg h e Hn) as Hn1.
    pose proof (hintFromOperand_other cfg h e Hn) as (Ow & Oi & Ov).
    specialize (IH (hintFromOperand cfg h e) Hn1 Hm).
    destruct IH as (IHn & IHw & IHi & IHv).
    { intros; apply Hw; simpl; auto. }
    { intros; apply Hi; simpl; auto. }
    { intros; apply Hv; simpl; auto. }
    split; [done |]. split; [| split].
    + destruct IHw as [?|[Heq Hnin]]; [by left |].
      destruct (decide (entryName e = Some "llvm.loop.vectorize.width")) as [He|He].
      * left. rewrite Heq.
        assert (e = hintEntry "vectorize.width" 1) as ->
            by (apply Hw; simpl; auto).
        by apply hintFromOperand_width.
      * right. split; [by rewrite Heq, Ow |].
        intros [Hx|?]; [| done]. apply He. by rewrite Hx.
    + destruct IHi as [?|[Heq Hnin]]; [by left |].
      destruct (decide (entryName e = Some "llvm.loop.interleave.count")) as [He|He].
      * left. rewrite Heq.
        assert (e = hintEntry "interleave.count" 1) as ->
            by (apply Hi; simpl; auto).
        by apply hintFromOperand_interleave.
      * right. split; [by rewrite Heq, Oi |].
        intros [Hx|?]; [| done]. apply He. by rewrite Hx.
    + rewrite IHv. apply Ov. apply Hv. simpl; auto.
Qed.

Lemma initialHints_names cfg b : hintNames (initialHints cfg b).
Proof. unfold hintNames, initialHints. simpl. tauto. Qed.

Lemma overrideInterleave_IsVectorized cfg h :
  IsVectorized (overrideInterleave cfg h) = IsVectorized h.
Proof. unfold overrideInterleave. by destruct (isInterleaveForced cfg). Qed.

Lemma deriveIsVectorized_Width h :
  Width (deriveIsVectorized h) = Width h
  /\ Interleave (deriveIsVectorized h) = Interleave h.
Proof. unfold deriveIsVectorized. by destruct (negb _). Qed.

(** C7, as the code has it.  When the metadata did not set the
    already-vectorized hint to 1, the constructor sets it to 1 if the width
    and the interleave count are both 1 and to 0 otherwise, the interleave
    count being the one forced on the command line when there is one.  So
    with metadata whose only width entry is width=1, whose only interleave
    entry is interleave=1 and which has no isvectorized entry,
    [getIsVectorized] reports 1 provided the interleave count is not forced
    or is forced to 1. *)
Theorem newHints_isVectorized (cfg : Config) (L : option LoopID) (b : bool) :
  (Value (IsVectorized (getHintsFromMetadata cfg (initialHints cfg b) L)) <> 1 ->
   getIsVectorized (newLoopVectorizeHints cfg L b) =
     if (getWidth (newLoopVectorizeHints cfg L b) =? 1)
        && (getInterleave (newLoopVectorizeHints cfg L b) =? 1)
     then 1 else 0)
  /\ (forall op0 ops,
        L = Some (op0 :: ops) ->
        1 <= MaxVectorWidth cfg ->
        In (hintEntry "vectorize.width" 1) ops ->
        In (hintEntry "interleave.count" 1) ops ->
        (forall e, In e ops ->
                   entryName e = Some "llvm.loop.vectorize.width" ->
                   e = hintEntry "vectorize.width" 1) ->
        (forall e, In e ops ->
                   entryName e = Some "llvm.loop.interleave.count" ->
                   e = hintEntry "interleave.count" 1) ->
        (forall e, In e ops ->
                   entryName e <> Some "llvm.loop.isvectorized") ->
        isInterleaveForced cfg = false \/ VectorizationInterleave cfg = 1 ->
        getIsVectorized (newLoopVectorizeHints cfg L b) = 1).
Proof.
  split.
  - intros Hne. unfold newLoopVectorizeHints, getIsVectorized, getWidth,
      getInterleave.
    set (h := overrideInterleave cfg _).
    assert (Value (IsVectorized h) <> 1) as Hh
        by (subst h; by rewrite overrideInterleave_IsVectorized).
    destruct (deriveIsVectorized_Width h) as [-> ->].
    unfold deriveIsVectorized.
    destruct (Z.eqb_spec (Value (IsVectorized h)) 1); [done |]. reflexivity.
  - intros op0 ops -> Hm Hw Hi Hw' Hi' Hv Hforce.
    unfold newLoopVectorizeHints, getHintsFromMetadata. simpl skipn.
    destruct (scan_hints cfg ops (initialHints cfg b)
                (initialHints_names cfg b) Hm Hw' Hi' Hv)
      as (_ & Sw & Si & Sv).
    destruct Sw as [Sw|[_ ?]]; [| done].
    destruct Si as [Si|[_ ?]]; [| done].
    set (h := fold_left _ _ _) in *.
    unfold getIsVectorized, deriveIsVectorized, overrideInterleave.
    destruct Hforce as [-> |  Hone].
    + rewrite Sw, Si, Sv. reflexivity.
    + destruct (isInterleaveForced cfg); simpl;
        rewrite ?Hone, ?Sw, ?Si, Sv; reflexivity.
Qed.

(** The scenario of C7 at the default options. *)
Lemma newHints_isVectorized_witness :
  getIsVectorized (newLoopVectorizeHints defaultConfig md_width1_interleave1 false)
  = 1.
Proof.
  refine (proj2 (newHints_isVectorized defaultConfig md_width1_interleave1 false)
            MDSelf _ eq_refl _ _ _ _ _ _ _).
  - vm_compute. discriminate.
  - simpl. auto.
  - simpl. auto.
  - intros e [<- | [<- | []]]; [reflexivity | discriminate].
  - intros e [<- | [<- | []]]; [discriminate | reflexivity].
  - intros e [<- | [<- | []]]; discriminate.
  - left. reflexivity.
Defined.

(** C7 as stated fails: with the interleave count forced to 4 on the command
    line, metadata with width=1, interleave=1 and no isvectorized entry
    leaves the loop not marked as vectorized. *)
Lemma newHints_forced_interleave_counterexample :
  loopOperands md_width1_interleave1 =
    [MDSelf; hintEntry "vectorize.width" 1; hintEntry "interleave.count" 1]
  /\ entriesNamed "llvm.loop.isvectorized" (loopOperands md_width1_interleave1) = []
  /\ getIsVectorized
       (newLoopVectorizeHints cfg_interleave_forced md_width1_interleave1 false)
     = 0.
Proof. repeat split. Qed.

(** ** Marking a loop as vectorized *)

Lemma replacedBy_isvectorized e :
  replacedBy [IsVectorizedMD] e
  = bool_decide (entryName e = Some "llvm.loop.isvectorized").
Proof.
  unfold replacedBy. destruct (entryName e) as [s|].
  - cbn [existsb entryName IsVectorizedMD]. rewrite orb_false_r.
    destruct (String.eqb_spec s "llvm.loop.isvectorized").
    + symmetry. apply bool_decide_eq_true_2. congruence.
    + symmetry. apply bool_decide_eq_false_2. congruence.
  - symmetry. by apply bool_decide_eq_false_2.
Qed.

Lemma keepEntry_surviving e : keepEntry e = survivingEntry e.
Proof. unfold keepEntry, survivingEntry. by rewrite replacedBy_isvectorized. Qed.

Lemma filter_filter_same {A} (p : A -> bool) (l : list A) :
  List.filter p (List.filter p l) = List.filter p l.
Proof.
  induction l as [|a l IH]; simpl; [done |].
  destruct (p a) eqn:Hp; simpl; rewrite ?Hp, IH; done.
Qed.

Lemma setAlreadyVectorized_operands h L :
  (setAlreadyVectorized (h, L)).2 =
  Some (MDSelf :: List.filter keepEntry (skipn 1 (loopOperands L))
          ++ [IsVectorizedMD])%list.
Proof.
  unfold setAlreadyVectorized, makePostTransformationMetadata. simpl.
  destruct L; reflexivity.
Qed.

Lemma entriesNamed_kept (l : list Metadata) :
  entriesNamed "llvm.loop.isvectorized" (List.filter keepEntry l) = [].
Proof.
  unfold entriesNamed. induction l as [|a l IH]; simpl; [done |].
  destruct (keepEntry a) eqn:Hk; simpl; [| done].
  rewrite IH. unfold keepEntry in Hk. rewrite replacedBy_isvectorized in Hk.
  apply andb_true_iff in Hk as [_ Hk]. apply negb_true_iff in Hk.
  by rewrite Hk.
Qed.

(** C8, as the code has it.  [setAlreadyVectorized] is idempotent: a
    second call changes neither the hints nor the loop metadata, and after
    each call the cached flag is 1.  After two calls the metadata is the
    reference to itself, then the entries of the original metadata, in
    their order, whose name starts with neither llvm.loop.vectorize. nor
    llvm.loop.interleave. and is not that of the marker, then the marker
    isvectorized=1.  So it has exactly one entry named isvectorized and no
    entry under either prefix: the width and the interleave entries are
    gone, and so is any other entry under them, such as
    llvm.loop.vectorize.enable; every entry outside the two prefixes other
    than an old marker is kept. *)
Theorem setAlreadyVectorized_idempotent (h : LoopVectorizeHints)
    (L : option LoopID) :
  getIsVectorized (setAlreadyVectorized (h, L)).1 = 1
  /\ getIsVectorized (setAlreadyVectorized (setAlreadyVectorized (h, L))).1 = 1
  /\ setAlreadyVectorized (setAlreadyVectorized (h, L))
     = setAlreadyVectorized (h, L)
  /\ entriesNamed "llvm.loop.isvectorized"
       (loopOperands (setAlreadyVectorized (setAlreadyVectorized (h, L))).2)
     = [IsVectorizedMD]
  /\ Forall (fun e => hasRemovePrefix
                        ["llvm.loop.vectorize."; "llvm.loop.interleave."] e
                      = false)
       (loopOperands (setAlreadyVectorized (setAlreadyVectorized (h, L))).2)
  /\ List.filter survivingEntry
       (skipn 1 (loopOperands
                   (setAlreadyVectorized (setAlreadyVectorized (h, L))).2))
     = List.filter survivingEntry (skipn 1 (loopOperands L))
  /\ loopOperands (setAlreadyVectorized (setAlreadyVectorized (h, L))).2
     = (MDSelf :: List.filter survivingEntry (skipn 1 (loopOperands L))
          ++ [IsVectorizedMD])%list
  /\ (forall e,
        In e (loopOperands
                (setAlreadyVectorized (setAlreadyVectorized (h, L))).2) ->
        entryName e <> Some "llvm.loop.vectorize.width"
        /\ entryName e <> Some "llvm.loop.interleave.count"
        /\ entryName e <> Some "llvm.loop.vectorize.enable")
  /\ (forall e,
        In e (skipn 1 (loopOperands L)) ->
        hasRemovePrefix ["llvm.loop.vectorize."; "llvm.loop.interleave."] e
        = false ->
        entryName e <> Some "llvm.loop.isvectorized" ->
        In e (loopOperands
                (setAlreadyVectorized (setAlreadyVectorized (h, L))).2)).
Proof.
  assert (setAlreadyVectorized (setAlreadyVectorized (h, L))
          = setAlreadyVectorized (h, L)) as Hidem.
  { destruct (setAlreadyVectorized (h, L)) as [h1 L1] eqn:H1.
    pose proof (setAlreadyVectorized_operands h L) as HL1.
    rewrite H1 in HL1. simpl in HL1. subst L1.
    unfold setAlreadyVectorized in H1. injection H1 as <-.
    unfold setAlreadyVectorized at 1. simpl. f_equal.
    unfold makePostTransformationMetadata. simpl skipn.
    change (fun op => negb (hasRemovePrefix
              [(Prefix ++ "vectorize.")%string; (Prefix ++ "interleave.")%string] op)
              && negb (replacedBy [IsVectorizedMD] op)) with keepEntry.
    rewrite skipn_O, List.filter_app, filter_filter_same. simpl.
    by rewrite app_nil_r. }
  assert (Forall (fun e => hasRemovePrefix
                             ["llvm.loop.vectorize."; "llvm.loop.interleave."] e
                           = false)
            (MDSelf :: List.filter keepEntry (skipn 1 (loopOperands L))
               ++ [IsVectorizedMD])%list) as Hpre.
  { constructor; [reflexivity |]. apply Forall_app. split.
    + apply List.Forall_forall. intros e He. apply List.filter_In in He as [_ He].
      unfold keepEntry in He. apply andb_true_iff in He as [He _].
      by apply negb_true_iff in He.
    + constructor; [reflexivity | constructor]. }
  rewrite Hidem, setAlreadyVectorized_operands. simpl loopOperands.
  split; [reflexivity |]. split; [reflexivity |]. split; [reflexivity |].
  split; [| split; [| split; [| split; [| split]]]].
  - unfold entriesNamed. simpl. fold (entriesNamed "llvm.loop.isvectorized").
    rewrite List.filter_app.
    change (List.filter _ (List.filter keepEntry ?l))
      with (entriesNamed "llvm.loop.isvectorized" (List.filter keepEntry l)).
    by rewrite entriesNamed_kept.
  - exact Hpre.
  - rewrite skipn_cons, skipn_O, List.filter_app. simpl.
    rewrite app_nil_r.
    rewrite (List.filter_ext _ _ keepEntry_surviving).
    apply filter_filter_same.
  - by rewrite (List.filter_ext _ _ keepEntry_surviving).
  - intros e He. rewrite List.Forall_forall in Hpre. specialize (Hpre e He).
    unfold hasRemovePrefix in Hpre.
    repeat split; intros Hn; rewrite Hn in Hpre; discriminate Hpre.
  - intros e He Hp Hn. right. apply in_or_app. left.
    apply List.filter_In. split; [exact He |].
    rewrite keepEntry_surviving. unfold survivingEntry. rewrite Hp.
    by rewrite bool_decide_eq_false_2.
Qed.

(** C8 as stated fails: an entry that is neither the width hint, nor the
    interleave hint, nor the marker is not always preserved.  The pragma
    llvm.loop.vectorize.enable is under the first prefix the source has
    removed: after [setAlreadyVectorized] it is gone from the metadata,
    and hints read from the new metadata no longer have vectorization
    forced. *)
Lemma setAlreadyVectorized_enable_counterexample :
  In (hintEntry "vectorize.enable" 1) (skipn 1 (loopOperands md_enable_unroll2))
  /\ specUnrelatedEntry (hintEntry "vectorize.enable" 1) = true
  /\ ~ In (hintEntry "vectorize.enable" 1)
         (loopOperands
            (setAlreadyVectorized
               (setAlreadyVectorized
                  (initialHints defaultConfig false, md_enable_unroll2))).2)
  /\ getForce (newLoopVectorizeHints defaultConfig md_enable_unroll2 false)
     = FK_Enabled
  /\ getForce
       (newLoopVectorizeHints defaultConfig
          (setAlreadyVectorized
             (setAlreadyVectorized
                (initialHints defaultConfig false, md_enable_unroll2))).2
          false)
     = FK_Undefined.
Proof.
  split; [simpl; auto |]. split; [reflexivity |].
  split; [| split; reflexivity].
  intros H. vm_compute in H.
  repeat (destruct H as [H | H]; [discriminate H |]). exact H.
Qed.

(** ** Reasoning about computations in the state monad *)

Section Keeps.
Context {St : Type} (R : St -> St -> Prop) `{!PreOrder R}.

Lemma keeps_ret {A} (a : A) : keeps R (ret a).
Proof. intros s. simpl. reflexivity. Qed.

Lemma keeps_bind {A B} (m : M St A) (k : A -> M St B) :
  keeps R m -> (forall a, keeps R (k a)) -> keeps R (bind m k).
Proof.
  intros Hm Hk s. unfold bind. specialize (Hm s).
  destruct (m s) as [a s1]. simpl in Hm.
  etransitivity; [exact Hm | apply Hk].
Qed.

Lemma keeps_modify (f : St -> St) :
  (forall s, R s (f s)) -> keeps R (modify f).
Proof. intros H s. apply H. Qed.

Lemma keeps_gets {A} (f : St -> A) : keeps R (gets f).
Proof. intros s. simpl. reflexivity. Qed.

Lemma keeps_when (b : bool) (m : M St unit) :
  keeps R m -> keeps R (when b m).
Proof. intros H. destruct b; [exact H | apply keeps_ret]. Qed.

End Keeps.

Ltac keeps_step :=
  match goal with
  | |- keeps _ (ret _) => refine (keeps_ret _ _)
  | |- keeps _ (gets _) => refine (keeps_gets _ _)
  | |- keeps _ (bind _ _) => refine (keeps_bind _ _ _ _ _); [| intros ?]
  | |- keeps _ (modify _) => refine (keeps_modify _ _ _); intros ?
  | |- keeps _ (when _ _) => refine (keeps_when _ _ _ _)
  | |- keeps _ (if ?b then _ else _) => destruct b
  | |- keeps _ (match ?x with _ => _ end) => destruct x
  end.

(** Symbolic execution: case analysis on a scrutinee that contains no
    other case analysis, reusing what is already known of it. *)
Ltac destruct_inner :=
  match goal with
  | |- context [match ?x with _ => _ end] =>
      lazymatch x with
      | context [match _ with _ => _ end] => fail
      | _ => destruct x eqn:?
      end
  end.

Ltac mrun :=
  unfold bind, modify, when, gets, ret;
  repeat (simpl;
          first [ match goal with
                  | H : ?x = _ |- context [match ?x with _ => _ end] =>
                      rewrite H
                  end
                | destruct_inner ]).

(** A loop has a property when it follows from the property of its
    sub-loops. *)
Lemma Loop_nest_ind (P : Loop -> Prop) :
  (forall L, Forall P (getSubLoops L) -> P L) -> forall L, P L.
Proof.
  intros H. fix IH 1. intros L. apply H.
  destruct L as [? ? ? ? ? ? ? subs ? ?]. simpl.
  induction subs as [|S subs IHs]; constructor; [apply IH | exact IHs].
Qed.

(** ** The collected facts only grow *)

Section Grow.
Context {PSE : Type} (E : Env PSE) (TheLoop : Loop).

#[local] Instance facts_grow_preorder : PreOrder (@facts_grow PSE).
Proof.
  split.
  - intros s. unfold facts_grow. repeat split; set_solver.
  - intros a b c. unfold facts_grow.
    intros (?&?&?&?&?) (?&?&?&?&?). repeat split; set_solver.
Qed.

Ltac grow_leaf :=
  unfold facts_grow; repeat case_match; simpl;
  rewrite ?dom_insert_L; repeat split; set_solver.

Lemma emit_grows r : keeps facts_grow (@emit PSE r).
Proof. unfold emit. keeps_step. grow_leaf. Qed.

Lemma report_grows msg tag :
  keeps facts_grow (@reportVectorizationFailure PSE msg tag).
Proof.
  unfold reportVectorizationFailure.
  keeps_step; [keeps_step | apply emit_grows].
Qed.

Lemma check_grows bad rep Result k :
  keeps facts_grow rep ->
  (forall b, keeps facts_grow (k b)) ->
  keeps facts_grow (check E bad rep Result k).
Proof. intros Hr Hk. unfold check. repeat keeps_step; auto. Qed.

Ltac grow_step :=
  first [ apply emit_grows
        | apply report_grows
        | apply check_grows; [| intros ?]
        | keeps_step ].

Ltac grows_auto := repeat grow_step; try grow_leaf.

Lemma addInductionPhi_grows Phi ID :
  keeps facts_grow (addInductionPhi E TheLoop Phi ID).
Proof. unfold addInductionPhi. grows_auto. Qed.

Lemma setupOuterLoopInductions_grows :
  keeps facts_grow (setupOuterLoopInductions E TheLoop).
Proof.
  unfold setupOuterLoopInductions.
  generalize (match findBlock TheLoop (getHeader TheLoop) with
              | Some BB => phis BB
              | None => []
              end) as l.
  induction l as [|Phi l IH]; [apply keeps_ret; typeclasses eauto |].
  grows_auto; try apply addInductionPhi_grows; try exact IH.
Qed.

Lemma outerLoopBlocks_grows bs : forall Result k,
  (forall b, keeps facts_grow (k b)) ->
  keeps facts_grow (outerLoopBlocks E TheLoop bs Result k).
Proof.
  induction bs as [|BB bs IH]; intros Result k Hk; simpl; [apply Hk |].
  unfold CFGNotUnderstood.
  apply check_grows; [apply report_grows | intros ?].
  apply check_grows; [apply report_grows | intros ?].
  by apply IH.
Qed.

Lemma canVectorizeOuterLoop_grows :
  keeps facts_grow (canVectorizeOuterLoop E TheLoop).
Proof.
  unfold canVectorizeOuterLoop, CFGNotUnderstood.
  apply outerLoopBlocks_grows. intros ?.
  grows_auto. apply setupOuterLoopInductions_grows.
Qed.

Lemma headerPhi_grows Phi : keeps facts_grow (headerPhi E TheLoop Phi).
Proof.
  unfold headerPhi, CFGNotUnderstood.
  grows_auto; apply addInductionPhi_grows.
Qed.

Lemma nonPhiInstr_grows I : keeps facts_grow (nonPhiInstr E TheLoop I).
Proof. unfold nonPhiInstr. grows_auto. Qed.

Lemma instrStep_grows BB I : keeps facts_grow (instrStep E TheLoop BB I).
Proof.
  unfold instrStep, CFGNotUnderstood.
  grows_auto; [apply headerPhi_grows | apply nonPhiInstr_grows].
Qed.

Lemma scanInstrs_grows BB l : keeps facts_grow (scanInstrs E TheLoop BB l).
Proof.
  induction l as [|i l IH]; simpl; grows_auto;
    [apply instrStep_grows | exact IH].
Qed.

Lemma scanBlocks_grows bs : keeps facts_grow (scanBlocks E TheLoop bs).
Proof.
  induction bs as [|BB bs IH]; simpl; grows_auto;
    [apply scanInstrs_grows | exact IH].
Qed.

Lemma canVectorizeInstrs_grows :
  keeps facts_grow (canVectorizeInstrs E TheLoop).
Proof.
  unfold canVectorizeInstrs. grows_auto. apply scanBlocks_grows.
Qed.

Lemma canVectorizeMemory_grows :
  keeps facts_grow (canVectorizeMemory E TheLoop).
Proof. unfold canVectorizeMemory. grows_auto. Qed.

Lemma predicateInstr_grows Safe I :
  keeps facts_grow (predicateInstr E TheLoop Safe I).
Proof. unfold predicateInstr. grows_auto. Qed.

Lemma blockCanBePredicated_grows BB Safe :
  keeps facts_grow (blockCanBePredicated E TheLoop BB Safe).
Proof.
  unfold blockCanBePredicated.
  induction (insts BB) as [|i l IH]; simpl; grows_auto;
    [apply predicateInstr_grows | exact IH].
Qed.

Lemma ifConvertBlocks_grows Safe bs :
  keeps facts_grow (ifConvertBlocks E TheLoop Safe bs).
Proof.
  induction bs as [|BB bs IH]; simpl; unfold NoCFGForSelect; grows_auto;
    solve [apply blockCanBePredicated_grows | exact IH].
Qed.

Lemma canVectorizeWithIfConvert_grows :
  keeps facts_grow (canVectorizeWithIfConvert E TheLoop).
Proof.
  unfold canVectorizeWithIfConvert. grows_auto. apply ifConvertBlocks_grows.
Qed.

Lemma canVectorizeLoopCFG_grows Lp :
  keeps facts_grow (canVectorizeLoopCFG E Lp).
Proof. unfold canVectorizeLoopCFG, CFGNotUnderstood. grows_auto. Qed.

Lemma canVectorizeLoopNestCFG_grows Lp :
  keeps facts_grow (canVectorizeLoopNestCFG E Lp).
Proof.
  induction Lp as [Lp IH] using Loop_nest_ind.
  destruct Lp as [? ? ? ? ? ? ? subs ? ?]. simpl in IH.
  cbn [canVectorizeLoopNestCFG getSubLoops].
  keeps_step; [apply canVectorizeLoopCFG_grows |].
  apply check_grows; [apply keeps_ret; typeclasses eauto | intros Result].
  revert Result. induction subs as [|S subs IHs]; intros Result.
  - apply keeps_ret; typeclasses eauto.
  - inversion IH; subst.
    keeps_step; [assumption |].
    apply check_grows; [apply keeps_ret; typeclasses eauto | intros ?].
    by apply IHs.
Qed.

Lemma canVectorize_grows : keeps facts_grow (canVectorize E TheLoop).
Proof.
  unfold canVectorize.
  keeps_step; [apply canVectorizeLoopNestCFG_grows |].
  apply check_grows; [apply keeps_ret; typeclasses eauto | intros ?].
  destruct (negb (Loop_empty TheLoop)).
  - grows_auto. apply canVectorizeOuterLoop_grows.
  - grows_auto;
      solve [apply canVectorizeWithIfConvert_grows
            | apply canVectorizeInstrs_grows
            | apply canVectorizeMemory_grows].
Qed.

Lemma foldTailBlocks_grows bs : keeps facts_grow (foldTailBlocks E TheLoop bs).
Proof.
  induction bs as [|BB bs IH]; simpl; grows_auto;
    solve [apply blockCanBePredicated_grows | exact IH].
Qed.

Lemma canFoldTailByMasking_grows :
  keeps facts_grow (canFoldTailByMasking E TheLoop).
Proof.
  unfold canFoldTailByMasking. grows_auto. apply foldTailBlocks_grows.
Qed.

End Grow.

(** C9.  No operation of the analysis removes an element from
    [AllowedExit]: from whatever state it is run, each operation ends in a
    state whose set of allowed exits contains the one it started with. *)
Theorem AllowedExit_monotone {PSE : Type} (E : Env PSE) (TheLoop : Loop) :
  (forall Phi ID, keeps AllowedExit_grows (addInductionPhi E TheLoop Phi ID))
  /\ (forall Phi, keeps AllowedExit_grows (headerPhi E TheLoop Phi))
  /\ (forall BB I, keeps AllowedExit_grows (instrStep E TheLoop BB I))
  /\ keeps AllowedExit_grows (canVectorizeInstrs E TheLoop)
  /\ keeps AllowedExit_grows (setupOuterLoopInductions E TheLoop)
  /\ keeps AllowedExit_grows (canVectorizeOuterLoop E TheLoop)
  /\ (forall BB Safe,
        keeps AllowedExit_grows (blockCanBePredicated E TheLoop BB Safe))
  /\ keeps AllowedExit_grows (canVectorizeWithIfConvert E TheLoop)
  /\ keeps AllowedExit_grows (canVectorizeMemory E TheLoop)
  /\ (forall Lp, keeps AllowedExit_grows (canVectorizeLoopNestCFG E Lp))
  /\ keeps AllowedExit_grows (canVectorize E TheLoop)
  /\ keeps AllowedExit_grows (canFoldTailByMasking E TheLoop).
Proof.
  assert (forall A (m : M (Legality PSE) A),
             keeps facts_grow m -> keeps AllowedExit_grows m) as weaken.
  { intros A m H s. exact (proj1 (H s)). }
  repeat split; intros; apply weaken.
  - apply addInductionPhi_grows.
  - apply headerPhi_grows.
  - apply instrStep_grows.
  - apply canVectorizeInstrs_grows.
  - apply setupOuterLoopInductions_grows.
  - apply canVectorizeOuterLoop_grows.
  - apply blockCanBePredicated_grows.
  - apply canVectorizeWithIfConvert_grows.
  - apply canVectorizeMemory_grows.
  - apply canVectorizeLoopNestCFG_grows.
  - apply canVectorize_grows.
  - apply canFoldTailByMasking_grows.
Qed.

(** ** Inductions and the allowed exits *)

Lemma addInductionPhi_AllowedExit {PSE : Type} (E : Env PSE) (TheLoop : Loop)
    (Phi : Instruction) (ID : InductionDescriptor) (s : Legality PSE) :
  AllowedExit (addInductionPhi E TheLoop Phi ID s).2 =
    if isAlwaysTrue E (PSEst s)
    then match getIncomingValueForBlock Phi (getLoopLatch TheLoop) with
         | Some V => {[V]} ∪ ({[ival Phi]} ∪ AllowedExit s)
         | None => {[ival Phi]} ∪ AllowedExit s
         end
    else AllowedExit s.
Proof.
  unfold addInductionPhi, bind, modify, when, gets, ret.
  unfold addInductionPhi. mrun; reflexivity.
Qed.

(** C10.  For a phi classified as an induction whose value coming in from
    the latch is [V]: if the union predicate is trivially true when
    [addInductionPhi] runs, the phi and [V] are inserted into [AllowedExit];
    otherwise [AllowedExit] is left as it was.  So a phi, or an increment,
    that was not allowed before is allowed afterwards exactly when the
    predicate is trivially true. *)
Theorem addInductionPhi_AllowedExit_iff {PSE : Type} (E : Env PSE)
    (TheLoop : Loop) (Phi : Instruction) (ID : InductionDescriptor)
    (s : Legality PSE) (V : ValuePtr) :
  getIncomingValueForBlock Phi (getLoopLatch TheLoop) = Some V ->
  (isAlwaysTrue E (PSEst s) = true ->
   AllowedExit (addInductionPhi E TheLoop Phi ID s).2
   = {[ival Phi; V]} ∪ AllowedExit s)
  /\ (isAlwaysTrue E (PSEst s) = false ->
      AllowedExit (addInductionPhi E TheLoop Phi ID s).2 = AllowedExit s)
  /\ (ival Phi ∉ AllowedExit s ->
      (ival Phi ∈ AllowedExit (addInductionPhi E TheLoop Phi ID s).2
       <-> isAlwaysTrue E (PSEst s) = true))
  /\ (V ∉ AllowedExit s ->
      (V ∈ AllowedExit (addInductionPhi E TheLoop Phi ID s).2
       <-> isAlwaysTrue E (PSEst s) = true)).
Proof.
  intros HV. rewrite addInductionPhi_AllowedExit, HV.
  destruct (isAlwaysTrue E (PSEst s)); repeat split; try done;
    set_solver.
Qed.

(** ** The shape of the control flow *)

Section CFG.
Context {PSE : Type} (E : Env PSE).

(** A failed check, or a verdict that is already false, ends in false as
    soon as the rest of the function keeps a false verdict false. *)
Lemma check_false bad rep Result (k : bool -> M (Legality PSE) bool) s :
  (forall s', (k false s').1 = false) ->
  bad = true \/ Result = false ->
  (check E bad rep Result k s).1 = false.
Proof.
  intros Hk Hor. unfold check, bind, ret.
  destruct bad.
  - destruct (rep s) as [u s1]. destruct (allowExtraAnalysis E); [apply Hk | done].
  - destruct Hor as [? | ->]; [done | apply Hk].
Qed.

Lemma check_any bad rep Result (k : bool -> M (Legality PSE) bool) s :
  (forall R s', (k R s').1 = false) ->
  (check E bad rep Result k s).1 = false.
Proof.
  intros Hk. unfold check, bind, ret.
  destruct bad; [| apply Hk].
  destruct (rep s) as [u s1]. destruct (allowExtraAnalysis E); [apply Hk | done].
Qed.

Lemma canVectorizeLoopCFG_bad Lp s :
  cfgNotUnderstood Lp -> (canVectorizeLoopCFG E Lp s).1 = false.
Proof.
  intros Hbad. unfold canVectorizeLoopCFG.
  assert (forall s', (ret (St := Legality PSE) false s').1 = false) as K4 by done.
  set (b4 := negb (bool_decide (getExitingBlock Lp = getLoopLatch Lp))).
  set (b3 := negb (bool_decide (is_Some (getExitingBlock Lp)))).
  set (b2 := negb (getNumBackEdges Lp =? 1)).
  set (b1 := negb (bool_decide (is_Some (getLoopPreheader Lp)))).
  assert (b1 = true \/ b2 = true \/ b3 = true \/ b4 = true) as Hb.
  { destruct Hbad as [H|[H|[H|H]]].
    - left. subst b1. rewrite bool_decide_eq_false_2; [done |].
      rewrite H. by intros [? ?].
    - right; left. subst b2. apply negb_true_iff. lia.
    - right; right; left. subst b3. rewrite bool_decide_eq_false_2; [done |].
      rewrite H. by intros [? ?].
    - right; right; right. subst b4. by rewrite bool_decide_eq_false_2. }
  clearbody b1 b2 b3 b4.
  assert (forall R s', R = false \/ b4 = true ->
            (check E b4 CFGNotUnderstood R (fun Result => ret Result) s').1 = false)
    as C4.
  { intros R s' [-> | ->]; apply check_false; auto. }
  assert (forall R s', R = false \/ b3 = true \/ b4 = true ->
            (check E b3 CFGNotUnderstood R (fun Result =>
             check E b4 CFGNotUnderstood Result (fun Result => ret Result)) s').1
            = false) as C3.
  { intros R s' [-> | [-> | ->]].
    - apply check_false; auto.
    - apply check_false; auto.
    - apply check_any; auto. }
  assert (forall R s', R = false \/ b2 = true \/ b3 = true \/ b4 = true ->
            (check E b2 CFGNotUnderstood R (fun Result =>
             check E b3 CFGNotUnderstood Result (fun Result =>
             check E b4 CFGNotUnderstood Result (fun Result => ret Result))) s').1
            = false) as C2.
  { intros R s' [-> | [-> | H]].
    - apply check_false; auto.
    - apply check_false; auto.
    - apply check_any; auto. }
  destruct Hb as [-> | H].
  - apply check_false; auto.
  - apply check_any; auto.
Qed.

Lemma canVectorizeLoopNestCFG_bad L : forall Lp,
  In Lp (loopNest L) -> cfgNotUnderstood Lp ->
  forall s, (canVectorizeLoopNestCFG E L s).1 = false.
Proof.
  induction L as [L IH] using Loop_nest_ind. intros Lp Hin Hbad s.
  destruct L as [lp hd ph nb ex la bs subs par civ]. simpl in IH.
  cbn [canVectorizeLoopNestCFG getSubLoops].
  set (F := fix subLoops (ls : list Loop) (Result : bool) {struct ls}
              : M (Legality PSE) bool :=
              match ls with
              | [] => ret Result
              | SubLp :: ls' =>
                  ok <- canVectorizeLoopNestCFG E SubLp ;;
                  check E (negb ok) (ret tt) Result
                    (fun Result => subLoops ls' Result)
              end).
  assert (forall ls s', (F ls false s').1 = false) as HF0.
  { induction ls as [|S ls IHls]; intros s'; [done |].
    simpl. unfold bind at 1. destruct (canVectorizeLoopNestCFG E S s') as [ok s1].
    apply check_false; auto. }
  simpl in Hin. destruct Hin as [<- | Hin].
  - unfold bind at 1.
    pose proof (canVectorizeLoopCFG_bad
                  (mkLoop lp hd ph nb ex la bs subs par civ) s Hbad) as Hc.
    destruct (canVectorizeLoopCFG E _ s) as [ok s1]. simpl in Hc. subst ok.
    apply check_false; auto.
  - unfold bind at 1. destruct (canVectorizeLoopCFG E _ s) as [ok s1].
    apply check_any. intros R s'. clear ok s1 s.
    revert R s'. induction subs as [|S subs IHsubs]; intros R s'; [done |].
    inversion IH as [|? ? HS Hsubs]; subst.
    simpl in Hin. apply in_app_or in Hin as [Hin|Hin].
    + simpl. unfold bind at 1.
      pose proof (HS Lp Hin Hbad s') as Hc.
      destruct (canVectorizeLoopNestCFG E S s') as [ok s1]. simpl in Hc. subst ok.
      apply check_false; auto.
    + simpl. unfold bind at 1.
      destruct (canVectorizeLoopNestCFG E S s') as [ok s1].
      apply check_any. intros R' s''. by apply IHsubs.
Qed.

(** C1.  If the loop under analysis, or a loop nested in it, has no
    preheader, or not exactly one back-edge, or no single exiting block, or
    an exiting block that is not its latch, [canVectorize] returns false. *)
Theorem canVectorize_CFG_not_understood (TheLoop Lp : Loop) (s : Legality PSE) :
  In Lp (loopNest TheLoop) ->
  cfgNotUnderstood Lp ->
  (canVectorize E TheLoop s).1 = false.
Proof.
  intros Hin Hbad. unfold canVectorize. unfold bind at 1.
  pose proof (canVectorizeLoopNestCFG_bad TheLoop Lp Hin Hbad s) as Hc.
  destruct (canVectorizeLoopNestCFG E TheLoop s) as [ok s1]. simpl in Hc.
  subst ok. apply check_false; [| by left]. intros s2.
  destruct (negb (Loop_empty TheLoop)).
  - unfold bind at 1. destruct (canVectorizeOuterLoop E TheLoop s2) as [ok0 s3].
    destruct ok0; simpl; reflexivity.
  - unfold bind at 1.
    destruct ((if negb (getNumBlocks TheLoop =? 1)
               then canVectorizeWithIfConvert E TheLoop else ret true) s2)
      as [ok1 s3].
    apply check_false; [| by right]. intros s4.
    unfold bind at 1. destruct (canVectorizeInstrs E TheLoop s4) as [ok2 s5].
    apply check_false; [| by right]. intros s6.
    unfold bind at 1. destruct (canVectorizeMemory E TheLoop s6) as [ok3 s7].
    apply check_false; [| by right]. intros s8.
    unfold bind at 1, gets. apply check_false; [| by right]. done.
Qed.

End CFG.

(** ** The classification of header phis *)

Section Classification.
Context {PSE : Type} (E : Env PSE) (TheLoop : Loop).

Lemma addInductionPhi_maps Phi ID (s : Legality PSE) :
  Inductions (addInductionPhi E TheLoop Phi ID s).2
  = <[ival Phi := ID]> (Inductions s)
  /\ Reductions (addInductionPhi E TheLoop Phi ID s).2 = Reductions s
  /\ FirstOrderRecurrences (addInductionPhi E TheLoop Phi ID s).2
     = FirstOrderRecurrences s.
Proof. unfold addInductionPhi. mrun; done. Qed.

Ltac use_addInductionPhi :=
  repeat match goal with
         | H : addInductionPhi E TheLoop ?P ?I ?s0 = (_, _) |- _ =>
             let L := fresh in
             pose proof (addInductionPhi_maps P I s0) as L;
             rewrite H in L; simpl in L; destruct L as (? & ? & ?); clear H
         end.

Lemma headerPhi_order Phi (s : Legality PSE) :
  (getNumIncomingValues Phi <> 2 -> (headerPhi E TheLoop Phi s).1 = false)
  /\ (getNumIncomingValues Phi = 2 ->
      match isReductionPHI E Phi TheLoop with
      | Some RedDes =>
          (headerPhi E TheLoop Phi s).1 = true
          /\ Reductions (headerPhi E TheLoop Phi s).2
             = <[ival Phi := RedDes]> (Reductions s)
          /\ Inductions (headerPhi E TheLoop Phi s).2 = Inductions s
          /\ FirstOrderRecurrences (headerPhi E TheLoop Phi s).2
             = FirstOrderRecurrences s
      | None =>
          match isInductionPHI E Phi TheLoop (PSEst s) false with
          | (Some ID, _) =>
              (headerPhi E TheLoop Phi s).1 = true
              /\ Inductions (headerPhi E TheLoop Phi s).2
                 = <[ival Phi := ID]> (Inductions s)
              /\ Reductions (headerPhi E TheLoop Phi s).2 = Reductions s
              /\ FirstOrderRecurrences (headerPhi E TheLoop Phi s).2
                 = FirstOrderRecurrences s
          | (None, pse1) =>
              match isFirstOrderRecurrence E Phi TheLoop (SinkAfter s) with
              | (true, _) =>
                  (headerPhi E TheLoop Phi s).1 = true
                  /\ FirstOrderRecurrences (headerPhi E TheLoop Phi s).2
                     = {[ival Phi]} ∪ FirstOrderRecurrences s
                  /\ Reductions (headerPhi E TheLoop Phi s).2 = Reductions s
                  /\ Inductions (headerPhi E TheLoop Phi s).2 = Inductions s
              | (false, _) =>
                  match isInductionPHI E Phi TheLoop pse1 true with
                  | (Some ID, _) =>
                      (headerPhi E TheLoop Phi s).1 = true
                      /\ Inductions (headerPhi E TheLoop Phi s).2
                         = <[ival Phi := ID]> (Inductions s)
                      /\ Reductions (headerPhi E TheLoop Phi s).2 = Reductions s
                      /\ FirstOrderRecurrences (headerPhi E TheLoop Phi s).2
                         = FirstOrderRecurrences s
                  | (None, _) => (headerPhi E TheLoop Phi s).1 = false
                  end
              end
          end
      end).
Proof.
  unfold headerPhi, CFGNotUnderstood, reportVectorizationFailure, emit.
  split; intros Hn.
  - destruct (Z.eqb_spec (getNumIncomingValues Phi) 2); [done |]. by mrun.
  - rewrite Hn. mrun; use_addInductionPhi; simpl; repeat split; congruence.
Qed.

Lemma classified_grows (s s' : Legality PSE) I :
  facts_grow s s' -> classified s I -> classified s' I.
Proof.
  unfold facts_grow, classified. intros (_ & HI & HR & HF & _) [?|[?|?]];
    set_solver.
Qed.

Lemma headerPhi_true Phi (s : Legality PSE) :
  (headerPhi E TheLoop Phi s).1 = true ->
  getNumIncomingValues Phi = 2 /\ classified (headerPhi E TheLoop Phi s).2 Phi.
Proof.
  intros Ht. destruct (headerPhi_order Phi s) as [Hne Heq].
  destruct (decide (getNumIncomingValues Phi = 2)) as [Hn|Hn];
    [| rewrite (Hne Hn) in Ht; done].
  split; [done |]. specialize (Heq Hn). unfold classified.
  repeat case_match; try (rewrite Heq in Ht; done);
    destruct Heq as (_ & Ha & Hb & Hc); rewrite Ha, Hb, Hc;
    rewrite ?dom_insert_L; set_solver.
Qed.

Lemma instrStep_true BB I (s : Legality PSE) :
  (instrStep E TheLoop BB I s).1 = true ->
  isPHI I = true -> bptr BB = getHeader TheLoop ->
  getNumIncomingValues I = 2 /\ classified (instrStep E TheLoop BB I s).2 I.
Proof.
  unfold instrStep. intros Ht HP HB. rewrite HP in *.
  destruct (negb (isIntegerTy (getType I)) && _ && _).
  - unfold CFGNotUnderstood, reportVectorizationFailure, emit in Ht.
    revert Ht. by mrun.
  - rewrite HB, Pos.eqb_refl in *. simpl in *. by apply headerPhi_true.
Qed.

Lemma scanInstrs_classified BB l : forall (s : Legality PSE),
  (scanInstrs E TheLoop BB l s).1 = true ->
  bptr BB = getHeader TheLoop ->
  forall I, In I l -> isPHI I = true ->
  getNumIncomingValues I = 2
  /\ classified (scanInstrs E TheLoop BB l s).2 I.
Proof.
  induction l as [|i l IH]; intros s Ht HB I Hin HP; [done |].
  simpl in *. unfold bind in *.
  pose proof (instrStep_true BB i s) as Hi.
  destruct (instrStep E TheLoop BB i s) as [ok s1]. destruct ok; [| done].
  destruct Hin as [<- | Hin].
  - destruct (Hi eq_refl HP HB) as [Hn Hc]. split; [done |].
    eapply classified_grows; [apply (scanInstrs_grows E TheLoop BB l s1) | done].
  - by apply IH.
Qed.

Lemma scanBlocks_classified bs : forall (s : Legality PSE),
  (scanBlocks E TheLoop bs s).1 = true ->
  forall BB, In BB bs -> bptr BB = getHeader TheLoop ->
  forall I, In I (insts BB) -> isPHI I = true ->
  getNumIncomingValues I = 2
  /\ classified (scanBlocks E TheLoop bs s).2 I.
Proof.
  induction bs as [|B bs IH]; intros s Ht BB Hin HB I HI HP; [done |].
  simpl in *. unfold bind in *.
  pose proof (scanInstrs_classified B (insts B) s) as Hi.
  destruct (scanInstrs E TheLoop B (insts B) s) as [ok s1]. destruct ok; [| done].
  destruct Hin as [-> | Hin].
  - destruct (Hi eq_refl HB I HI HP) as [Hn Hc]. split; [done |].
    eapply classified_grows; [apply (scanBlocks_grows E TheLoop bs s1) | done].
  - by eapply IH.
Qed.

Lemma canVectorizeInstrs_classified (s : Legality PSE) :
  (canVectorizeInstrs E TheLoop s).1 = true ->
  forall BB, In BB (blocks TheLoop) -> bptr BB = getHeader TheLoop ->
  forall I, In I (insts BB) -> isPHI I = true ->
  getNumIncomingValues I = 2
  /\ classified (canVectorizeInstrs E TheLoop s).2 I.
Proof.
  intros Ht BB HB Hh I HI HP.
  destruct (canVectorizeInstrs E TheLoop s) as [r sf] eqn:Hr.
  simpl in Ht. subst r. simpl.
  unfold canVectorizeInstrs in Hr. unfold bind at 1, modify at 1 in Hr.
  unfold bind at 1 in Hr.
  pose proof (scanBlocks_classified (blocks TheLoop)
                (set_HasFunNoNaNAttr (no_nans_fp_math E =? "true")%string s))
    as Hsc.
  destruct (scanBlocks E TheLoop (blocks TheLoop) _) as [ok s1].
  destruct ok; simpl negb in Hr; cbv iota in Hr; [| by inversion Hr].
  destruct (Hsc eq_refl BB HB Hh I HI HP) as [Hn Hc]. split; [done |].
  clear Hsc. revert Hr. unfold reportVectorizationFailure, emit.
  mrun; intros Hr; inversion Hr; subst; exact Hc.
Qed.

(** *** From the phi to the whole scan *)

#[local] Instance sameAt_preorder v : PreOrder (@sameAt PSE v).
Proof.
  split.
  - intros s. unfold sameAt. tauto.
  - intros s1 s2 s3 (R12 & I12 & F12) (R23 & I23 & F23). unfold sameAt.
    rewrite R23, I23, F23. tauto.
Qed.

Ltac sameAt_leaf :=
  unfold sameAt; repeat case_match; simpl;
  rewrite ?lookup_insert_ne by done; repeat split; try done; set_solver.

Lemma report_sameAt v msg tag :
  keeps (sameAt v) (@reportVectorizationFailure PSE msg tag).
Proof.
  unfold reportVectorizationFailure, emit. repeat keeps_step. sameAt_leaf.
Qed.

Lemma addInductionPhi_sameAt v Phi ID :
  ival Phi <> v -> keeps (sameAt v) (addInductionPhi E TheLoop Phi ID).
Proof.
  intros Hne s. destruct (addInductionPhi_maps Phi ID s) as (HI & HR & HF).
  unfold sameAt. rewrite HI, HR, HF, lookup_insert_ne; done.
Qed.

Ltac sameAt_step :=
  first [ apply report_sameAt
        | apply addInductionPhi_sameAt; assumption
        | keeps_step ].

Lemma instrStep_sameAt v BB I :
  ival I <> v -> keeps (sameAt v) (instrStep E TheLoop BB I).
Proof.
  intros Hne. unfold instrStep, headerPhi, nonPhiInstr, CFGNotUnderstood.
  repeat sameAt_step; sameAt_leaf.
Qed.

Lemma scanInstrs_sameAt v BB l :
  (forall I, In I l -> ival I <> v) ->
  keeps (sameAt v) (scanInstrs E TheLoop BB l).
Proof.
  induction l as [|i l IH]; intros Hne; simpl.
  - apply keeps_ret; typeclasses eauto.
  - keeps_step; [apply instrStep_sameAt, Hne; by left |].
    keeps_step; [| apply keeps_ret; typeclasses eauto].
    apply IH. intros I HI. apply Hne. by right.
Qed.

Lemma scanBlocks_sameAt v bs :
  (forall BB I, In BB bs -> In I (insts BB) -> ival I <> v) ->
  keeps (sameAt v) (scanBlocks E TheLoop bs).
Proof.
  induction bs as [|B bs IH]; intros Hne; simpl.
  - apply keeps_ret; typeclasses eauto.
  - keeps_step; [apply scanInstrs_sameAt; intros I HI; apply (Hne B I);
                 [by left | exact HI] |].
    keeps_step; [| apply keeps_ret; typeclasses eauto].
    apply IH. intros BB I HBB HI. apply (Hne BB I); [by right | exact HI].
Qed.

Lemma scanInstrs_app BB l1 l2 : forall (s : Legality PSE),
  scanInstrs E TheLoop BB (l1 ++ l2) s
  = if (scanInstrs E TheLoop BB l1 s).1
    then scanInstrs E TheLoop BB l2 (scanInstrs E TheLoop BB l1 s).2
    else (false, (scanInstrs E TheLoop BB l1 s).2).
Proof.
  induction l1 as [|i l1 IH]; intros s; [done |].
  simpl. unfold bind.
  destruct (instrStep E TheLoop BB i s) as [ok s1].
  destruct ok; [apply IH | done].
Qed.

Lemma scanBlocks_app bs1 bs2 : forall (s : Legality PSE),
  scanBlocks E TheLoop (bs1 ++ bs2) s
  = if (scanBlocks E TheLoop bs1 s).1
    then scanBlocks E TheLoop bs2 (scanBlocks E TheLoop bs1 s).2
    else (false, (scanBlocks E TheLoop bs1 s).2).
Proof.
  induction bs1 as [|B bs1 IH]; intros s; [done |].
  simpl. unfold bind.
  destruct (scanInstrs E TheLoop B (insts B) s) as [ok s1].
  destruct ok; [apply IH | done].
Qed.

(** A scan that succeeds has come to each instruction, in the state the
    scan of what is before it leaves, has gone through it, and has gone
    on from the state it left. *)
Lemma scanBlocks_through bs1 BB bs2 l1 I l2 (s0 : Legality PSE) :
  insts BB = (l1 ++ I :: l2)%list ->
  (scanBlocks E TheLoop (bs1 ++ BB :: bs2) s0).1 = true ->
  (instrStep E TheLoop BB I
     (scanInstrs E TheLoop BB l1 (scanBlocks E TheLoop bs1 s0).2).2).1 = true
  /\ (scanBlocks E TheLoop (bs1 ++ BB :: bs2) s0).2
     = (scanBlocks E TheLoop bs2
          (scanInstrs E TheLoop BB l2
             (instrStep E TheLoop BB I
                (scanInstrs E TheLoop BB l1
                   (scanBlocks E TheLoop bs1 s0).2).2).2).2).2.
Proof.
  intros HI. rewrite scanBlocks_app.
  destruct (scanBlocks E TheLoop bs1 s0) as [ok1 sA]. simpl fst. simpl snd.
  destruct ok1; [| done].
  cbn [scanBlocks]. unfold bind at 1 2. rewrite HI, !scanInstrs_app.
  destruct (scanInstrs E TheLoop BB l1 sA) as [ok2 s1]. simpl fst. simpl snd.
  destruct ok2; [| done].
  cbn [scanInstrs]. unfold bind.
  destruct (instrStep E TheLoop BB I s1) as [ok3 s2]. simpl fst. simpl snd.
  destruct ok3; [| done].
  destruct (scanInstrs E TheLoop BB l2 s2) as [ok4 s3]. simpl fst. simpl snd.
  destruct ok4; [| done]. done.
Qed.

Lemma instrStep_header BB Phi (s : Legality PSE) :
  bptr BB = getHeader TheLoop -> isPHI Phi = true ->
  (instrStep E TheLoop BB Phi s).1 = true ->
  instrStep E TheLoop BB Phi s = headerPhi E TheLoop Phi s.
Proof.
  unfold instrStep. intros HB HP. rewrite HP, HB, Pos.eqb_refl.
  destruct (negb (isIntegerTy (getType Phi)) && _ && _); [| done].
  unfold CFGNotUnderstood, reportVectorizationFailure, emit. by mrun.
Qed.

(** The end of [canVectorizeInstrs] touches none of the three classes. *)
Lemma canVectorizeInstrs_scan (s : Legality PSE) :
  (canVectorizeInstrs E TheLoop s).1 = true ->
  (scanBlocks E TheLoop (blocks TheLoop)
     (set_HasFunNoNaNAttr (no_nans_fp_math E =? "true")%string s)).1 = true
  /\ forall v,
       sameAt v
         (scanBlocks E TheLoop (blocks TheLoop)
            (set_HasFunNoNaNAttr (no_nans_fp_math E =? "true")%string s)).2
         (canVectorizeInstrs E TheLoop s).2.
Proof.
  destruct (canVectorizeInstrs E TheLoop s) as [r sf] eqn:Hr. simpl.
  intros ->. unfold canVectorizeInstrs in Hr.
  unfold bind at 1, modify at 1 in Hr. unfold bind at 1 in Hr.
  destruct (scanBlocks E TheLoop (blocks TheLoop) _) as [ok s1].
  destruct ok; simpl negb in Hr; cbv iota in Hr; [| by inversion Hr].
  split; [done |]. intros v. revert Hr.
  unfold reportVectorizationFailure, emit.
  mrun; intros Hr; inversion Hr; subst; clear Hr; unfold sameAt; simpl; tauto.
Qed.

Lemma NoDup_map_around {A B} (f : A -> B) (a b : list A) (x : A) :
  List.NoDup (map f (a ++ x :: b)) ->
  (forall y, In y a -> f y <> f x) /\ (forall y, In y b -> f y <> f x).
Proof.
  rewrite map_app, map_cons. intros Hnd.
  apply NoDup_remove_2 in Hnd.
  split; intros y Hy Heq; apply Hnd, in_or_app;
    [left | right]; rewrite <- Heq; by apply in_map.
Qed.

Lemma loopInstructions_around bs1 BB bs2 l1 I l2 :
  blocks TheLoop = (bs1 ++ BB :: bs2)%list ->
  insts BB = (l1 ++ I :: l2)%list ->
  List.NoDup (map ival (loopInstructions TheLoop)) ->
  (forall B J, In B bs1 -> In J (insts B) -> ival J <> ival I)
  /\ (forall J, In J l1 -> ival J <> ival I)
  /\ (forall J, In J l2 -> ival J <> ival I)
  /\ (forall B J, In B bs2 -> In J (insts B) -> ival J <> ival I).
Proof.
  intros Hbs HI. unfold loopInstructions.
  rewrite Hbs, map_app, concat_app, map_cons, concat_cons, HI.
  rewrite <- !app_assoc, <- app_comm_cons, app_assoc.
  intros Hnd. apply NoDup_map_around in Hnd as [Hbefore Hafter].
  assert (forall bs B J, In B bs -> In J (insts B) ->
                         In J (concat (map insts bs))) as Hin.
  { intros bs B J HB HJ. apply in_concat. exists (insts B).
    split; [by apply in_map | exact HJ]. }
  split; [| split; [| split]].
  - intros B J HB HJ. apply Hbefore, in_or_app. left. by eapply Hin.
  - intros J HJ. apply Hbefore, in_or_app. by right.
  - intros J HJ. apply Hafter, in_or_app. by left.
  - intros B J HB HJ. apply Hafter, in_or_app. right. by eapply Hin.
Qed.

(** When [canVectorizeInstrs] returns true it has analysed each phi of the
    header, in the state the scan was in when it came to it, with success;
    and when no two instructions of the loop have the same address, what
    the states say of that phi has changed there only. *)
Lemma canVectorizeInstrs_header_phi (s : Legality PSE) bs1 BB bs2 l1 Phi l2 :
  blocks TheLoop = (bs1 ++ BB :: bs2)%list ->
  insts BB = (l1 ++ Phi :: l2)%list ->
  bptr BB = getHeader TheLoop ->
  isPHI Phi = true ->
  (canVectorizeInstrs E TheLoop s).1 = true ->
  (headerPhi E TheLoop Phi (stateBefore E TheLoop bs1 BB l1 s)).1 = true
  /\ (List.NoDup (map ival (loopInstructions TheLoop)) ->
      sameAt (ival Phi) s (stateBefore E TheLoop bs1 BB l1 s)
      /\ sameAt (ival Phi)
           (headerPhi E TheLoop Phi (stateBefore E TheLoop bs1 BB l1 s)).2
           (canVectorizeInstrs E TheLoop s).2).
Proof.
  intros Hbs HI HB HP Ht.
  destruct (canVectorizeInstrs_scan s Ht) as [Hscan Hend].
  rewrite Hbs in Hscan, Hend.
  destruct (scanBlocks_through bs1 BB bs2 l1 Phi l2 _ HI Hscan)
    as [Hstep Hrest].
  fold (stateBefore E TheLoop bs1 BB l1 s) in Hstep, Hrest.
  pose proof (instrStep_header BB Phi _ HB HP Hstep) as Hhead.
  rewrite Hhead in Hstep, Hrest. clear Hhead.
  split; [exact Hstep |]. intros Hnd.
  destruct (loopInstructions_around bs1 BB bs2 l1 Phi l2 Hbs HI Hnd)
    as (Hbs1 & Hl1 & Hl2 & Hbs2).
  split.
  - unfold stateBefore.
    etransitivity; [| apply (scanInstrs_sameAt _ BB l1 Hl1)].
    etransitivity; [| apply (scanBlocks_sameAt _ bs1 Hbs1)].
    unfold sameAt. simpl. tauto.
  - etransitivity; [| apply Hend]. rewrite Hrest.
    etransitivity; [apply (scanInstrs_sameAt _ BB l2 Hl2) |].
    apply (scanBlocks_sameAt _ bs2 Hbs2).
Qed.

(** C2.  A header phi that does not have exactly two incoming values makes
    the analysis of the phi fail.  One with two incoming values is tried as
    a reduction, then as an induction, then as a first-order recurrence,
    then as an induction with the phi coerced to an add-recurrence, and the
    first that matches decides where the phi is recorded, whatever the
    later ones would say; when none matches the analysis of the phi fails.
    This carries over to [canVectorizeInstrs].  Take a phi of the header,
    after the blocks [bs1] and the instructions [l1] of its block.  If it
    does not have two incoming values [canVectorizeInstrs] returns false.
    If, in the state in which the scan comes to it, none of the four
    analyses matches, [canVectorizeInstrs] returns false.  And when
    [canVectorizeInstrs] returns true on a loop whose instructions have
    distinct addresses, the phi has been recorded, between the state at
    the start and the state at the end, in the class of the first analysis
    that matched and in no other. *)
Theorem headerPhi_classification :
  (forall Phi (s : Legality PSE),
     (getNumIncomingValues Phi <> 2 -> (headerPhi E TheLoop Phi s).1 = false)
     /\ (getNumIncomingValues Phi = 2 ->
         match isReductionPHI E Phi TheLoop with
         | Some RedDes =>
             (headerPhi E TheLoop Phi s).1 = true
             /\ Reductions (headerPhi E TheLoop Phi s).2
                = <[ival Phi := RedDes]> (Reductions s)
             /\ Inductions (headerPhi E TheLoop Phi s).2 = Inductions s
             /\ FirstOrderRecurrences (headerPhi E TheLoop Phi s).2
                = FirstOrderRecurrences s
         | None =>
             match isInductionPHI E Phi TheLoop (PSEst s) false with
             | (Some ID, _) =>
                 (headerPhi E TheLoop Phi s).1 = true
                 /\ Inductions (headerPhi E TheLoop Phi s).2
                    = <[ival Phi := ID]> (Inductions s)
                 /\ Reductions (headerPhi E TheLoop Phi s).2 = Reductions s
                 /\ FirstOrderRecurrences (headerPhi E TheLoop Phi s).2
                    = FirstOrderRecurrences s
             | (None, pse1) =>
                 match isFirstOrderRecurrence E Phi TheLoop (SinkAfter s) with
                 | (true, _) =>
                     (headerPhi E TheLoop Phi s).1 = true
                     /\ FirstOrderRecurrences (headerPhi E TheLoop Phi s).2
                        = {[ival Phi]} ∪ FirstOrderRecurrences s
                     /\ Reductions (headerPhi E TheLoop Phi s).2 = Reductions s
                     /\ Inductions (headerPhi E TheLoop Phi s).2 = Inductions s
                 | (false, _) =>
                     match isInductionPHI E Phi TheLoop pse1 true with
                     | (Some ID, _) =>
                         (headerPhi E TheLoop Phi s).1 = true
                         /\ Inductions (headerPhi E TheLoop Phi s).2
                            = <[ival Phi := ID]> (Inductions s)
                         /\ Reductions (headerPhi E TheLoop Phi s).2
                            = Reductions s
                         /\ FirstOrderRecurrences (headerPhi E TheLoop Phi s).2
                            = FirstOrderRecurrences s
                     | (None, _) => (headerPhi E TheLoop Phi s).1 = false
                     end
                 end
             end
         end))
  /\ (forall (s : Legality PSE) BB I,
        (canVectorizeInstrs E TheLoop s).1 = true ->
        In BB (blocks TheLoop) -> bptr BB = getHeader TheLoop ->
        In I (insts BB) -> isPHI I = true ->
        getNumIncomingValues I = 2
        /\ classified (canVectorizeInstrs E TheLoop s).2 I)
  /\ (forall (s : Legality PSE) bs1 BB bs2 l1 Phi l2,
        blocks TheLoop = (bs1 ++ BB :: bs2)%list ->
        insts BB = (l1 ++ Phi :: l2)%list ->
        bptr BB = getHeader TheLoop ->
        isPHI Phi = true ->
        (getNumIncomingValues Phi <> 2 ->
         (canVectorizeInstrs E TheLoop s).1 = false)
        /\ (isReductionPHI E Phi TheLoop = None ->
            (isInductionPHI E Phi TheLoop
               (PSEst (stateBefore E TheLoop bs1 BB l1 s)) false).1 = None ->
            (isFirstOrderRecurrence E Phi TheLoop
               (SinkAfter (stateBefore E TheLoop bs1 BB l1 s))).1 = false ->
            (isInductionPHI E Phi TheLoop
               (isInductionPHI E Phi TheLoop
                  (PSEst (stateBefore E TheLoop bs1 BB l1 s)) false).2
               true).1 = None ->
            (canVectorizeInstrs E TheLoop s).1 = false)
        /\ ((canVectorizeInstrs E TheLoop s).1 = true ->
            List.NoDup (map ival (loopInstructions TheLoop)) ->
            match isReductionPHI E Phi TheLoop with
            | Some RedDes =>
                recordedAs s (canVectorizeInstrs E TheLoop s).2 (ival Phi)
                  (AsReduction RedDes)
            | None =>
                match isInductionPHI E Phi TheLoop
                        (PSEst (stateBefore E TheLoop bs1 BB l1 s)) false with
                | (Some ID, _) =>
                    recordedAs s (canVectorizeInstrs E TheLoop s).2 (ival Phi)
                      (AsInduction ID)
                | (None, pse1) =>
                    match isFirstOrderRecurrence E Phi TheLoop
                            (SinkAfter (stateBefore E TheLoop bs1 BB l1 s)) with
                    | (true, _) =>
                        recordedAs s (canVectorizeInstrs E TheLoop s).2
                          (ival Phi) AsFirstOrderRecurrence
                    | (false, _) =>
                        match isInductionPHI E Phi TheLoop pse1 true with
                        | (Some ID, _) =>
                            recordedAs s (canVectorizeInstrs E TheLoop s).2
                              (ival Phi) (AsInduction ID)
                        | (None, _) => False
                        end
                    end
                end
            end)).
Proof.
  split; [apply headerPhi_order |]. split.
  - intros s BB I Ht HB Hh HI HP.
    by apply (canVectorizeInstrs_classified s Ht BB HB Hh I HI HP).
  - intros s bs1 BB bs2 l1 Phi l2 Hbs HI HB HP.
    set (s1 := stateBefore E TheLoop bs1 BB l1 s).
    pose proof (canVectorizeInstrs_header_phi s bs1 BB bs2 l1 Phi l2
                  Hbs HI HB HP) as Hcore.
    fold s1 in Hcore.
    destruct (headerPhi_order Phi s1) as [Hne Heq].
    split; [| split].
    + intros Hn. apply not_true_is_false. intros Ht.
      destruct (Hcore Ht) as [Hphi _]. rewrite (Hne Hn) in Hphi. done.
    + intros Hred Hind Hfor Hind2. apply not_true_is_false. intros Ht.
      destruct (Hcore Ht) as [Hphi _].
      destruct (decide (getNumIncomingValues Phi = 2)) as [Hn | Hn];
        [| rewrite (Hne Hn) in Hphi; done].
      specialize (Heq Hn). rewrite Hred in Heq.
      destruct (isInductionPHI E Phi TheLoop (PSEst s1) false) as [r pse1].
      simpl in Hind, Hind2. subst r.
      destruct (isFirstOrderRecurrence E Phi TheLoop (SinkAfter s1))
        as [isFOR sink1].
      simpl in Hfor. subst isFOR.
      destruct (isInductionPHI E Phi TheLoop pse1 true) as [r2 pse2].
      simpl in Hind2. subst r2. rewrite Heq in Hphi. done.
    + intros Ht Hnd.
      destruct (Hcore Ht) as [Hphi Hsame].
      destruct (Hsame Hnd) as [(R01 & I01 & F01) (R2f & I2f & F2f)].
      destruct (decide (getNumIncomingValues Phi = 2)) as [Hn | Hn];
        [| rewrite (Hne Hn) in Hphi; done].
      specialize (Heq Hn). unfold recordedAs.
      destruct (isReductionPHI E Phi TheLoop) as [RedDes |].
      { destruct Heq as (_ & HR & HI' & HF).
        rewrite R2f, I2f, F2f, HR, HI', HF, lookup_insert_eq, I01, F01. done. }
      destruct (isInductionPHI E Phi TheLoop (PSEst s1) false) as [r pse1].
      destruct r as [ID |].
      { destruct Heq as (_ & HI' & HR & HF).
        rewrite R2f, I2f, F2f, HR, HI', HF, lookup_insert_eq, R01, F01. done. }
      destruct (isFirstOrderRecurrence E Phi TheLoop (SinkAfter s1))
        as [isFOR sink1].
      destruct isFOR.
      { destruct Heq as (_ & HF & HR & HI').
        rewrite R2f, I2f, F2f, HR, HI', HF, R01, I01.
        split; [set_solver | done]. }
      destruct (isInductionPHI E Phi TheLoop pse1 true) as [r2 pse2].
      destruct r2 as [ID |].
      { destruct Heq as (_ & HI' & HR & HF).
        rewrite R2f, I2f, F2f, HR, HI', HF, lookup_insert_eq, R01, F01. done. }
      rewrite Heq in Hphi. done.
Qed.

End Classification.

(** ** Predication *)

Section Predication.
Context {PSE : Type} (E : Env PSE) (TheLoop : Loop).

Lemma predicateInstr_result Safe I (s : Legality PSE) :
  (predicateInstr E TheLoop Safe I s).1 = predicable E Safe I.
Proof. unfold predicateInstr, predicable, isStore. mrun; reflexivity. Qed.

Lemma predicateInstrs_result Safe l : forall (s : Legality PSE),
  (predicateInstrs E TheLoop Safe l s).1 = forallb (predicable E Safe) l.
Proof.
  induction l as [|i l IH]; intros s; [done |].
  simpl. unfold bind.
  pose proof (predicateInstr_result Safe i s) as Hi.
  destruct (predicateInstr E TheLoop Safe i s) as [ok s1]. simpl in Hi.
  rewrite <- Hi. destruct ok; [apply IH | done].
Qed.

(** The verdict of [blockCanBePredicated] does not depend on the state. *)
Lemma blockCanBePredicated_result BB Safe (s : Legality PSE) :
  (blockCanBePredicated E TheLoop BB Safe s).1
  = forallb (predicable E Safe) (insts BB).
Proof. apply predicateInstrs_result. Qed.

Lemma predicateInstr_MaskedOp Safe I (s : Legality PSE) :
  wellFormedInst I ->
  (predicateInstr E TheLoop Safe I s).1 = true ->
  MaskedOp (predicateInstr E TheLoop Safe I s).2
  = if needsMask TheLoop Safe I then {[ival I]} ∪ MaskedOp s else MaskedOp s.
Proof.
  unfold wellFormedInst, isLoad, isStore, predicateInstr, needsMask.
  intros [HL HS]. mrun; intros Ht; try done;
    try (destruct HL as [? ?]; [done |]; congruence);
    try (destruct HS as [? ?]; [done |]; congruence).
Qed.

Lemma predicateInstrs_MaskedOp Safe l : forall (s : Legality PSE),
  Forall wellFormedInst l ->
  (predicateInstrs E TheLoop Safe l s).1 = true ->
  MaskedOp (predicateInstrs E TheLoop Safe l s).2
  = list_to_set (map ival (List.filter (needsMask TheLoop Safe) l))
    ∪ MaskedOp s.
Proof.
  induction l as [|i l IH]; intros s Hwf Ht.
  - simpl. set_solver.
  - inversion Hwf as [|? ? Hi Hl]; subst. simpl in *. unfold bind in *.
    pose proof (predicateInstr_MaskedOp Safe i s Hi) as Hm.
    destruct (predicateInstr E TheLoop Safe i s) as [ok s1]. simpl in Hm.
    destruct ok; [| done]. rewrite (IH s1 Hl Ht), (Hm eq_refl).
    destruct (needsMask TheLoop Safe i); simpl; set_solver.
Qed.




End Predication.

(** ** Folding the tail by masking *)

Section FoldTail.
Context {PSE : Type} (E : Env PSE) (TheLoop : Loop).

Lemma foldTailBlocks_result bs : forall (s : Legality PSE),
  (foldTailBlocks E TheLoop bs s).1
  = forallb (fun BB => forallb (predicable E ∅) (insts BB)) bs.
Proof.
  induction bs as [|BB bs IH]; intros s; [done |].
  simpl. unfold bind at 1.
  pose proof (blockCanBePredicated_result E TheLoop BB ∅ s) as Hb.
  destruct (blockCanBePredicated E TheLoop BB ∅ s) as [ok s1]. simpl in Hb.
  rewrite <- Hb. destruct ok; simpl; [apply IH |].
  unfold reportVectorizationFailure, emit. by mrun.
Qed.

Lemma no_user_outside (allowed : gset ValuePtr) :
  existsb (hasUserOutside E TheLoop) (elements allowed) = false <->
  forall AE, AE ∈ allowed ->
  forall U, In U (users E AE) -> Loop_contains TheLoop U = true.
Proof.
  split.
  - intros Hex AE HAE U HU.
    destruct (Loop_contains TheLoop U) eqn:Hc; [done |].
    assert (existsb (hasUserOutside E TheLoop) (elements allowed) = true)
      as Habs; [| congruence].
    apply existsb_exists. exists AE. split.
    + apply list_elem_of_In. by apply elem_of_elements.
    + unfold hasUserOutside. apply existsb_exists. exists U.
      split; [done |]. by rewrite Hc.
  - intros Hall. apply not_true_is_false. intros Hex.
    apply existsb_exists in Hex as (AE & HAE & Hout).
    unfold hasUserOutside in Hout.
    apply existsb_exists in Hout as (U & HU & Hc).
    apply list_elem_of_In, elem_of_elements in HAE.
    rewrite (Hall AE HAE U HU) in Hc. done.
Qed.

(** C3.  [canFoldTailByMasking] returns true exactly when there is a
    primary induction, there is no reduction, every user of every allowed
    exit is inside the loop, and every block of the loop, the header
    included, passes [blockCanBePredicated] called with an empty set of
    safe pointers; it returns false when any of the four fails. *)
Theorem canFoldTailByMasking_iff (s : Legality PSE) :
  (canFoldTailByMasking E TheLoop s).1 = true <->
  is_Some (PrimaryInduction s)
  /\ Reductions s = ∅
  /\ (forall AE, AE ∈ AllowedExit s ->
      forall U, In U (users E AE) -> Loop_contains TheLoop U = true)
  /\ (forall BB, In BB (blocks TheLoop) ->
      forall s' : Legality PSE,
        (blockCanBePredicated E TheLoop BB ∅ s').1 = true).
Proof.
  assert ((forall BB, In BB (blocks TheLoop) ->
           forall s' : Legality PSE,
             (blockCanBePredicated E TheLoop BB ∅ s').1 = true)
          <-> (foldTailBlocks E TheLoop (blocks TheLoop) s).1 = true) as Hblocks.
  { rewrite foldTailBlocks_result, forallb_forall. split.
    - intros H BB HBB. rewrite <- (blockCanBePredicated_result E TheLoop BB ∅ s).
      by apply H.
    - intros H BB HBB s'. rewrite blockCanBePredicated_result. by apply H. }
  rewrite Hblocks. rewrite <- no_user_outside.
  unfold canFoldTailByMasking, reportVectorizationFailure, emit.
  unfold bind at 1, gets at 1.
  destruct (PrimaryInduction s) as [P|].
  - destruct (bool_decide (Reductions s = ∅)) eqn:HR.
    + apply bool_decide_eq_true in HR. simpl.
      destruct (existsb (hasUserOutside E TheLoop) (elements (AllowedExit s))).
      * split; [by mrun | intros (_ & _ & ? & _); done].
      * split; [intros Ht; repeat split; eauto | by intros (_ & _ & _ & ?)].
    + apply bool_decide_eq_false in HR. simpl.
      split; [by mrun | intros (_ & ? & _); done].
  - split; [by mrun | intros ([? ?] & _); done].
Qed.

End FoldTail.

(** ** If-conversion *)

Section IfConversion.
Context {PSE : Type} (E : Env PSE) (TheLoop : Loop).

Lemma ifConvertBlocks_phis Safe bs : forall (s : Legality PSE),
  (ifConvertBlocks E TheLoop Safe bs s).1 = true ->
  forall BB, In BB bs ->
  blockNeedsPredication E BB TheLoop = false ->
  bptr BB <> getHeader TheLoop ->
  canIfConvertPHINodes E BB = true.
Proof.
  induction bs as [|B bs IH]; intros s Ht BB Hin Hnp Hnh; [done |].
  destruct Hin as [-> | Hin].
  - revert Ht. simpl. rewrite Hnp.
    destruct (Pos.eqb_spec (bptr BB) (getHeader TheLoop)); [done |].
    unfold NoCFGForSelect, reportVectorizationFailure, emit.
    destruct (canIfConvertPHINodes E BB); [done |].
    destruct (getTerminator BB); by mrun.
  - revert Ht. simpl.
    unfold NoCFGForSelect, reportVectorizationFailure, emit.
    destruct (getTerminator B);
      try (destruct (blockNeedsPredication E B TheLoop);
           [ unfold bind at 1;
             destruct (blockCanBePredicated E TheLoop B Safe s) as [ok s1];
             destruct ok; simpl; [intros Ht; by apply (IH s1) | by mrun]
           | destruct (negb (bptr B =? getHeader TheLoop)%positive
                       && negb (canIfConvertPHINodes E B));
             [by mrun | intros Ht; by apply (IH s)] ]);
      try by mrun.
Qed.

(** C6, as the code has it.  A phi with an incoming constant that can trap
    makes [canIfConvertPHINodes] fail for its block, and when
    [canVectorizeWithIfConvert] returns true every block that needs no
    predication and is not the header has passed that check.  The header
    itself is exempt from it. *)
Theorem canVectorizeWithIfConvert_phis :
  (forall BB Phi V C,
     In Phi (phis BB) -> In V (operands Phi) ->
     asConstant E V = Some C -> canTrap C = true ->
     canIfConvertPHINodes E BB = false)
  /\ (forall (s : Legality PSE) BB,
        (canVectorizeWithIfConvert E TheLoop s).1 = true ->
        In BB (blocks TheLoop) ->
        blockNeedsPredication E BB TheLoop = false ->
        bptr BB <> getHeader TheLoop ->
        canIfConvertPHINodes E BB = true).
Proof.
  split.
  - intros BB Phi V C HPhi HV HC Ht. apply not_true_is_false. intros Hok.
    unfold canIfConvertPHINodes in Hok. rewrite forallb_forall in Hok.
    specialize (Hok Phi HPhi). rewrite forallb_forall in Hok.
    specialize (Hok V HV). rewrite HC, Ht in Hok. done.
  - intros s BB Ht Hin Hnp Hnh. unfold canVectorizeWithIfConvert in Ht.
    destruct (negb (EnableIfConversion (config E))).
    + revert Ht. unfold reportVectorizationFailure, emit. by mrun.
    + by eapply ifConvertBlocks_phis.
Qed.

End IfConversion.

(** ** The properties at concrete inputs *)

(** C1 at a loop without a preheader. *)
Lemma canVectorize_CFG_not_understood_witness :
  In loop_no_preheader (loopNest loop_no_preheader)
  /\ cfgNotUnderstood loop_no_preheader
  /\ (canVectorize env0 loop_no_preheader st0).1 = false.
Proof.
  assert (In loop_no_preheader (loopNest loop_no_preheader)) as Hin
      by (simpl; auto).
  assert (cfgNotUnderstood loop_no_preheader) as Hbad by (left; reflexivity).
  split; [exact Hin |]. split; [exact Hbad |].
  exact (canVectorize_CFG_not_understood env0 loop_no_preheader
           loop_no_preheader st0 Hin Hbad).
Defined.

(** C10 at the induction phi of the two-block loop, with no predicate
    assumed: the phi and its increment become allowed exits. *)
Lemma addInductionPhi_AllowedExit_iff_witness :
  getIncomingValueForBlock phi_iv (getLoopLatch loop_two_blocks)
  = Some 21%positive
  /\ AllowedExit (addInductionPhi env0 loop_two_blocks phi_iv ID_iv st0).2
     = {[ival phi_iv; 21%positive]} ∪ AllowedExit st0.
Proof.
  split; [reflexivity |].
  exact (proj1 (addInductionPhi_AllowedExit_iff env0 loop_two_blocks phi_iv
                  ID_iv st0 21%positive eq_refl) eq_refl).
Defined.

(** C2 at the two-block loop: its header phi, which no reduction analysis
    matches and the induction analysis does, ends up recorded as that
    induction and as nothing else. *)
Lemma headerPhi_classification_witness :
  (canVectorizeInstrs env_induction loop_two_blocks st0).1 = true
  /\ List.NoDup (map ival (loopInstructions loop_two_blocks))
  /\ recordedAs st0 (canVectorizeInstrs env_induction loop_two_blocks st0).2
       (ival phi_iv) (AsInduction ID_iv).
Proof.
  assert ((canVectorizeInstrs env_induction loop_two_blocks st0).1 = true)
    as Ht by (vm_compute; reflexivity).
  assert (List.NoDup (map ival (loopInstructions loop_two_blocks))) as Hnd.
  { simpl. repeat constructor; simpl; intros H;
      repeat (destruct H as [H | H]; [discriminate H |]); exact H. }
  split; [exact Ht |]. split; [exact Hnd |].
  exact (proj2 (proj2 (proj2 (proj2 (headerPhi_classification env_induction
                                       loop_two_blocks))
                         st0 [] bb_header [bb_latch] [] phi_iv
                         [plainInst 23%positive OtherInst VoidTy []]
                         eq_refl eq_refl eq_refl eq_refl))
           Ht Hnd).
Defined.






(** C6 as stated fails: the header of the two-block loop needs no
    predication and its phi has an incoming constant that can trap, so the
    header does not pass [canIfConvertPHINodes]; [canVectorizeWithIfConvert]
    returns true all the same. *)
Lemma canVectorizeWithIfConvert_header_counterexample :
  In bb_header (blocks loop_two_blocks)
  /\ bptr bb_header = getHeader loop_two_blocks
  /\ blockNeedsPredication env_trapping_constant bb_header loop_two_blocks
     = false
  /\ canIfConvertPHINodes env_trapping_constant bb_header = false
  /\ (canVectorizeWithIfConvert env_trapping_constant loop_two_blocks st0).1
     = true.
Proof. split; [simpl; auto |]. repeat split. Qed.

(** ** The analysis on a small loop *)

(** The two-block loop whose header phi is a canonical induction is legal:
    the phi is the only induction and the primary one, there is no
    reduction, the phi and its increment are the allowed exits, and nothing
    needs a mask. *)
Example canVectorize_two_blocks :
  (canVectorize env_induction loop_two_blocks st0).1 = true
  /\ Inductions (canVectorize env_induction loop_two_blocks st0).2
     = {[20%positive := ID_iv]}
  /\ Reductions (canVectorize env_induction loop_two_blocks st0).2 = ∅
  /\ PrimaryInduction (canVectorize env_induction loop_two_blocks st0).2
     = Some phi_iv
  /\ AllowedExit (canVectorize env_induction loop_two_blocks st0).2
     = {[20%positive; 21%positive]}
  /\ MaskedOp (canVectorize env_induction loop_two_blocks st0).2 = ∅
  /\ ORE (canVectorize env_induction loop_two_blocks st0).2 = [].
Proof. vm_compute. repeat split. Qed.

(** Its tail can then be folded by masking. *)
Example canFoldTailByMasking_two_blocks :
  (canFoldTailByMasking env_induction loop_two_blocks
     (canVectorize env_induction loop_two_blocks st0).2).1 = true.
Proof. vm_compute. reflexivity. Qed.

(** Without a recognised induction the header phi is not classified and a
    remark says so. *)
Example canVectorize_unidentified_phi :
  (canVectorize env0 loop_two_blocks st0).1 = false
  /\ map remarkName (ORE (canVectorize env0 loop_two_blocks st0).2)
     = ["NonReductionValueUsedOutsideLoop"].
Proof. vm_compute. repeat split. Qed.

(** Marking a loop with a width hint and an unrolling hint as vectorized
    drops the former, keeps the latter and appends the marker. *)
Example setAlreadyVectorized_width4_unroll2 :
  (setAlreadyVectorized
     (newLoopVectorizeHints defaultConfig md_width4_unroll2 false,
      md_width4_unroll2)).2
  = Some [MDSelf;
          MDNode [MDString "llvm.loop.unroll.count"; ConstantInt 32 2];
          IsVectorizedMD]
  /\ getWidth (newLoopVectorizeHints defaultConfig md_width4_unroll2 false) = 4.
Proof. vm_compute. repeat split. Qed.

(** Nine pointer checks exceed the normal threshold of eight: the
    requirements are not met unless reordering is allowed. *)
Example doesNotMeet_threshold :
  (doesNotMeet defaultConfig (fun _ => false) (mkRequirements 8 None)
     (initialHints defaultConfig false)).1 = false
  /\ (doesNotMeet defaultConfig (fun _ => false) (mkRequirements 9 None)
        (initialHints defaultConfig false)).1 = true
  /\ (doesNotMeet defaultConfig (fun _ => true) (mkRequirements 9 None)
        (initialHints defaultConfig false)).1 = false
  /\ length (doesNotMeet defaultConfig (fun _ => false)
               (mkRequirements 129 (Some 5%positive))
               (initialHints defaultConfig false)).2 = 2%nat.
Proof. vm_compute. repeat split. Qed.

(** * Further properties *)

(** ** Reading the hints *)

Lemma isPowerOf2_32_pos v : isPowerOf2_32 v = true -> 0 < v.
Proof. unfold isPowerOf2_32. intros H. apply andb_true_iff in H as [H _]. lia. Qed.

Lemma validate_range cfg H v :
  validate cfg H v = true -> 0 <= v ->
  match Kind H with
  | HK_WIDTH => isPowerOf2_32 v = true /\ 0 < v <= MaxVectorWidth cfg
  | HK_UNROLL => isPowerOf2_32 v = true /\ 0 < v <= MaxInterleaveFactor
  | HK_FORCE => v = 0 \/ v = 1
  | HK_ISVECTORIZED => v = 0 \/ v = 1
  end.
Proof.
  unfold validate. intros Hv Hpos. destruct (Kind H).
  - apply andb_true_iff in Hv as [Hp Hle]. split; [done |].
    pose proof (isPowerOf2_32_pos v Hp). lia.
  - apply andb_true_iff in Hv as [Hp Hle]. split; [done |].
    pose proof (isPowerOf2_32_pos v Hp). lia.
  - lia.
  - lia.
Qed.

Lemma hintFromOperand_range cfg b h op :
  hintNames h -> hintsInRange cfg b h ->
  hintsInRange cfg b (hintFromOperand cfg h op).
Proof.
  intros Hn Hr.
  destruct op as [| | | |ops]; simpl; try done.
  destruct ops as [|op0 Args]; [done |].
  destruct (dyn_cast_MDString op0) as [Nm|]; [| done].
  destruct Args as [|Arg [|]]; try done.
  unfold setHint.
  destruct (negb (String.prefix Prefix Nm)); [done |].
  destruct (dyn_extract_ConstantInt Arg) as [c|]; [| done].
  assert (0 <= c mod 2 ^ 32) as Hpos by (apply Z.mod_pos_bound; lia).
  destruct Hn as (_ & Kw & _ & Ki & _ & Kf & _ & Kv).
  destruct Hr as (Rv & Rf & Rw & Ri).
  repeat match goal with
         | |- context [String.eqb ?a ?b] => destruct (String.eqb a b)
         end;
    try done;
    match goal with
    | |- context [validate cfg ?H ?v] =>
        pose proof (validate_range cfg H v) as Hval;
        destruct (validate cfg H v); [specialize (Hval eq_refl Hpos) | done]
    end;
    rewrite ?Kw, ?Ki, ?Kf, ?Kv in Hval;
    unfold hintsInRange, FK_Disabled, FK_Enabled; simpl; tauto.
Qed.

Lemma scan_range cfg b ops : forall h,
  hintNames h -> hintsInRange cfg b h ->
  hintNames (fold_left (hintFromOperand cfg) ops h)
  /\ hintsInRange cfg b (fold_left (hintFromOperand cfg) ops h).
Proof.
  induction ops as [|e ops IH]; intros h Hn Hr; simpl; [done |].
  apply IH; [by apply hintFromOperand_names | by apply hintFromOperand_range].
Qed.

(** X1.  Whatever the loop metadata, the hints a constructor returns are
    within range: the already-vectorized flag is 0 or 1, the force mode is
    undefined, disabled or enabled, the width is the configured default or
    a power of two between 1 and the maximal vector width, and the
    interleave count is the forced one when it is forced and otherwise its
    initial value or a power of two between 1 and sixteen. *)
Theorem newHints_in_range (cfg : Config) (L : option LoopID) (b : bool) :
  (getIsVectorized (newLoopVectorizeHints cfg L b) = 0
   \/ getIsVectorized (newLoopVectorizeHints cfg L b) = 1)
  /\ (getForce (newLoopVectorizeHints cfg L b) = FK_Undefined
      \/ getForce (newLoopVectorizeHints cfg L b) = FK_Disabled
      \/ getForce (newLoopVectorizeHints cfg L b) = FK_Enabled)
  /\ (getWidth (newLoopVectorizeHints cfg L b) = VectorizationFactor cfg
      \/ (isPowerOf2_32 (getWidth (newLoopVectorizeHints cfg L b)) = true
          /\ 0 < getWidth (newLoopVectorizeHints cfg L b) <= MaxVectorWidth cfg))
  /\ (if isInterleaveForced cfg
      then getInterleave (newLoopVectorizeHints cfg L b)
           = VectorizationInterleave cfg
      else getInterleave (newLoopVectorizeHints cfg L b) = (if b then 1 else 0)
           \/ (isPowerOf2_32 (getInterleave (newLoopVectorizeHints cfg L b)) = true
               /\ 0 < getInterleave (newLoopVectorizeHints cfg L b)
                  <= MaxInterleaveFactor)).
Proof.
  assert (hintsInRange cfg b (getHintsFromMetadata cfg (initialHints cfg b) L))
    as (Rv & Rf & Rw & Ri).
  { unfold getHintsFromMetadata. destruct L as [ops|].
    - apply scan_range; [apply initialHints_names |].
      unfold hintsInRange, initialHints, FK_Undefined. simpl. tauto.
    - unfold hintsInRange, initialHints, FK_Undefined. simpl. tauto. }
  unfold newLoopVectorizeHints, getIsVectorized, getForce, getWidth,
    getInterleave.
  set (h := getHintsFromMetadata cfg (initialHints cfg b) L) in *.
  unfold deriveIsVectorized, overrideInterleave.
  destruct (isInterleaveForced cfg); simpl;
    destruct (Value (IsVectorized h) =? 1) eqn:Hv; simpl;
    repeat split; try tauto;
    try (apply Z.eqb_eq in Hv; tauto);
    try (destruct (_ && _); tauto).
Qed.

(** X2.  The value of a hint is narrowed to 32 bits before it is
    validated: two metadata integers that differ by a multiple of [2^32],
    of whatever bit widths, have the same effect on the hints. *)
Theorem setHint_narrows (cfg : Config) (h : LoopVectorizeHints) (Nm : string)
    (bits bits' : N) (c k : Z) :
  setHint cfg h Nm (ConstantInt bits' (c + k * 2 ^ 32))
  = setHint cfg h Nm (ConstantInt bits c).
Proof.
  assert ((c + k * 2 ^ 32) mod 2 ^ 32 = c mod 2 ^ 32) as Hm
      by (apply Z.mod_add; lia).
  unfold setHint. cbn [dyn_extract_ConstantInt]. cbv zeta. rewrite Hm.
  reflexivity.
Qed.

Lemma dyn_cast_MDString_Some m s : dyn_cast_MDString m = Some s -> m = MDString s.
Proof. destruct m; simpl; intros H; try discriminate H. by injection H as ->. Qed.

Lemma dyn_extract_ConstantInt_Some m c :
  dyn_extract_ConstantInt m = Some c -> exists bits, m = ConstantInt bits c.
Proof.
  destruct m as [| |bits v| |]; simpl; intros H; try discriminate H.
  injection H as ->. by exists bits.
Qed.

(** X3.  Loop metadata is read leniently: an operand changes the hints
    only if it is a node of a string and one integer, the string being the
    prefix followed by the name of one of the four hints and the integer,
    narrowed to 32 bits, being valid for that hint.  Any other operand, a
    name without the prefix, an unknown name, an argument that is not an
    integer, a number of arguments other than one, an invalid value, is
    passed over. *)
Theorem hintFromOperand_changes (cfg : Config) (h : LoopVectorizeHints)
    (op : Metadata) :
  hintFromOperand cfg h op <> h ->
  exists n bits c,
    op = MDNode [MDString (Prefix ++ n)%string; ConstantInt bits c]
    /\ ((n = Name (Width h) /\ validate cfg (Width h) (c mod 2 ^ 32) = true)
        \/ (n = Name (Interleave h)
            /\ validate cfg (Interleave h) (c mod 2 ^ 32) = true)
        \/ (n = Name (Force h) /\ validate cfg (Force h) (c mod 2 ^ 32) = true)
        \/ (n = Name (IsVectorized h)
            /\ validate cfg (IsVectorized h) (c mod 2 ^ 32) = true)).
Proof.
  intros Hne.
  destruct op as [| | | |ops]; simpl in Hne; try done.
  destruct ops as [|op0 Args]; [done |].
  destruct (dyn_cast_MDString op0) as [Nm|] eqn:Hs; [| done].
  apply dyn_cast_MDString_Some in Hs as ->.
  destruct Args as [|Arg [|]]; try done.
  unfold setHint in Hne.
  destruct (String.prefix Prefix Nm) eqn:Hp; cbn [negb] in Hne; [| done].
  apply prefix_substr in Hp.
  destruct (dyn_extract_ConstantInt Arg) as [c|] eqn:Hc; [| done].
  apply dyn_extract_ConstantInt_Some in Hc as [bits ->].
  cbv zeta in Hne.
  exists (substr_from (String.length Prefix) Nm), bits, c.
  split; [by rewrite <- Hp |].
  set (n := substr_from (String.length Prefix) Nm) in *.
  destruct (String.eqb_spec n (Name (Width h))) as [Hw|_].
  { left. split; [done |]. by destruct (validate cfg (Width h) _). }
  destruct (String.eqb_spec n (Name (Interleave h))) as [Hi|_].
  { right; left. split; [done |]. by destruct (validate cfg (Interleave h) _). }
  destruct (String.eqb_spec n (Name (Force h))) as [Hf|_].
  { right; right; left. split; [done |].
    by destruct (validate cfg (Force h) _). }
  destruct (String.eqb_spec n (Name (IsVectorized h))) as [Hv|_]; [| done].
  right; right; right. split; [done |].
  by destruct (validate cfg (IsVectorized h) _).
Qed.

(** X3 at the width hint: it does change the initial hints. *)
Lemma hintFromOperand_changes_witness :
  hintFromOperand defaultConfig (initialHints defaultConfig false)
    (hintEntry "vectorize.width" 4)
  <> initialHints defaultConfig false
  /\ exists n bits c,
       hintEntry "vectorize.width" 4
       = MDNode [MDString (Prefix ++ n)%string; ConstantInt bits c]
       /\ ((n = Name (Width (initialHints defaultConfig false))
            /\ validate defaultConfig (Width (initialHints defaultConfig false))
                 (c mod 2 ^ 32) = true)
           \/ (n = Name (Interleave (initialHints defaultConfig false))
               /\ validate defaultConfig
                    (Interleave (initialHints defaultConfig false))
                    (c mod 2 ^ 32) = true)
           \/ (n = Name (Force (initialHints defaultConfig false))
               /\ validate defaultConfig
                    (Force (initialHints defaultConfig false))
                    (c mod 2 ^ 32) = true)
           \/ (n = Name (IsVectorized (initialHints defaultConfig false))
               /\ validate defaultConfig
                    (IsVectorized (initialHints defaultConfig false))
                    (c mod 2 ^ 32) = true)).
Proof.
  assert (hintFromOperand defaultConfig (initialHints defaultConfig false)
            (hintEntry "vectorize.width" 4)
          <> initialHints defaultConfig false) as Hne.
  { vm_compute. intros H. discriminate H. }
  split; [exact Hne |].
  exact (hintFromOperand_changes defaultConfig
           (initialHints defaultConfig false)
           (hintEntry "vectorize.width" 4) Hne).
Defined.

(** ** Whether the hints allow vectorization *)

(** X4.  [allowVectorization] returns true exactly when vectorization is
    not disabled, an enabling pragma is present if the caller requires one,
    and the loop is not marked as vectorized.  It then emits nothing; when
    it returns false it emits exactly one remark: a missed-optimisation
    remark when the refusal comes from the force mode, the analysis remark
    AllDisabled when it comes from the already-vectorized flag. *)
Theorem allowVectorization_iff (h : LoopVectorizeHints) (OnlyWhenForced : bool) :
  ((allowVectorization h OnlyWhenForced).1 = true <->
   getForce h <> FK_Disabled
   /\ (OnlyWhenForced = true -> getForce h = FK_Enabled)
   /\ getIsVectorized h <> 1)
  /\ ((allowVectorization h OnlyWhenForced).1 = true ->
      (allowVectorization h OnlyWhenForced).2 = [])
  /\ ((allowVectorization h OnlyWhenForced).1 = false ->
      exists r, (allowVectorization h OnlyWhenForced).2 = [r]
                /\ (remarkKind r = RemarkMissed
                    <-> getForce h = FK_Disabled
                        \/ (OnlyWhenForced = true /\ getForce h <> FK_Enabled))
                /\ (remarkName r = "AllDisabled"
                    <-> ~ (getForce h = FK_Disabled
                           \/ (OnlyWhenForced = true
                               /\ getForce h <> FK_Enabled)))).
Proof.
  unfold allowVectorization.
  destruct (Z.eqb_spec (getForce h) FK_Disabled) as [Hd|Hd]; simpl.
  { repeat split; try done; try tauto.
    intros _. eexists. split; [reflexivity |].
    unfold emitRemarkWithHints. unfold getForce in Hd. rewrite Hd. simpl.
    split; [tauto |]. split; [done | tauto]. }
  destruct OnlyWhenForced; simpl.
  - destruct (Z.eqb_spec (getForce h) FK_Enabled) as [He|He]; simpl.
    + destruct (Z.eqb_spec (getIsVectorized h) 1) as [Hv|Hv]; simpl.
      * repeat split; try done; try tauto.
        intros _. eexists. split; [reflexivity |]. simpl.
        split; [split; [done | tauto] | split; [tauto | done]].
      * repeat split; try done; tauto.
    + repeat split; try done; try tauto.
      intros _. eexists. split; [reflexivity |].
      unfold emitRemarkWithHints. unfold getForce in *.
      destruct (Z.eqb_spec (Value (Force h)) FK_Disabled); [done |].
      destruct (Z.eqb_spec (Value (Force h)) FK_Enabled); [done |]. simpl.
      split; [tauto |]. split; [done | tauto].
  - destruct (Z.eqb_spec (getIsVectorized h) 1) as [Hv|Hv]; simpl.
    + repeat split; try done; try tauto.
      intros _. eexists. split; [reflexivity |]. simpl.
      split; [split; [done | intros [?|[? _]]; done]
             | split; [intros _ [?|[? _]]; done | done]].
    + repeat split; try done; tauto.
Qed.

(** X5.  Once [setAlreadyVectorized] has run, the hints refuse the loop:
    [allowVectorization] returns false, with or without a pragma and
    whether or not the caller requires one. *)
Theorem setAlreadyVectorized_refuses (h : LoopVectorizeHints)
    (L : option LoopID) (OnlyWhenForced : bool) :
  (allowVectorization (setAlreadyVectorized (h, L)).1 OnlyWhenForced).1 = false.
Proof.
  unfold allowVectorization, setAlreadyVectorized, getIsVectorized, getForce.
  simpl. by repeat case_match.
Qed.

(** ** Uniform loop nests *)

(** X6.  [isUniformLoopNest] accepts a nest exactly when [isUniformLoop]
    accepts every loop of it, at every depth; the outer loop itself is
    always accepted. *)
Theorem isUniformLoopNest_iff {PSE : Type} (E : Env PSE) (Lp OuterLp : Loop) :
  (isUniformLoopNest E Lp OuterLp = true <->
   forall L, In L (loopNest Lp) -> isUniformLoop E L OuterLp = true)
  /\ isUniformLoop E OuterLp OuterLp = true.
Proof.
  split; [| unfold isUniformLoop; by rewrite Pos.eqb_refl].
  induction Lp as [Lp IH] using Loop_nest_ind.
  destruct Lp as [lp hd ph nb ex la bs subs par civ]. simpl in IH.
  cbn [isUniformLoopNest loopNest getSubLoops].
  set (this := mkLoop lp hd ph nb ex la bs subs par civ).
  destruct (isUniformLoop E this OuterLp) eqn:Hu; simpl.
  - clearbody this.
    induction subs as [|S subs IHs].
    + split; [| done]. intros _ L [<- | []]; done.
    + inversion IH as [|? ? HS Hsubs]; subst.
      destruct (isUniformLoopNest E S OuterLp) eqn:HSu; simpl.
      * rewrite (IHs Hsubs). split.
        -- intros H L [<- | HL]; [done |].
           apply in_app_or in HL as [HL|HL].
           ++ exact (proj1 HS eq_refl L HL).
           ++ apply H. by right.
        -- intros H L [<- | HL]; [done |]. apply H. right.
           apply in_or_app. by right.
      * split; [done |]. intros H.
        assert (false = true) as Habs; [| discriminate Habs].
        apply (proj2 HS). intros L HL. apply H. right.
        apply in_or_app. by left.
  - split; [done |]. intros H. rewrite <- Hu. apply H. by left.
Qed.

(** ** The widest induction type *)

(** X7.  [getWiderType] returns one of its two arguments as converted by
    [convertPointerToIntegerType], the second on a tie, and its size is the
    larger of the two sizes; a type that is not a pointer is converted to
    one of at least 32 bits. *)
Theorem getWiderType_max {PSE : Type} (E : Env PSE) (Ty0 Ty1 : Ty) :
  (getWiderType E Ty0 Ty1 = convertPointerToIntegerType E Ty0
   \/ getWiderType E Ty0 Ty1 = convertPointerToIntegerType E Ty1)
  /\ getScalarSizeInBits (getWiderType E Ty0 Ty1)
     = Z.max (getScalarSizeInBits (convertPointerToIntegerType E Ty0))
             (getScalarSizeInBits (convertPointerToIntegerType E Ty1))
  /\ (getScalarSizeInBits (convertPointerToIntegerType E Ty0)
      <= getScalarSizeInBits (convertPointerToIntegerType E Ty1) ->
      getWiderType E Ty0 Ty1 = convertPointerToIntegerType E Ty1)
  /\ (isPointerTy Ty0 = false ->
      32 <= getScalarSizeInBits (convertPointerToIntegerType E Ty0)
      /\ getScalarSizeInBits Ty0
         <= getScalarSizeInBits (convertPointerToIntegerType E Ty0)).
Proof.
  assert (forall T, isPointerTy T = false ->
            32 <= getScalarSizeInBits (convertPointerToIntegerType E T)
            /\ getScalarSizeInBits T
               <= getScalarSizeInBits (convertPointerToIntegerType E T))
    as Hconv.
  { intros T Hp. unfold convertPointerToIntegerType. rewrite Hp.
    destruct (Z.ltb_spec (getScalarSizeInBits T) 32); simpl; lia. }
  unfold getWiderType.
  set (a := convertPointerToIntegerType E Ty0) in *.
  set (c := convertPointerToIntegerType E Ty1) in *.
  destruct (Z.ltb_spec (getScalarSizeInBits c) (getScalarSizeInBits a));
    (split; [tauto |]); (split; [lia |]);
    (split; [intros; first [lia | reflexivity] | apply Hconv]).
Qed.

(** ** Recording an induction *)

Lemma addInductionPhi_fields {PSE : Type} (E : Env PSE) (TheLoop : Loop)
    (Phi : Instruction) (ID : InductionDescriptor) (s : Legality PSE) :
  InductionCastsToIgnore (addInductionPhi E TheLoop Phi ID s).2
  = match getCastInsts ID with
    | c :: _ => {[c]} ∪ InductionCastsToIgnore s
    | [] => InductionCastsToIgnore s
    end
  /\ WidestIndTy (addInductionPhi E TheLoop Phi ID s).2
     = (if negb (isFloatingPointTy (getType Phi))
        then match WidestIndTy s with
             | None => Some (convertPointerToIntegerType E (getType Phi))
             | Some W => Some (getWiderType E (getType Phi) W)
             end
        else WidestIndTy s)
  /\ (PrimaryInduction (addInductionPhi E TheLoop Phi ID s).2 = Some Phi
      \/ PrimaryInduction (addInductionPhi E TheLoop Phi ID s).2
         = PrimaryInduction s).
Proof.
  unfold addInductionPhi. mrun; repeat split; auto.
Qed.

(** X8.  After [addInductionPhi] has recorded a phi, the queries find it:
    the phi is mapped to its descriptor and is an induction variable, and
    so is the first of the casts of the descriptor; what was an induction
    variable before still is; unless the phi is of floating-point type a
    widest induction type is known; and the primary induction is the phi
    or the one there was. *)
Theorem addInductionPhi_records {PSE : Type} (E : Env PSE) (TheLoop : Loop)
    (Phi : Instruction) (ID : InductionDescriptor) (s : Legality PSE) :
  isPHI Phi = true ->
  Inductions (addInductionPhi E TheLoop Phi ID s).2 !! ival Phi = Some ID
  /\ isInductionVariable (addInductionPhi E TheLoop Phi ID s).2 (Some Phi) = true
  /\ (forall c rest I,
        getCastInsts ID = c :: rest -> ival I = c ->
        isInductionVariable (addInductionPhi E TheLoop Phi ID s).2 (Some I)
        = true)
  /\ (forall V,
        isInductionVariable s V = true ->
        isInductionVariable (addInductionPhi E TheLoop Phi ID s).2 V = true)
  /\ (isFloatingPointTy (getType Phi) = false ->
      is_Some (WidestIndTy (addInductionPhi E TheLoop Phi ID s).2))
  /\ (forall P,
        PrimaryInduction (addInductionPhi E TheLoop Phi ID s).2 = Some P ->
        P = Phi \/ PrimaryInduction s = Some P).
Proof.
  intros HP.
  destruct (addInductionPhi_maps E TheLoop Phi ID s) as (HI & _ & _).
  destruct (addInductionPhi_fields E TheLoop Phi ID s) as (HC & HW & HPr).
  set (s' := (addInductionPhi E TheLoop Phi ID s).2) in *.
  assert (forall V, isInductionPhi s V = true -> isInductionPhi s' V = true)
    as Hphi.
  { intros [PN|]; simpl; [| done]. destruct (isPHI PN); [| done].
    rewrite HI, dom_insert_L. intros H. apply bool_decide_eq_true in H.
    apply bool_decide_eq_true. set_solver. }
  assert (forall V, isCastedInductionVariable s V = true ->
                    isCastedInductionVariable s' V = true) as Hcast.
  { intros [I|]; simpl; [| done]. rewrite HC. intros H.
    apply bool_decide_eq_true in H. apply bool_decide_eq_true.
    destruct (getCastInsts ID); set_solver. }
  split; [by rewrite HI, lookup_insert_eq |]. split; [| split; [| split; [| split]]].
  - unfold isInductionVariable. simpl. rewrite HP, HI, dom_insert_L.
    rewrite bool_decide_eq_true_2; [done | set_solver].
  - intros c rest I Hc <-. unfold isInductionVariable. simpl.
    rewrite HC, Hc. apply orb_true_iff. right.
    apply bool_decide_eq_true. set_solver.
  - intros V. unfold isInductionVariable. rewrite !orb_true_iff.
    intros [H|H]; [left; by apply Hphi | right; by apply Hcast].
  - intros Hfp. rewrite HW, Hfp. simpl. by destruct (WidestIndTy s).
  - intros P HPs. destruct HPr as [HPr|HPr]; rewrite HPr in HPs.
    + left. by injection HPs as <-.
    + by right.
Qed.

(** X8 at the induction phi of the two-block loop. *)
Lemma addInductionPhi_records_witness :
  isPHI phi_iv = true
  /\ isInductionVariable
       (addInductionPhi env0 loop_two_blocks phi_iv ID_iv st0).2 (Some phi_iv)
     = true.
Proof.
  split; [reflexivity |].
  exact (proj1 (proj2 (addInductionPhi_records env0 loop_two_blocks phi_iv
                         ID_iv st0 eq_refl))).
Defined.

(** ** What has been found stays found *)

Lemma facts_grow_findings_stay {PSE : Type} (s s' : Legality PSE) :
  facts_grow s s' -> findings_stay s s'.
Proof.
  intros (_ & HI & HR & HF & HM). repeat split.
  - intros [PN|]; simpl; [| done]. destruct (isPHI PN); [| done].
    intros H. apply bool_decide_eq_true in H. apply bool_decide_eq_true.
    set_solver.
  - intros Phi. unfold isFirstOrderRecurrencePhi. intros H.
    apply bool_decide_eq_true in H. apply bool_decide_eq_true. set_solver.
  - intros v Hv. apply elem_of_dom. apply elem_of_dom in Hv. set_solver.
  - set_solver.
Qed.

(** X9.  No operation of the analysis forgets a finding: from whatever
    state it is run, a phi that was an induction or a first-order
    recurrence, a phi that had a reduction descriptor and an instruction
    that was to be masked are still so when it ends. *)
Theorem findings_monotone {PSE : Type} (E : Env PSE) (TheLoop : Loop) :
  keeps findings_stay (canVectorize E TheLoop)
  /\ keeps findings_stay (canVectorizeInstrs E TheLoop)
  /\ keeps findings_stay (canVectorizeOuterLoop E TheLoop)
  /\ keeps findings_stay (setupOuterLoopInductions E TheLoop)
  /\ keeps findings_stay (canVectorizeWithIfConvert E TheLoop)
  /\ keeps findings_stay (canVectorizeMemory E TheLoop)
  /\ keeps findings_stay (canFoldTailByMasking E TheLoop)
  /\ (forall Phi ID, keeps findings_stay (addInductionPhi E TheLoop Phi ID))
  /\ (forall BB Safe,
        keeps findings_stay (blockCanBePredicated E TheLoop BB Safe)).
Proof.
  assert (forall A (m : M (Legality PSE) A),
             keeps facts_grow m -> keeps findings_stay m) as weaken.
  { intros A m H s. apply facts_grow_findings_stay, H. }
  split; [apply weaken, canVectorize_grows |].
  split; [apply weaken, canVectorizeInstrs_grows |].
  split; [apply weaken, canVectorizeOuterLoop_grows |].
  split; [apply weaken, setupOuterLoopInductions_grows |].
  split; [apply weaken, canVectorizeWithIfConvert_grows |].
  split; [apply weaken, canVectorizeMemory_grows |].
  split; [apply weaken, canFoldTailByMasking_grows |].
  split; [intros; apply weaken, addInductionPhi_grows |].
  intros; apply weaken, blockCanBePredicated_grows.
Qed.

(** ** Requirements and the memory analysis *)

(** X10.  The verdict of [doesNotMeet] is monotone in the number of
    runtime pointer checks: with the same hints and the same record of
    unsafe algebra, requirements that are not met with some number of
    checks are not met with more. *)
Theorem doesNotMeet_monotone (cfg : Config)
    (allowReordering : LoopVectorizeHints -> bool)
    (r r' : LoopVectorizationRequirements) (h : LoopVectorizeHints) :
  UnsafeAlgebraInst r = UnsafeAlgebraInst r' ->
  NumRuntimePointerChecks r <= NumRuntimePointerChecks r' ->
  (doesNotMeet cfg allowReordering r h).1 = true ->
  (doesNotMeet cfg allowReordering r' h).1 = true.
Proof.
  unfold doesNotMeet. intros <- Hle.
  destruct (bool_decide (is_Some (UnsafeAlgebraInst r)) && _); simpl;
    destruct (Z.ltb_spec (RuntimeMemoryCheckThreshold cfg)
                (NumRuntimePointerChecks r));
    destruct (Z.ltb_spec (PragmaVectorizeMemoryCheckThreshold cfg)
                (NumRuntimePointerChecks r));
    destruct (Z.ltb_spec (RuntimeMemoryCheckThreshold cfg)
                (NumRuntimePointerChecks r'));
    destruct (Z.ltb_spec (PragmaVectorizeMemoryCheckThreshold cfg)
                (NumRuntimePointerChecks r'));
    destruct (allowReordering h); simpl; try done; lia.
Qed.

(** X10 at the default thresholds, reordering not allowed: nine checks are
    too many and so are a hundred. *)
Lemma doesNotMeet_monotone_witness :
  UnsafeAlgebraInst req_9_checks = UnsafeAlgebraInst (mkRequirements 100 None)
  /\ NumRuntimePointerChecks req_9_checks
     <= NumRuntimePointerChecks (mkRequirements 100 None)
  /\ (doesNotMeet defaultConfig (fun _ => false) req_9_checks
        (initialHints defaultConfig false)).1 = true
  /\ (doesNotMeet defaultConfig (fun _ => false) (mkRequirements 100 None)
        (initialHints defaultConfig false)).1 = true.
Proof.
  assert (NumRuntimePointerChecks req_9_checks
          <= NumRuntimePointerChecks (mkRequirements 100 None)) as Hle
      by (simpl; lia).
  split; [reflexivity |]. split; [exact Hle |]. split; [reflexivity |].
  exact (doesNotMeet_monotone defaultConfig (fun _ => false) req_9_checks
           (mkRequirements 100 None) (initialHints defaultConfig false)
           eq_refl Hle eq_refl).
Defined.

(** X11.  [canVectorizeMemory] returns true exactly when the memory
    analysis can vectorize the loop and reports no dependence involving a
    loop-invariant address.  It always records the analysis; on success it
    records the number of runtime pointer checks the analysis asks for and
    adds its predicate to the assumptions; on failure it leaves the
    requirements and the assumptions as they were.  It touches neither the
    hints nor any finding. *)
Theorem canVectorizeMemory_spec {PSE : Type} (E : Env PSE) (TheLoop : Loop)
    (s : Legality PSE) :
  ((canVectorizeMemory E TheLoop s).1 = true <->
   LAI_canVectorizeMemory (GetLAA E TheLoop) = true
   /\ hasDependenceInvolvingLoopInvariantAddress (GetLAA E TheLoop) = false)
  /\ LAI (canVectorizeMemory E TheLoop s).2 = Some (GetLAA E TheLoop)
  /\ ((canVectorizeMemory E TheLoop s).1 = true ->
      NumRuntimePointerChecks (Requirements (canVectorizeMemory E TheLoop s).2)
      = getNumRuntimePointerChecks (GetLAA E TheLoop)
      /\ UnsafeAlgebraInst (Requirements (canVectorizeMemory E TheLoop s).2)
         = UnsafeAlgebraInst (Requirements s)
      /\ PSEst (canVectorizeMemory E TheLoop s).2
         = addPredicate E (PSEst s) (LAI_getPSE (GetLAA E TheLoop)))
  /\ ((canVectorizeMemory E TheLoop s).1 = false ->
      Requirements (canVectorizeMemory E TheLoop s).2 = Requirements s
      /\ PSEst (canVectorizeMemory E TheLoop s).2 = PSEst s)
  /\ Hints (canVectorizeMemory E TheLoop s).2 = Hints s
  /\ Inductions (canVectorizeMemory E TheLoop s).2 = Inductions s
  /\ Reductions (canVectorizeMemory E TheLoop s).2 = Reductions s
  /\ AllowedExit (canVectorizeMemory E TheLoop s).2 = AllowedExit s
  /\ MaskedOp (canVectorizeMemory E TheLoop s).2 = MaskedOp s
  /\ PrimaryInduction (canVectorizeMemory E TheLoop s).2 = PrimaryInduction s.
Proof.
  unfold canVectorizeMemory, reportVectorizationFailure, emit,
    addRuntimePointerChecks.
  destruct (LAI_canVectorizeMemory (GetLAA E TheLoop));
    destruct (hasDependenceInvolvingLoopInvariantAddress (GetLAA E TheLoop));
    destruct (LAI_getReport (GetLAA E TheLoop));
    unfold bind, modify, gets, ret; simpl;
    repeat split; intros; try done; try tauto;
    repeat match goal with H : _ /\ _ |- _ => destruct H end; done.
Qed.

(** ** The checks of the control flow and their remarks *)

(** X12.  [canVectorizeLoopCFG] returns true exactly when the loop has a
    preheader, one back-edge, a single exiting block and that block is the
    latch.  It changes nothing but the remark log, to which it appends the
    remark CFGNotUnderstood once for every check that fails when extra
    analysis is allowed, and once for the first only when it is not. *)
Theorem canVectorizeLoopCFG_spec {PSE : Type} (E : Env PSE) (Lp : Loop)
    (s : Legality PSE) :
  ((canVectorizeLoopCFG E Lp s).1 = true <-> ~ cfgNotUnderstood Lp)
  /\ sameButLog s (canVectorizeLoopCFG E Lp s).2
  /\ ORE (canVectorizeLoopCFG E Lp s).2
     = (ORE s
        ++ repeat (CFGNotUnderstoodRemark (Hints s))
             (if allowExtraAnalysis E then failedChecks Lp
              else Nat.min 1 (failedChecks Lp)))%list.
Proof.
  unfold canVectorizeLoopCFG, check, CFGNotUnderstood,
    reportVectorizationFailure, emit, cfgNotUnderstood, failedChecks,
    CFGNotUnderstoodRemark, sameButLog.
  destruct s. unfold bind, modify, gets, ret.
  destruct (getLoopPreheader Lp) as [ph|];
    destruct (Z.eqb_spec (getNumBackEdges Lp) 1) as [Hb|Hb];
    [rewrite (bool_decide_eq_true_2 _ Hb) | rewrite (bool_decide_eq_false_2 _ Hb)
    | rewrite (bool_decide_eq_true_2 _ Hb) | rewrite (bool_decide_eq_false_2 _ Hb)];
    destruct (getExitingBlock Lp) as [ex|];
    destruct (getLoopLatch Lp) as [la|];
    try (destruct (decide (ex = la)) as [->|Hne];
         [rewrite (bool_decide_eq_true_2 (Some la = Some la) eq_refl)
         | rewrite (bool_decide_eq_false_2 (Some ex = Some la))
             by congruence]);
    destruct (allowExtraAnalysis E); simpl;
    rewrite <- ?app_assoc, ?app_nil_r; simpl;
    (split; [split; [try done; intros _ H; intuition (try congruence; try done)
                    | intros H; try done; exfalso; apply H; auto;
                      try (right; right; right; congruence)]
            | split; reflexivity]).
Qed.

(** ** The two modes of reporting come to the same verdict *)

Section Modes.
Context {PSE : Type} (E : Env PSE).

Local Abbreviation E0 := (withExtraAnalysis false E).
Local Abbreviation E1 := (withExtraAnalysis true E).
Local Abbreviation St := (Legality PSE).

Lemma bind_run {A B} (m : M St A) (k : A -> M St B) s :
  bind m k s = k (m s).1 (m s).2.
Proof. unfold bind. by destruct (m s). Qed.

Lemma sameVerdict_refl (m : M St bool) : sameVerdict m m.
Proof.
  intros s. split; [done |]. by intros H.
Qed.

Lemma sameVerdict_check bad rep R (k0 k1 : bool -> M St bool) :
  (forall R, sameVerdict (k0 R) (k1 R)) ->
  (forall s, (k1 false s).1 = false) ->
  sameVerdict (check E0 bad rep R k0) (check E1 bad rep R k1).
Proof.
  intros Hk Hf s. unfold check. simpl. destruct bad; [| apply Hk].
  unfold bind, ret. destruct (rep s) as [u s1]. simpl. split; [done |].
  intros _. apply Hf.
Qed.

Lemma sameVerdict_ok (m0 m1 : M St bool) rep R (k0 k1 : bool -> M St bool) :
  sameVerdict m0 m1 ->
  (forall R, sameVerdict (k0 R) (k1 R)) ->
  (forall s, (k1 false s).1 = false) ->
  sameVerdict (ok <- m0 ;; check E0 (negb ok) rep R k0)
              (ok <- m1 ;; check E1 (negb ok) rep R k1).
Proof.
  intros Hm Hk Hf s. destruct (Hm s) as [Ht Hfl].
  assert ((ok <- m0 ;; check E0 (negb ok) rep R k0) s
          = check E0 (negb (m0 s).1) rep R k0 (m0 s).2) as ->
      by (unfold bind; by destruct (m0 s)).
  assert ((ok <- m1 ;; check E1 (negb ok) rep R k1) s
          = check E1 (negb (m1 s).1) rep R k1 (m1 s).2) as ->
      by (unfold bind; by destruct (m1 s)).
  destruct (m0 s) as [ok0 s1]. destruct ok0; simpl in *.
  - rewrite (Ht eq_refl). simpl.
    apply (sameVerdict_check false rep R k0 k1 Hk Hf).
  - destruct (m1 s) as [ok1 s1']. simpl in Hfl. rewrite (Hfl eq_refl). simpl.
    split.
    + unfold check, bind, ret. simpl. by destruct (rep s1).
    + intros _. unfold check, bind. simpl. destruct (rep s1'). apply Hf.
Qed.

Lemma check_false_kept (E' : Env PSE) bad rep (k : bool -> M St bool) :
  (forall s, (k false s).1 = false) ->
  forall s, (check E' bad rep false k s).1 = false.
Proof. intros Hk s. apply check_false; auto. Qed.

Lemma ok_false_kept (E' : Env PSE) (m : M St bool) rep
    (k : bool -> M St bool) :
  (forall s, (k false s).1 = false) ->
  forall s, ((ok <- m ;; check E' (negb ok) rep false k) s).1 = false.
Proof.
  intros Hk s. unfold bind at 1. destruct (m s) as [ok s1].
  by apply check_false_kept.
Qed.

Lemma sameVerdict_LoopCFG Lp :
  sameVerdict (canVectorizeLoopCFG E0 Lp) (canVectorizeLoopCFG E1 Lp).
Proof.
  unfold canVectorizeLoopCFG.
  apply sameVerdict_check;
    [intros R1 | intros s; repeat (apply check_false_kept; intros ?); done].
  apply sameVerdict_check;
    [intros R2 | intros s; repeat (apply check_false_kept; intros ?); done].
  apply sameVerdict_check;
    [intros R3 | intros s; repeat (apply check_false_kept; intros ?); done].
  apply sameVerdict_check; [intros R4; apply sameVerdict_refl | done].
Qed.

Lemma sameVerdict_LoopNestCFG Lp :
  sameVerdict (canVectorizeLoopNestCFG E0 Lp) (canVectorizeLoopNestCFG E1 Lp).
Proof.
  induction Lp as [Lp IH] using Loop_nest_ind.
  destruct Lp as [lp hd ph nb ex la bs subs par civ]. simpl in IH.
  cbn [canVectorizeLoopNestCFG getSubLoops].
  set (F := fun (E' : Env PSE) =>
              fix subLoops (ls : list Loop) (Result : bool) {struct ls}
                : M St bool :=
                match ls with
                | [] => ret Result
                | SubLp :: ls' =>
                    ok <- canVectorizeLoopNestCFG E' SubLp ;;
                    check E' (negb ok) (ret tt) Result
                      (fun Result => subLoops ls' Result)
                end).
  change (sameVerdict
            (ok <- canVectorizeLoopCFG E0 (mkLoop lp hd ph nb ex la bs subs par civ) ;;
             check E0 (negb ok) (ret tt) true (fun Result => F E0 subs Result))
            (ok <- canVectorizeLoopCFG E1 (mkLoop lp hd ph nb ex la bs subs par civ) ;;
             check E1 (negb ok) (ret tt) true (fun Result => F E1 subs Result))).
  assert (forall ls s, (F E1 ls false s).1 = false) as HF0.
  { induction ls as [|S ls IHls]; intros s; [done |].
    simpl. by apply ok_false_kept. }
  apply sameVerdict_ok; [apply sameVerdict_LoopCFG | | apply HF0].
  induction subs as [|S subs IHs]; intros R; [apply sameVerdict_refl |].
  inversion IH as [|? ? HS Hsubs]; subst. simpl.
  apply sameVerdict_ok; [exact HS | by apply IHs | apply HF0].
Qed.

Lemma sameVerdict_outerLoopBlocks TheLoop bs : forall R (k0 k1 : bool -> M St bool),
  (forall R, sameVerdict (k0 R) (k1 R)) ->
  (forall s, (k1 false s).1 = false) ->
  sameVerdict (outerLoopBlocks E0 TheLoop bs R k0)
              (outerLoopBlocks E1 TheLoop bs R k1)
  /\ (forall s, (outerLoopBlocks E1 TheLoop bs false k1 s).1 = false).
Proof.
  induction bs as [|BB bs IH]; intros R k0 k1 Hk Hf; simpl; [by split |].
  split.
  - apply sameVerdict_check.
    + intros R1. apply sameVerdict_check.
      * intros R2. by apply IH.
      * by apply (IH false k0 k1).
    + apply check_false_kept. by apply (IH false k0 k1).
  - apply check_false_kept. intros s. apply check_false_kept.
    by apply (IH false k0 k1).
Qed.

Lemma sameVerdict_OuterLoop TheLoop :
  sameVerdict (canVectorizeOuterLoop E0 TheLoop) (canVectorizeOuterLoop E1 TheLoop).
Proof.
  unfold canVectorizeOuterLoop.
  change (setupOuterLoopInductions E1 TheLoop)
    with (setupOuterLoopInductions E0 TheLoop).
  apply sameVerdict_outerLoopBlocks.
  - intros R. apply sameVerdict_check.
    + intros R1. apply sameVerdict_ok; [apply sameVerdict_refl | | done].
      intros R2. apply sameVerdict_refl.
    + by apply ok_false_kept.
  - apply check_false_kept. by apply ok_false_kept.
Qed.

(** The part of [canVectorize] for a loop with sub-loops. *)
Lemma sameVerdict_outer_part TheLoop R :
  sameVerdict
    (ok <- canVectorizeOuterLoop E0 TheLoop ;;
     if negb ok
     then bind (reportVectorizationFailure "unsupported outer loop"
                  "UnsupportedOuterLoop") (fun _ => ret false)
     else ret R)
    (ok <- canVectorizeOuterLoop E1 TheLoop ;;
     if negb ok
     then bind (reportVectorizationFailure "unsupported outer loop"
                  "UnsupportedOuterLoop") (fun _ => ret false)
     else ret R).
Proof.
  intros s. destruct (sameVerdict_OuterLoop TheLoop s) as [Ht Hf].
  rewrite (bind_run (canVectorizeOuterLoop E0 TheLoop)),
    (bind_run (canVectorizeOuterLoop E1 TheLoop)).
  destruct (canVectorizeOuterLoop E0 TheLoop s) as [ok s1].
  destruct ok; simpl in *.
  - rewrite (Ht eq_refl). simpl. by split.
  - destruct (canVectorizeOuterLoop E1 TheLoop s) as [ok1 s1'].
    simpl in Hf. rewrite (Hf eq_refl). simpl.
    unfold reportVectorizationFailure, emit. by mrun.
Qed.

(** X13.  Allowing extra analysis changes what [canVectorize] reports, not
    what it decides: run from the same state, the fail-fast analysis and
    the analysis that collects every reason return the same verdict, and
    when the verdict is true they end in the same state. *)
Theorem canVectorize_mode_independent (TheLoop : Loop) (s : Legality PSE) :
  (canVectorize (withExtraAnalysis true E) TheLoop s).1
  = (canVectorize (withExtraAnalysis false E) TheLoop s).1
  /\ ((canVectorize (withExtraAnalysis false E) TheLoop s).1 = true ->
      canVectorize (withExtraAnalysis true E) TheLoop s
      = canVectorize (withExtraAnalysis false E) TheLoop s).
Proof.
  assert (sameVerdict (canVectorize E0 TheLoop) (canVectorize E1 TheLoop)) as H.
  { unfold canVectorize.
    change (canVectorizeWithIfConvert E1 TheLoop)
      with (canVectorizeWithIfConvert E0 TheLoop).
    change (canVectorizeInstrs E1 TheLoop)
      with (canVectorizeInstrs E0 TheLoop).
    change (canVectorizeMemory E1 TheLoop)
      with (canVectorizeMemory E0 TheLoop).
    apply sameVerdict_ok; [apply sameVerdict_LoopNestCFG | |].
    - intros R. destruct (negb (Loop_empty TheLoop));
        [apply sameVerdict_outer_part |].
      apply sameVerdict_ok; [apply sameVerdict_refl | |].
      + intros R1. apply sameVerdict_ok; [apply sameVerdict_refl | |].
        * intros R2. apply sameVerdict_ok; [apply sameVerdict_refl | |].
          -- intros R3 s0. unfold bind, gets.
             apply sameVerdict_check; [intros R4; apply sameVerdict_refl | done].
          -- intros s0. unfold bind, gets. by apply check_false_kept.
        * apply ok_false_kept. intros s0. unfold bind, gets.
          by apply check_false_kept.
      + apply ok_false_kept. apply ok_false_kept. intros s0.
        unfold bind, gets. by apply check_false_kept.
    - intros s0. destruct (negb (Loop_empty TheLoop)).
      + unfold bind at 1.
        destruct (canVectorizeOuterLoop E1 TheLoop s0) as [ok s1].
        destruct ok; simpl; [done |].
        unfold reportVectorizationFailure, emit. by mrun.
      + revert s0. apply ok_false_kept. apply ok_false_kept.
        apply ok_false_kept. intros s0. unfold bind, gets.
        by apply check_false_kept. }
  destruct (H s) as [Ht Hf].
  destruct (canVectorize E0 TheLoop s) as [ok s1]. destruct ok; simpl in *.
  - rewrite (Ht eq_refl). by split.
  - rewrite (Hf eq_refl). by split.
Qed.

End Modes.

(** ** A legal inner loop *)

Section InnerLoop.
Context {PSE : Type} (E : Env PSE) (TheLoop : Loop).

Lemma check_true_inv bad rep R (k : bool -> M (Legality PSE) bool) s :
  (forall s', (k false s').1 = false) ->
  (check E bad rep R k s).1 = true ->
  bad = false /\ R = true /\ check E bad rep R k s = k true s.
Proof.
  intros Hk Ht. destruct bad.
  - rewrite check_false in Ht; auto. done.
  - destruct R; [done |]. unfold check in Ht. by rewrite Hk in Ht.
Qed.

Lemma ok_true_inv (m : M (Legality PSE) bool) rep R
    (k : bool -> M (Legality PSE) bool) s :
  (forall s', (k false s').1 = false) ->
  ((ok <- m ;; check E (negb ok) rep R k) s).1 = true ->
  (m s).1 = true /\ R = true
  /\ (ok <- m ;; check E (negb ok) rep R k) s = k true (m s).2.
Proof.
  intros Hk. rewrite bind_run. intros Ht.
  destruct (check_true_inv _ _ _ _ _ Hk Ht) as (Hb & HR & Heq).
  apply negb_false_iff in Hb. by rewrite Heq.
Qed.

Lemma canVectorizeMemory_true (s : Legality PSE) :
  (canVectorizeMemory E TheLoop s).1 = true ->
  LAI (canVectorizeMemory E TheLoop s).2 = Some (GetLAA E TheLoop)
  /\ LAI_canVectorizeMemory (GetLAA E TheLoop) = true
  /\ hasDependenceInvolvingLoopInvariantAddress (GetLAA E TheLoop) = false
  /\ NumRuntimePointerChecks (Requirements (canVectorizeMemory E TheLoop s).2)
     = getNumRuntimePointerChecks (GetLAA E TheLoop).
Proof.
  unfold canVectorizeMemory, reportVectorizationFailure, emit,
    addRuntimePointerChecks.
  destruct (LAI_canVectorizeMemory (GetLAA E TheLoop));
    destruct (hasDependenceInvolvingLoopInvariantAddress (GetLAA E TheLoop));
    destruct (LAI_getReport (GetLAA E TheLoop));
    unfold bind, modify, gets, ret; simpl; intros; done.
Qed.

(** X14.  When [canVectorize] accepts a loop without sub-loops, every
    stage has passed: if-conversion is enabled unless the loop is a single
    block, every phi of the header has two incoming values and has been
    classified, the memory analysis is recorded, can vectorize the loop and
    reports no dependence on a loop-invariant address, the number of
    runtime pointer checks it asks for is recorded, and the complexity of
    the assumptions is within the threshold, the one for pragmas when
    vectorization is forced. *)
Theorem canVectorize_inner_success (s : Legality PSE) :
  Loop_empty TheLoop = true ->
  (canVectorize E TheLoop s).1 = true ->
  (getNumBlocks TheLoop <> 1 -> EnableIfConversion (config E) = true)
  /\ (forall BB I,
        In BB (blocks TheLoop) -> bptr BB = getHeader TheLoop ->
        In I (insts BB) -> isPHI I = true ->
        getNumIncomingValues I = 2
        /\ classified (canVectorize E TheLoop s).2 I)
  /\ LAI (canVectorize E TheLoop s).2 = Some (GetLAA E TheLoop)
  /\ LAI_canVectorizeMemory (GetLAA E TheLoop) = true
  /\ hasDependenceInvolvingLoopInvariantAddress (GetLAA E TheLoop) = false
  /\ NumRuntimePointerChecks (Requirements (canVectorize E TheLoop s).2)
     = getNumRuntimePointerChecks (GetLAA E TheLoop)
  /\ getComplexity E (PSEst (canVectorize E TheLoop s).2)
     <= (if getForce (Hints (canVectorize E TheLoop s).2) =? FK_Enabled
         then PragmaVectorizeSCEVCheckThreshold (config E)
         else VectorizeSCEVCheckThreshold (config E)).
Proof.
  intros Hempty. unfold canVectorize. rewrite Hempty. cbn [negb].
  set (last := fun Result : bool =>
         s0 <- gets (fun s0 : Legality PSE => s0) ;;
         check E
           ((if getForce (Hints s0) =? FK_Enabled
             then PragmaVectorizeSCEVCheckThreshold (config E)
             else VectorizeSCEVCheckThreshold (config E))
            <? getComplexity E (PSEst s0))
           (reportVectorizationFailure
              "Too many SCEV assumptions need to be made and checked at runtime"
              "TooManySCEVRunTimeChecks")
           Result (fun Result => ret Result)).
  assert (forall s', (last false s').1 = false) as Hlast.
  { intros s'. unfold last, bind, gets. by apply check_false_kept. }
  set (mem := fun Result : bool =>
         ok <- canVectorizeMemory E TheLoop ;;
         check E (negb ok) (ret tt) Result last).
  assert (forall s', (mem false s').1 = false) as Hmem
      by (apply ok_false_kept, Hlast).
  set (ins := fun Result : bool =>
         ok <- canVectorizeInstrs E TheLoop ;;
         check E (negb ok) (ret tt) Result mem).
  assert (forall s', (ins false s').1 = false) as Hins
      by (apply ok_false_kept, Hmem).
  set (ifc := fun Result : bool =>
         ok <- (if negb (getNumBlocks TheLoop =? 1)
                then canVectorizeWithIfConvert E TheLoop else ret true) ;;
         check E (negb ok) (ret tt) Result ins).
  assert (forall s', (ifc false s').1 = false) as Hifc
      by (apply ok_false_kept, Hins).
  intros Ht.
  destruct (ok_true_inv _ _ _ _ _ Hifc Ht) as (_ & _ & ->).
  destruct (ok_true_inv _ _ _ _ _ Hifc Ht) as (_ & _ & Heq).
  rewrite Heq in Ht. clear Heq.
  set (s1 := (canVectorizeLoopNestCFG E TheLoop s).2) in *.
  unfold ifc in Ht |- *.
  destruct (ok_true_inv _ _ _ _ _ Hins Ht) as (Hif & _ & Heq).
  rewrite Heq in Ht |- *. clear Heq.
  set (s2 := ((if negb (getNumBlocks TheLoop =? 1)
               then canVectorizeWithIfConvert E TheLoop else ret true) s1).2)
    in *.
  unfold ins in Ht |- *.
  destruct (ok_true_inv _ _ _ _ _ Hmem Ht) as (Hi & _ & Heq).
  rewrite Heq in Ht |- *. clear Heq.
  set (s3 := (canVectorizeInstrs E TheLoop s2).2) in *.
  unfold mem in Ht |- *.
  destruct (ok_true_inv _ _ _ _ _ Hlast Ht) as (Hm & _ & Heq).
  rewrite Heq in Ht |- *. clear Heq.
  set (s4 := (canVectorizeMemory E TheLoop s3).2) in *.
  assert (last true s4 = (true, s4)
          /\ ((if getForce (Hints s4) =? FK_Enabled
               then PragmaVectorizeSCEVCheckThreshold (config E)
               else VectorizeSCEVCheckThreshold (config E))
              <? getComplexity E (PSEst s4)) = false) as [Hfin Hc].
  { revert Ht. unfold last, bind, gets, check. cbn [fst snd].
    destruct (_ <? _).
    - unfold reportVectorizationFailure, emit.
      destruct (allowExtraAnalysis E); by mrun.
    - done. }
  rewrite Hfin. cbn [snd]. clear Hfin Ht.
  destruct (canVectorizeMemory_true s3 Hm) as (HL & Hcan & Hdep & Hnum).
  fold s4 in HL, Hnum.
  split; [| split; [| repeat split; try done]].
  - intros Hnb. destruct (Z.eqb_spec (getNumBlocks TheLoop) 1); [done |].
    simpl in Hif. unfold canVectorizeWithIfConvert in Hif.
    destruct (EnableIfConversion (config E)); [done |].
    simpl in Hif. revert Hif. unfold reportVectorizationFailure, emit. by mrun.
  - intros BB I HB Hh HI HP.
    destruct (canVectorizeInstrs_classified E TheLoop s2 Hi BB HB Hh I HI HP)
      as [Hn Hc'].
    split; [exact Hn |].
    eapply classified_grows; [apply (canVectorizeMemory_grows E TheLoop s3) |].
    exact Hc'.
  - apply Z.ltb_ge in Hc. exact Hc.
Qed.

End InnerLoop.

(** ** What the scan of the instructions guarantees *)

Section Instructions.
Context {PSE : Type} (E : Env PSE) (TheLoop : Loop).






(** The end of [canVectorizeInstrs], once the scan has succeeded in state
    [s1]: what the function returns and the state it ends in. *)
Lemma canVectorizeInstrs_tail (s : Legality PSE) :
  (canVectorizeInstrs E TheLoop s).1 = true ->
  exists s1,
    scanBlocks E TheLoop (blocks TheLoop)
      (set_HasFunNoNaNAttr (no_nans_fp_math E =? "true")%string s)
    = (true, s1)
    /\ ((canVectorizeInstrs E TheLoop s).2 = s1
        \/ (canVectorizeInstrs E TheLoop s).2 = set_PrimaryInduction None s1)
    /\ (PrimaryInduction s1 = None ->
        Inductions s1 <> ∅ /\ WidestIndTy s1 <> None)
    /\ (forall P, PrimaryInduction (canVectorizeInstrs E TheLoop s).2 = Some P ->
                  WidestIndTy s1 = Some (getType P)).
Proof.
  destruct (canVectorizeInstrs E TheLoop s) as [r sf] eqn:Hr. simpl.
  intros ->. unfold canVectorizeInstrs in Hr.
  unfold bind at 1, modify at 1 in Hr. unfold bind at 1 in Hr.
  destruct (scanBlocks E TheLoop (blocks TheLoop) _) as [ok s1].
  destruct ok; simpl negb in Hr; cbv iota in Hr; [| by inversion Hr].
  exists s1. split; [done |]. revert Hr.
  unfold reportVectorizationFailure, emit.
  mrun; intros Hr; inversion Hr; subst; clear Hr; simpl;
    repeat match goal with
           | H : bool_decide _ = true |- _ => apply bool_decide_eq_true in H
           | H : bool_decide _ = false |- _ => apply bool_decide_eq_false in H
           | H : negb _ = true |- _ => apply negb_true_iff in H
           | H : negb _ = false |- _ => apply negb_false_iff in H
           end;
    repeat split; auto; try congruence; try (intros; congruence).
Qed.


#[local] Instance carries_primary_preorder : PreOrder (@carries_primary PSE).
Proof.
  split.
  - intros s H. exact H.
  - intros s1 s2 s3 H12 H23 H. apply H23, H12, H.
Qed.

Lemma emit_carries r : keeps carries_primary (@emit PSE r).
Proof. unfold emit. keeps_step. unfold carries_primary. by simpl. Qed.

Lemma report_carries msg tag :
  keeps carries_primary (@reportVectorizationFailure PSE msg tag).
Proof.
  unfold reportVectorizationFailure.
  keeps_step; [keeps_step | apply emit_carries].
Qed.

Lemma addInductionPhi_carries Phi ID :
  keeps carries_primary (addInductionPhi E TheLoop Phi ID).
Proof.
  intros s _ _. destruct (addInductionPhi_maps E TheLoop Phi ID s) as (-> & _).
  apply insert_non_empty.
Qed.

Ltac carry_step :=
  first [ apply emit_carries
        | apply report_carries
        | apply addInductionPhi_carries
        | keeps_step ].

Ltac carries_auto :=
  repeat carry_step;
  try (unfold carries_primary, primaryIsInduction; repeat case_match; simpl;
       tauto).

Lemma instrStep_carries BB I : keeps carries_primary (instrStep E TheLoop BB I).
Proof.
  unfold instrStep, headerPhi, nonPhiInstr, CFGNotUnderstood. carries_auto.
Qed.

Lemma scanInstrs_carries BB l : keeps carries_primary (scanInstrs E TheLoop BB l).
Proof.
  induction l as [|i l IH]; simpl; carries_auto. apply instrStep_carries.
Qed.

Lemma scanBlocks_carries bs : keeps carries_primary (scanBlocks E TheLoop bs).
Proof.
  induction bs as [|BB bs IH]; simpl; carries_auto. apply scanInstrs_carries.
Qed.

(** X16.  When [canVectorizeInstrs] returns true, a primary induction, if
    one is left, has the widest induction type; and if the analysis
    started with no primary induction, or one that came with an induction,
    at least one induction is recorded. *)
Theorem canVectorizeInstrs_primary (s : Legality PSE) :
  (canVectorizeInstrs E TheLoop s).1 = true ->
  (forall P, PrimaryInduction (canVectorizeInstrs E TheLoop s).2 = Some P ->
             WidestIndTy (canVectorizeInstrs E TheLoop s).2 = Some (getType P))
  /\ (primaryIsInduction s ->
      Inductions (canVectorizeInstrs E TheLoop s).2 <> ∅).
Proof.
  intros Ht.
  destruct (canVectorizeInstrs_tail s Ht) as (s1 & Hs & Hf & Hnone & Hprim).
  split.
  - intros P HP. specialize (Hprim P HP). by destruct Hf as [-> | ->].
  - intros Hinv.
    assert (primaryIsInduction s1) as Hinv1.
    { pose proof (scanBlocks_carries (blocks TheLoop)
                    (set_HasFunNoNaNAttr (no_nans_fp_math E =? "true")%string s))
        as Hc.
      rewrite Hs in Hc. apply Hc. exact Hinv. }
    assert (Inductions s1 <> ∅) as Hne.
    { destruct (PrimaryInduction s1) eqn:HP1.
      - apply Hinv1. by rewrite HP1.
      - by apply Hnone. }
    by destruct Hf as [-> | ->].
Qed.


Lemma scanInstrs_all (P : Instruction -> Prop) BB :
  (forall I (s : Legality PSE), (instrStep E TheLoop BB I s).1 = true -> P I) ->
  forall l (s : Legality PSE),
    (scanInstrs E TheLoop BB l s).1 = true -> forall I, In I l -> P I.
Proof.
  intros HP. induction l as [|i l IH]; intros s Ht I Hin; [done |].
  simpl in Ht. rewrite bind_run in Ht.
  destruct (instrStep E TheLoop BB i s).1 eqn:Hi; [| done].
  destruct Hin as [<- | Hin]; [by eapply HP | by eapply IH].
Qed.

Lemma scanBlocks_all (P : BasicBlock -> Instruction -> Prop) :
  (forall BB I (s : Legality PSE),
     (instrStep E TheLoop BB I s).1 = true -> P BB I) ->
  forall bs (s : Legality PSE),
    (scanBlocks E TheLoop bs s).1 = true ->
    forall BB, In BB bs -> forall I, In I (insts BB) -> P BB I.
Proof.
  intros HP. induction bs as [|B bs IH]; intros s Ht BB HBB I HI; [done |].
  simpl in Ht. rewrite bind_run in Ht.
  destruct (scanInstrs E TheLoop B (insts B) s).1 eqn:HB; [| done].
  destruct HBB as [<- | HBB].
  - eapply (scanInstrs_all (P B)); eauto.
  - by eapply IH.
Qed.

(** X18.  When [canVectorizeInstrs] returns true, every phi of the loop,
    in the header or elsewhere, has an integer, a floating-point or a
    pointer type. *)
Theorem canVectorizeInstrs_phi_types (s : Legality PSE) (BB : BasicBlock)
    (Phi : Instruction) :
  (canVectorizeInstrs E TheLoop s).1 = true ->
  In BB (blocks TheLoop) -> In Phi (insts BB) -> isPHI Phi = true ->
  isIntegerTy (getType Phi) || isFloatingPointTy (getType Phi)
  || isPointerTy (getType Phi) = true.
Proof.
  intros Ht HBB HPhi.
  destruct (canVectorizeInstrs_tail s Ht) as (s1 & Hs & _).
  refine (scanBlocks_all
            (fun _ I => isPHI I = true ->
                        isIntegerTy (getType I) || isFloatingPointTy (getType I)
                        || isPointerTy (getType I) = true)
            _ (blocks TheLoop) _ _ BB HBB Phi HPhi).
  - intros B I s0 Hi HP. revert Hi. unfold instrStep. rewrite HP.
    destruct (isIntegerTy (getType I)); [done |].
    destruct (isFloatingPointTy (getType I)); [done |].
    destruct (isPointerTy (getType I)); [done |].
    cbn [negb andb]. unfold CFGNotUnderstood. by rewrite bind_run.
  - by rewrite Hs.
Qed.

End Instructions.

(** ** If-conversion of the whole loop *)

Section IfConversionWhole.
Context {PSE : Type} (E : Env PSE) (TheLoop : Loop).

Lemma getLoadStorePointers_iff (l : list Instruction) :
  forall (Safe : gset ValuePtr) (Ptr : ValuePtr),
  Ptr ∈ fold_left
          (fun (Safe : gset ValuePtr) I => match getLoadStorePointerOperand I with
                         | Some Ptr => {[Ptr]} ∪ Safe
                         | None => Safe
                         end) l Safe
  <-> Ptr ∈ Safe
      \/ exists I, In I l /\ getLoadStorePointerOperand I = Some Ptr.
Proof.
  induction l as [|i l IH]; intros Safe Ptr; simpl.
  - split; [auto | intros [H | (I & [] & _)]; exact H].
  - rewrite IH. split.
    + intros [H | (I & HI & HP)].
      * destruct (getLoadStorePointerOperand i) as [p|] eqn:Hp; [| by left].
        apply elem_of_union in H as [H | H]; [| by left].
        apply elem_of_singleton in H as ->. right. exists i. auto.
      * right. exists I. auto.
    + intros [H | (I & [<- | HI] & HP)].
      * left. destruct (getLoadStorePointerOperand i); set_solver.
      * left. rewrite HP. set_solver.
      * right. exists I. auto.
Qed.

(** X19.  The safe pointers of [canVectorizeWithIfConvert] are exactly
    the addresses loaded from or stored to in the blocks of the loop that
    need no predication. *)
Theorem collectSafePointers_iff (Ptr : ValuePtr) :
  Ptr ∈ collectSafePointers E TheLoop
  <-> exists BB I,
        In BB (blocks TheLoop)
        /\ blockNeedsPredication E BB TheLoop = false
        /\ In I (insts BB)
        /\ getLoadStorePointerOperand I = Some Ptr.
Proof.
  unfold collectSafePointers.
  assert (forall bs (Safe : gset ValuePtr),
    Ptr ∈ fold_left
            (fun (Safe : gset ValuePtr) BB =>
               if blockNeedsPredication E BB TheLoop then Safe
               else
                 fold_left
                   (fun (Safe : gset ValuePtr) I => match getLoadStorePointerOperand I with
                                  | Some Ptr => {[Ptr]} ∪ Safe
                                  | None => Safe
                                  end) (insts BB) Safe) bs Safe
    <-> Ptr ∈ Safe
        \/ exists BB I,
             In BB bs
             /\ blockNeedsPredication E BB TheLoop = false
             /\ In I (insts BB)
             /\ getLoadStorePointerOperand I = Some Ptr) as Hgen.
  { induction bs as [|B bs IH]; intros Safe; simpl.
    - split; [auto | intros [H | (BB & I & [] & _)]; exact H].
    - rewrite IH. destruct (blockNeedsPredication E B TheLoop) eqn:HB.
      + split.
        * intros [H | (BB & I & HBB & Hrest)]; [by left |].
          right. exists BB, I. auto.
        * intros [H | (BB & I & [<- | HBB] & Hnp & Hrest)]; [by left | |].
          -- congruence.
          -- right. exists BB, I. auto.
      + rewrite getLoadStorePointers_iff. split.
        * intros [[H | (I & HI & HP)] | (BB & I & HBB & Hrest)].
          -- by left.
          -- right. exists B, I. auto.
          -- right. exists BB, I. auto.
        * intros [H | (BB & I & [<- | HBB] & Hnp & HI & HP)].
          -- left. by left.
          -- left. right. exists I. auto.
          -- right. exists BB, I. auto. }
  rewrite Hgen. split.
  - intros [H | H]; [set_solver | exact H].
  - intros H. by right.
Qed.

Lemma predicateInstr_ORE Safe I (s : Legality PSE) :
  ORE (predicateInstr E TheLoop Safe I s).2 = ORE s.
Proof. unfold predicateInstr. by mrun. Qed.

Lemma predicateInstrs_ORE Safe l : forall (s : Legality PSE),
  ORE (predicateInstrs E TheLoop Safe l s).2 = ORE s.
Proof.
  induction l as [|i l IH]; intros s; [done |].
  simpl. rewrite bind_run.
  destruct (predicateInstr E TheLoop Safe i s).1 eqn:Hok.
  - by rewrite IH, predicateInstr_ORE.
  - simpl. apply predicateInstr_ORE.
Qed.

Lemma report_oneRemark msg tag (s : Legality PSE) :
  oneRemark false s (reportVectorizationFailure msg tag s).2.
Proof.
  unfold reportVectorizationFailure, emit, oneRemark. simpl. eauto.
Qed.

Lemma ifConvertBlocks_verdict Safe bs : forall (s : Legality PSE),
  (ifConvertBlocks E TheLoop Safe bs s).1
  = forallb (ifConvertible E TheLoop Safe) bs
  /\ oneRemark (ifConvertBlocks E TheLoop Safe bs s).1 s
       (ifConvertBlocks E TheLoop Safe bs s).2.
Proof.
  induction bs as [|B bs IH]; intros s; [done |].
  assert (forall (s0 : Legality PSE) msg tag (b : bool),
            oneRemark false s0
              (bind (reportVectorizationFailure msg tag) (fun _ => ret b) s0).2) as Hrep.
  { intros s0 msg tag b. rewrite bind_run. apply report_oneRemark. }
  assert (forall (s0 : Legality PSE) msg tag (b : bool),
            (bind (@reportVectorizationFailure PSE msg tag) (fun _ => ret b) s0).1 = b)
    as Hres.
  { intros s0 msg tag b. by rewrite bind_run. }
  simpl. unfold ifConvertible at 1. unfold NoCFGForSelect.
  destruct (getTerminator B) eqn:HT.
  3: { rewrite Hres. split; [done | apply Hrep]. }
  all: destruct (blockNeedsPredication E B TheLoop) eqn:HB.
  all: try (rewrite bind_run, blockCanBePredicated_result;
            pose proof (predicateInstrs_ORE Safe (insts B) s) as HO;
            fold (blockCanBePredicated E TheLoop B Safe) in HO;
            destruct (forallb (predicable E Safe) (insts B)); cbn [negb andb orb];
            [ destruct (IH (blockCanBePredicated E TheLoop B Safe s).2)
                as [-> Hone];
              split; [done |];
              revert Hone; unfold oneRemark; rewrite HO; by intros ?
            | rewrite Hres; split; [done |];
              pose proof (Hrep (blockCanBePredicated E TheLoop B Safe s).2
                            "control flow cannot be substituted for a select"
                            "NoCFGForSelect" false) as Hone;
              revert Hone; unfold oneRemark; rewrite HO; by intros ? ]).
  all: destruct (Pos.eqb (bptr B) (getHeader TheLoop));
       destruct (canIfConvertPHINodes E B); cbn [negb andb orb];
       try apply IH; rewrite Hres; split; [done | apply Hrep].
Qed.

(** X20.  The verdict of [canVectorizeWithIfConvert] depends on the loop
    alone, not on what the analysis has found so far: it is true exactly
    when if-conversion is enabled and every block passes.  A run that
    succeeds leaves the remark log as it is, and a run that fails adds
    exactly one analysis remark. *)
Theorem canVectorizeWithIfConvert_verdict (s : Legality PSE) :
  (canVectorizeWithIfConvert E TheLoop s).1
  = EnableIfConversion (config E)
    && forallb (ifConvertible E TheLoop (collectSafePointers E TheLoop))
         (blocks TheLoop)
  /\ ((canVectorizeWithIfConvert E TheLoop s).1 = true ->
      ORE (canVectorizeWithIfConvert E TheLoop s).2 = ORE s)
  /\ ((canVectorizeWithIfConvert E TheLoop s).1 = false ->
      exists r,
        ORE (canVectorizeWithIfConvert E TheLoop s).2 = (ORE s ++ [r])%list
        /\ remarkKind r = RemarkAnalysis).
Proof.
  unfold canVectorizeWithIfConvert.
  destruct (EnableIfConversion (config E)); cbn [negb andb orb].
  - destruct (ifConvertBlocks_verdict (collectSafePointers E TheLoop)
                (blocks TheLoop) s) as [Hv Hone].
    split; [by rewrite Hv |]. unfold oneRemark in Hone.
    split; intros Hr; by rewrite Hr in Hone.
  - rewrite bind_run. simpl. split; [done |]. split; [done |].
    intros _. eauto.
Qed.

Lemma ifConvertBlocks_MaskedOp Safe bs : forall (s : Legality PSE),
  (forall BB, In BB bs -> Forall wellFormedInst (insts BB)) ->
  (ifConvertBlocks E TheLoop Safe bs s).1 = true ->
  forall v,
    v ∈ MaskedOp (ifConvertBlocks E TheLoop Safe bs s).2
    <-> v ∈ MaskedOp s
        \/ exists BB I,
             In BB bs /\ blockNeedsPredication E BB TheLoop = true
             /\ In I (insts BB) /\ needsMask TheLoop Safe I = true
             /\ ival I = v.
Proof.
  induction bs as [|B bs IH]; intros s Hwf Ht v.
  - simpl. split; [auto | intros [H | (BB & I & [] & _)]; exact H].
  - assert (forall (s0 : Legality PSE) msg tag,
              (bind (@reportVectorizationFailure PSE msg tag)
                 (fun _ => ret false) s0).1
              = true -> False) as Hres.
    { intros s0 msg tag. by rewrite bind_run. }
    assert (forall BB, In BB bs -> Forall wellFormedInst (insts BB)) as Hwf'
        by (intros BB HBB; apply Hwf; by right).
    revert Ht. simpl. unfold NoCFGForSelect.
    destruct (getTerminator B) eqn:HT.
    3: { intros Ht. by apply Hres in Ht. }
    all: destruct (blockNeedsPredication E B TheLoop) eqn:HB.
    all: try (rewrite bind_run;
              pose proof (predicateInstrs_MaskedOp E TheLoop Safe (insts B) s
                            (Hwf B (or_introl eq_refl))) as HM;
              fold (blockCanBePredicated E TheLoop B Safe) in HM;
              destruct (blockCanBePredicated E TheLoop B Safe s).1;
              cbn [negb andb orb];
              [| intros Ht; by apply Hres in Ht];
              intros Ht; rewrite (IH _ Hwf' Ht v), (HM eq_refl);
              rewrite elem_of_union, elem_of_list_to_set, list_elem_of_In,
                in_map_iff;
              split;
              [ intros [[(I & HI & Hin) | H] | (BB & I & HBB & Hrest)];
                [ apply List.filter_In in Hin as [Hin Hn];
                  right; exists B, I; auto
                | by left
                | right; exists BB, I; auto ]
              | intros [H | (BB & I & [<- | HBB] & Hnp & HI & Hn & Hv)];
                [ left; by right
                | left; left; exists I; split; [done |];
                  apply List.filter_In; auto
                | right; exists BB, I; auto ] ]).
    all: destruct (negb (Pos.eqb (bptr B) (getHeader TheLoop))
                   && negb (canIfConvertPHINodes E B));
         [intros Ht; by apply Hres in Ht |];
         intros Ht; rewrite (IH _ Hwf' Ht v);
         split;
         [ intros [H | (BB & I & HBB & Hrest)];
           [by left | right; exists BB, I; auto]
         | intros [H | (BB & I & [<- | HBB] & Hnp & Hrest)];
           [by left | congruence | right; exists BB, I; auto] ].
Qed.

(** X21.  When [canVectorizeWithIfConvert] returns true on a loop whose
    loads and stores are as LLVM reports them, the masked operations are
    the ones recorded before together with, from the blocks that need
    predication, every store and every load from a pointer that is not
    safe (the loads only if the loop is not annotated parallel). *)
Theorem canVectorizeWithIfConvert_MaskedOp (s : Legality PSE) (v : ValuePtr) :
  (forall BB, In BB (blocks TheLoop) -> Forall wellFormedInst (insts BB)) ->
  (canVectorizeWithIfConvert E TheLoop s).1 = true ->
  v ∈ MaskedOp (canVectorizeWithIfConvert E TheLoop s).2
  <-> v ∈ MaskedOp s
      \/ exists BB I,
           In BB (blocks TheLoop)
           /\ blockNeedsPredication E BB TheLoop = true
           /\ In I (insts BB)
           /\ needsMask TheLoop (collectSafePointers E TheLoop) I = true
           /\ ival I = v.
Proof.
  intros Hwf. unfold canVectorizeWithIfConvert.
  destruct (negb (EnableIfConversion (config E))).
  - by rewrite bind_run.
  - intros Ht. by apply ifConvertBlocks_MaskedOp.
Qed.

End IfConversionWhole.

(** ** Outer loops *)

Section OuterLoop.
Context {PSE : Type} (E : Env PSE) (TheLoop : Loop).

Lemma addInductionPhi_intInduction Phi ID (s : Legality PSE) :
  getKind ID = IK_IntInduction ->
  intInductionAt (addInductionPhi E TheLoop Phi ID s).2 (ival Phi)
  /\ (forall v, intInductionAt s v ->
                intInductionAt (addInductionPhi E TheLoop Phi ID s).2 v).
Proof.
  intros Hk. unfold intInductionAt.
  destruct (addInductionPhi_maps E TheLoop Phi ID s) as (-> & _).
  split.
  - exists ID. by rewrite lookup_insert_eq.
  - intros v (ID' & Hl & Hk').
    destruct (decide (v = ival Phi)) as [-> | Hne].
    + exists ID. by rewrite lookup_insert_eq.
    + exists ID'. by rewrite lookup_insert_ne.
Qed.

Lemma setupOuterLoopInductions_phis (s : Legality PSE) :
  (forall v, intInductionAt s v ->
             intInductionAt (setupOuterLoopInductions E TheLoop s).2 v)
  /\ ((setupOuterLoopInductions E TheLoop s).1 = true ->
      forall Phi,
        In Phi (match findBlock TheLoop (getHeader TheLoop) with
                | Some BB => phis BB
                | None => []
                end) ->
        intInductionAt (setupOuterLoopInductions E TheLoop s).2 (ival Phi)).
Proof.
  unfold setupOuterLoopInductions. cbv zeta.
  generalize (match findBlock TheLoop (getHeader TheLoop) with
              | Some BB => phis BB
              | None => []
              end) as l.
  intros l. revert s. induction l as [|Phi l IH]; intros s.
  - split; [done |]. intros _ P [].
  - cbn [In]. rewrite !bind_run. cbn [gets fst snd].
    destruct (isInductionPHI E Phi TheLoop (PSEst s) false) as [r pse'].
    rewrite !bind_run. cbn [modify fst snd].
    destruct r as [ID |]; [| split; [by intros v Hv | done]].
    destruct (bool_decide_reflect (getKind ID = IK_IntInduction)) as [Hk | Hk];
      [| split; [by intros v Hv | done]].
    rewrite !bind_run. cbn [ret fst snd].
    destruct (addInductionPhi_intInduction Phi ID (set_PSEst pse' s) Hk)
      as [Hphi Hkeep].
    destruct (IH (addInductionPhi E TheLoop Phi ID (set_PSEst pse' s)).2)
      as [IHkeep IHall].
    split.
    + intros v Hv. apply IHkeep, Hkeep. exact Hv.
    + intros Ht P [<- | HP]; [by apply IHkeep | by apply IHall].
Qed.

Lemma addInductionPhi_ORE Phi ID (s : Legality PSE) :
  ORE (addInductionPhi E TheLoop Phi ID s).2 = ORE s.
Proof. unfold addInductionPhi. by mrun. Qed.

Lemma setupOuterLoopInductions_ORE (s : Legality PSE) :
  ORE (setupOuterLoopInductions E TheLoop s).2 = ORE s.
Proof.
  unfold setupOuterLoopInductions. cbv zeta.
  generalize (match findBlock TheLoop (getHeader TheLoop) with
              | Some BB => phis BB
              | None => []
              end) as l.
  intros l. revert s. induction l as [|Phi l IH]; intros s; [done |].
  rewrite !bind_run. cbn [gets fst snd].
  destruct (isInductionPHI E Phi TheLoop (PSEst s) false) as [r pse'].
  rewrite !bind_run. cbn [modify fst snd].
  destruct r as [ID |]; [| done].
  destruct (bool_decide (getKind ID = IK_IntInduction)); [| done].
  rewrite !bind_run. cbn [ret fst snd].
  by rewrite IH, addInductionPhi_ORE.
Qed.

(** X22.  When [setupOuterLoopInductions] returns true, every phi of the
    header of the outer loop is recorded as an induction, and the
    induction recorded for it is an integer induction. *)
Theorem setupOuterLoopInductions_true (s : Legality PSE) (BB : BasicBlock)
    (Phi : Instruction) :
  (setupOuterLoopInductions E TheLoop s).1 = true ->
  findBlock TheLoop (getHeader TheLoop) = Some BB ->
  In Phi (phis BB) ->
  intInductionAt (setupOuterLoopInductions E TheLoop s).2 (ival Phi).
Proof.
  intros Ht HBB HPhi.
  apply (proj2 (setupOuterLoopInductions_phis s) Ht). by rewrite HBB.
Qed.

Lemma outerLoopBlocks_true bs : forall R (k : bool -> M (Legality PSE) bool) s,
  (forall s', (k false s').1 = false) ->
  (outerLoopBlocks E TheLoop bs R k s).1 = true ->
  R = true
  /\ forallb (outerBlockSupported E TheLoop) bs = true
  /\ outerLoopBlocks E TheLoop bs R k s = k true s.
Proof.
  induction bs as [|BB bs IH]; intros R k s Hk Ht.
  - simpl in *. destruct R; [done |]. by rewrite Hk in Ht.
  - simpl in Ht |- *.
    assert (forall R' s', (outerLoopBlocks E TheLoop bs R' k s').1 = true ->
                          R' = true) as Hin
        by (intros R' s' H'; by destruct (IH R' k s' Hk H')).
    assert (forall s', (outerLoopBlocks E TheLoop bs false k s').1 = false)
      as Hf.
    { intros s'. apply not_true_is_false. intros H'.
      by specialize (Hin false s' H'). }
    assert (forall s',
              (check E
                 (negb (EnableVPlanPredication (config E))
                  && match getTerminator BB with
                     | BrCond cond succ0 succ1 =>
                         negb (Loop_isLoopInvariant E TheLoop cond)
                         && negb (LI_isLoopHeader E succ0)
                         && negb (LI_isLoopHeader E succ1)
                     | _ => false
                     end)
                 (CFGNotUnderstood (PSE := PSE)) false
                 (fun Result => outerLoopBlocks E TheLoop bs Result k) s').1
              = false) as Hf1.
    { intros s'. apply check_false; auto. }
    destruct (check_true_inv E _ _ _ _ _ Hf1 Ht) as (Hb1 & -> & Heq1).
    rewrite Heq1 in Ht |- *.
    destruct (check_true_inv E _ _ _ _ _ Hf Ht) as (Hb2 & _ & Heq2).
    rewrite Heq2 in Ht |- *.
    destruct (IH true k s Hk Ht) as (_ & Hall & Heq3).
    split; [done |]. split; [| exact Heq3].
    apply andb_true_iff. split; [| exact Hall].
    unfold outerBlockSupported.
    destruct (getTerminator BB); [done | | done].
    destruct (EnableVPlanPredication (config E)); [done |].
    cbn [negb andb] in Hb2.
    destruct (Loop_isLoopInvariant E TheLoop cond); [done |].
    destruct (LI_isLoopHeader E succ0); [done |].
    by destruct (LI_isLoopHeader E succ1).
Qed.

Lemma outerLoopBlocks_pass bs : forall (k : bool -> M (Legality PSE) bool) s,
  forallb (outerBlockSupported E TheLoop) bs = true ->
  outerLoopBlocks E TheLoop bs true k s = k true s.
Proof.
  induction bs as [|BB bs IH]; intros k s Hall; [done |].
  simpl in Hall |- *. apply andb_true_iff in Hall as [HBB Hall].
  unfold outerBlockSupported in HBB. unfold check.
  destruct (getTerminator BB); [| | done].
  - rewrite andb_false_r. by apply IH.
  - destruct (EnableVPlanPredication (config E)); [by apply IH |].
    destruct (Loop_isLoopInvariant E TheLoop cond); [by apply IH |].
    destruct (LI_isLoopHeader E succ0); [by apply IH |].
    destruct (LI_isLoopHeader E succ1); [by apply IH | done].
Qed.

(** What [canVectorizeOuterLoop] does once it is through with the
    blocks. *)
Local Abbreviation outerLoopRest :=
  (fun Result : bool =>
     check E (negb (isUniformLoopNest E TheLoop TheLoop))
       (CFGNotUnderstood (PSE := PSE)) Result
       (fun Result0 : bool =>
          bind (setupOuterLoopInductions E TheLoop)
            (fun ok =>
               check E (negb ok)
                 (reportVectorizationFailure
                    "Unsupported outer loop Phi(s)" "UnsupportedPhi")
                 Result0 (fun Result1 : bool => ret Result1)))).

Lemma outerLoopRest_false (s : Legality PSE) : (outerLoopRest false s).1 = false.
Proof.
  apply check_false; [| by right].
  intros s'. rewrite bind_run. by apply check_false; [| right].
Qed.

Lemma outerLoopRest_pass (s : Legality PSE) :
  isUniformLoopNest E TheLoop TheLoop = true ->
  (setupOuterLoopInductions E TheLoop s).1 = true ->
  outerLoopRest true s = (true, (setupOuterLoopInductions E TheLoop s).2).
Proof.
  intros Hu Hs. rewrite Hu. unfold check at 1. cbn [negb].
  by rewrite bind_run, Hs.
Qed.

Lemma outerLoopRest_true (s : Legality PSE) :
  (outerLoopRest true s).1 = true ->
  isUniformLoopNest E TheLoop TheLoop = true
  /\ (setupOuterLoopInductions E TheLoop s).1 = true.
Proof.
  intros Ht. destruct (isUniformLoopNest E TheLoop TheLoop).
  - split; [done |]. revert Ht. unfold check at 1. cbn [negb].
    rewrite bind_run.
    destruct (setupOuterLoopInductions E TheLoop s).1; [done |].
    intros Ht. rewrite check_false in Ht; [done | done | by left].
  - rewrite check_false in Ht; [done | | by left].
    intros s'. rewrite bind_run. by apply check_false; [| right].
Qed.

Lemma canVectorizeOuterLoop_true (s : Legality PSE) :
  (canVectorizeOuterLoop E TheLoop s).1 = true ->
  forallb (outerBlockSupported E TheLoop) (blocks TheLoop) = true
  /\ isUniformLoopNest E TheLoop TheLoop = true
  /\ (setupOuterLoopInductions E TheLoop s).1 = true
  /\ (canVectorizeOuterLoop E TheLoop s).2
     = (setupOuterLoopInductions E TheLoop s).2.
Proof.
  unfold canVectorizeOuterLoop. intros Ht.
  destruct (outerLoopBlocks_true (blocks TheLoop) true outerLoopRest s
              outerLoopRest_false Ht) as (_ & Hall & Heq).
  rewrite Heq in Ht |- *.
  destruct (outerLoopRest_true s Ht) as [Hu Hs].
  by rewrite (outerLoopRest_pass s Hu Hs).
Qed.

(** X23.  [canVectorizeOuterLoop] returns true exactly when every block
    of the outer loop is supported, the loop nest is uniform and the
    header phis are all integer inductions; a run that returns true has
    sent no remark, the log being as it was, and has done nothing but
    record these inductions. *)
Theorem canVectorizeOuterLoop_iff (s : Legality PSE) :
  ((canVectorizeOuterLoop E TheLoop s).1 = true
   <-> forallb (outerBlockSupported E TheLoop) (blocks TheLoop) = true
       /\ isUniformLoopNest E TheLoop TheLoop = true
       /\ (setupOuterLoopInductions E TheLoop s).1 = true)
  /\ ((canVectorizeOuterLoop E TheLoop s).1 = true ->
      (canVectorizeOuterLoop E TheLoop s).2
      = (setupOuterLoopInductions E TheLoop s).2)
  /\ ((canVectorizeOuterLoop E TheLoop s).1 = true ->
      ORE (canVectorizeOuterLoop E TheLoop s).2 = ORE s).
Proof.
  split; [split | split].
  - intros Ht.
    destruct (canVectorizeOuterLoop_true s Ht) as (Hall & Hu & Hs & _).
    auto.
  - intros (Hall & Hu & Hs). unfold canVectorizeOuterLoop.
    rewrite outerLoopBlocks_pass; [| exact Hall].
    by rewrite (outerLoopRest_pass s Hu Hs).
  - intros Ht. by destruct (canVectorizeOuterLoop_true s Ht) as (_ & _ & _ & ->).
  - intros Ht. destruct (canVectorizeOuterLoop_true s Ht) as (_ & _ & _ & ->).
    apply setupOuterLoopInductions_ORE.
Qed.

End OuterLoop.

(** ** The verdict on an outer loop *)

Section OuterVerdict.
Context {PSE : Type} (E : Env PSE) (TheLoop : Loop).

#[local] Instance innerFindingsSame_preorder :
  PreOrder (@innerFindingsSame PSE).
Proof.
  split.
  - intros s. unfold innerFindingsSame. tauto.
  - intros s1 s2 s3 H12 H23. unfold innerFindingsSame in *.
    destruct H12 as (? & ? & ? & ? & ? & ?), H23 as (? & ? & ? & ? & ? & ?).
    repeat split; congruence.
Qed.

Ltac same_leaf :=
  unfold innerFindingsSame; repeat case_match; simpl; tauto.

Lemma check_same bad rep Result k :
  keeps innerFindingsSame rep ->
  (forall b, keeps innerFindingsSame (k b)) ->
  keeps innerFindingsSame (check (PSE := PSE) E bad rep Result k).
Proof. intros Hr Hk. unfold check. repeat keeps_step; auto. Qed.

Lemma report_same msg tag :
  keeps innerFindingsSame (@reportVectorizationFailure PSE msg tag).
Proof.
  unfold reportVectorizationFailure, emit. repeat keeps_step. same_leaf.
Qed.

Ltac same_step :=
  first [ apply report_same
        | apply check_same; [| intros ?]
        | keeps_step ].

Ltac same_auto := repeat same_step; try same_leaf.

Lemma canVectorizeLoopNestCFG_same Lp :
  keeps innerFindingsSame (canVectorizeLoopNestCFG E Lp).
Proof.
  induction Lp as [Lp IH] using Loop_nest_ind.
  destruct Lp as [? ? ? ? ? ? ? subs ? ?]. simpl in IH.
  cbn [canVectorizeLoopNestCFG getSubLoops].
  keeps_step; [unfold canVectorizeLoopCFG, CFGNotUnderstood; same_auto |].
  apply check_same; [apply keeps_ret; typeclasses eauto | intros Result].
  revert Result. induction subs as [|S subs IHs]; intros Result.
  - apply keeps_ret; typeclasses eauto.
  - inversion IH; subst.
    keeps_step; [assumption |].
    apply check_same; [apply keeps_ret; typeclasses eauto | intros ?].
    by apply IHs.
Qed.

Lemma setupOuterLoopInductions_same :
  keeps innerFindingsSame (setupOuterLoopInductions E TheLoop).
Proof.
  unfold setupOuterLoopInductions.
  generalize (match findBlock TheLoop (getHeader TheLoop) with
              | Some BB => phis BB
              | None => []
              end) as l.
  induction l as [|Phi l IH]; [apply keeps_ret; typeclasses eauto |].
  unfold addInductionPhi in *. same_auto; try exact IH.
Qed.

Lemma outerLoopBlocks_same bs : forall Result k,
  (forall b, keeps innerFindingsSame (k b)) ->
  keeps innerFindingsSame (outerLoopBlocks E TheLoop bs Result k).
Proof.
  induction bs as [|BB bs IH]; intros Result k Hk; simpl; [apply Hk |].
  unfold CFGNotUnderstood.
  apply check_same; [apply report_same | intros ?].
  apply check_same; [apply report_same | intros ?].
  by apply IH.
Qed.

Lemma canVectorizeOuterLoop_same :
  keeps innerFindingsSame (canVectorizeOuterLoop E TheLoop).
Proof.
  unfold canVectorizeOuterLoop, CFGNotUnderstood.
  apply outerLoopBlocks_same. intros ?.
  same_auto. apply setupOuterLoopInductions_same.
Qed.

(** X24.  On a loop that has sub-loops [canVectorize] runs none of the
    analyses of an inner loop: whatever it returns, it leaves the
    reductions, the first-order recurrences, the masked operations and
    the memory analysis as they were.  When it returns true, every block
    of the loop is supported, the loop nest is uniform and every phi of
    the header is recorded as an integer induction. *)
Theorem canVectorize_outer_loop (s : Legality PSE) :
  Loop_empty TheLoop = false ->
  innerFindingsSame s (canVectorize E TheLoop s).2
  /\ ((canVectorize E TheLoop s).1 = true ->
      forallb (outerBlockSupported E TheLoop) (blocks TheLoop) = true
      /\ isUniformLoopNest E TheLoop TheLoop = true
      /\ forall BB Phi,
           findBlock TheLoop (getHeader TheLoop) = Some BB ->
           In Phi (phis BB) ->
           intInductionAt (canVectorize E TheLoop s).2 (ival Phi)).
Proof.
  intros Hsub. split.
  - revert s. change (keeps innerFindingsSame (canVectorize E TheLoop)).
    unfold canVectorize. rewrite Hsub. cbn [negb].
    keeps_step; [apply canVectorizeLoopNestCFG_same |].
    apply check_same; [apply keeps_ret; typeclasses eauto | intros ?].
    same_auto. apply canVectorizeOuterLoop_same.
  - unfold canVectorize. rewrite Hsub. cbn [negb].
    set (k := fun Result : bool =>
                bind (canVectorizeOuterLoop E TheLoop)
                  (fun ok =>
                     if negb ok
                     then bind (reportVectorizationFailure
                                  "unsupported outer loop"
                                  "UnsupportedOuterLoop")
                            (fun _ => ret false)
                     else ret Result)).
    assert (forall s', (k false s').1 = false) as Hk.
    { intros s'. unfold k. rewrite bind_run.
      destruct (canVectorizeOuterLoop E TheLoop s').1; [done |].
      cbn [negb]. by rewrite bind_run. }
    intros Ht.
    destruct (ok_true_inv E _ _ _ _ _ Hk Ht) as (_ & _ & Heq).
    rewrite Heq in Ht |- *. clear Heq.
    set (s1 := (canVectorizeLoopNestCFG E TheLoop s).2) in *.
    unfold k in Ht |- *. rewrite bind_run in Ht |- *.
    destruct (canVectorizeOuterLoop E TheLoop s1).1 eqn:Ho.
    2: { cbn [negb] in Ht. by rewrite bind_run in Ht. }
    cbn [negb ret snd].
    destruct (canVectorizeOuterLoop_true E TheLoop s1 Ho)
      as (Hall & Hu & Hs & Hst).
    split; [exact Hall |]. split; [exact Hu |].
    intros BB Phi HBB HPhi. rewrite Hst.
    apply (proj2 (setupOuterLoopInductions_phis E TheLoop s1) Hs).
    by rewrite HBB.
Qed.

End OuterVerdict.

(** ** The further properties at concrete inputs *)

(** X14 at the two-block loop with its induction recognised. *)
Lemma canVectorize_inner_success_witness :
  Loop_empty loop_two_blocks = true
  /\ (canVectorize env_induction loop_two_blocks st0).1 = true
  /\ LAI (canVectorize env_induction loop_two_blocks st0).2
     = Some (GetLAA env_induction loop_two_blocks).
Proof.
  assert ((canVectorize env_induction loop_two_blocks st0).1 = true) as Ht
      by (vm_compute; reflexivity).
  split; [reflexivity |]. split; [exact Ht |].
  exact (proj1 (proj2 (proj2 (canVectorize_inner_success env_induction
                                loop_two_blocks st0 eq_refl Ht)))).
Defined.


(** X16 at the two-block loop: an induction is recorded. *)
Lemma canVectorizeInstrs_primary_witness :
  (canVectorizeInstrs env_induction loop_two_blocks st0).1 = true
  /\ Inductions (canVectorizeInstrs env_induction loop_two_blocks st0).2 <> ∅.
Proof.
  assert ((canVectorizeInstrs env_induction loop_two_blocks st0).1 = true)
    as Ht by (vm_compute; reflexivity).
  split; [exact Ht |].
  apply (proj2 (canVectorizeInstrs_primary env_induction loop_two_blocks st0
                  Ht)).
  intros [P HP]. discriminate HP.
Defined.

(** X21 at a loop whose middle block needs predication: its store is
    masked. *)
Lemma canVectorizeWithIfConvert_MaskedOp_witness :
  (forall BB, In BB (blocks loop_three_blocks) ->
              Forall wellFormedInst (insts BB))
  /\ (canVectorizeWithIfConvert env_predicated loop_three_blocks st0).1 = true
  /\ ival plain_store
     ∈ MaskedOp (canVectorizeWithIfConvert env_predicated loop_three_blocks
                   st0).2.
Proof.
  assert (forall BB, In BB (blocks loop_three_blocks) ->
                     Forall wellFormedInst (insts BB)) as Hwf.
  { intros BB [<- | [<- | [<- | []]]]; simpl;
      repeat constructor; discriminate. }
  assert ((canVectorizeWithIfConvert env_predicated loop_three_blocks st0).1
          = true) as Ht by (vm_compute; reflexivity).
  split; [exact Hwf |]. split; [exact Ht |].
  apply (proj2 (canVectorizeWithIfConvert_MaskedOp env_predicated
                  loop_three_blocks st0 (ival plain_store) Hwf Ht)).
  right. exists bb_load_store, plain_store.
  split; [simpl; auto |]. split; [reflexivity |].
  split; [simpl; auto |]. split; reflexivity.
Defined.

(** X22 at the header phi of the two-block loop. *)
Lemma setupOuterLoopInductions_true_witness :
  (setupOuterLoopInductions env_induction loop_two_blocks st0).1 = true
  /\ findBlock loop_two_blocks (getHeader loop_two_blocks) = Some bb_header
  /\ In phi_iv (phis bb_header)
  /\ intInductionAt
       (setupOuterLoopInductions env_induction loop_two_blocks st0).2
       (ival phi_iv).
Proof.
  assert ((setupOuterLoopInductions env_induction loop_two_blocks st0).1
          = true) as Ht by (vm_compute; reflexivity).
  assert (In phi_iv (phis bb_header)) as HP by (simpl; auto).
  split; [exact Ht |]. split; [reflexivity |]. split; [exact HP |].
  exact (setupOuterLoopInductions_true env_induction loop_two_blocks st0
           bb_header phi_iv Ht eq_refl HP).
Defined.

(** X24 at a loop around the two-block loop. *)
Lemma canVectorize_outer_loop_witness :
  Loop_empty loop_outer = false
  /\ innerFindingsSame st0 (canVectorize env0 loop_outer st0).2.
Proof.
  split; [reflexivity |].
  exact (proj1 (canVectorize_outer_loop env0 loop_outer st0 eq_refl)).
Defined.

(** X18 at the header phi of the two-block loop. *)
Lemma canVectorizeInstrs_phi_types_witness :
  (canVectorizeInstrs env_induction loop_two_blocks st0).1 = true
  /\ In bb_header (blocks loop_two_blocks)
  /\ In phi_iv (insts bb_header)
  /\ isIntegerTy (getType phi_iv) || isFloatingPointTy (getType phi_iv)
     || isPointerTy (getType phi_iv) = true.
Proof.
  assert ((canVectorizeInstrs env_induction loop_two_blocks st0).1 = true)
    as Ht by (vm_compute; reflexivity).
  assert (In bb_header (blocks loop_two_blocks)) as HB by (simpl; auto).
  assert (In phi_iv (insts bb_header)) as HI by (simpl; auto).
  split; [exact Ht |]. split; [exact HB |]. split; [exact HI |].
  exact (canVectorizeInstrs_phi_types env_induction loop_two_blocks st0
           bb_header phi_iv Ht HB HI eq_refl).
Defined.
